(** * Amazon-Deals-Bot: the deal finder, its throttler and the keyword sweeps

    A shallow embedding of [amazon_deal_finder.py] and of the sweep of
    [deal_fetcher.py], with the properties of the request throttler, the
    discount evaluator, the per-item extractor, the ranking and the sweeps;
    then of the search of [bluesky_post_test.py] and of the post texts of
    [bluesky_poster.py] and [bluesky_post.py].

    Conventions of the embedding:
    - a Python exception that derives from [Exception] is a value [exn]
      carrying what [str(e)] prints; code that may raise returns a [result];
    - [Decimal] values are the finite decimals [coef * 10^expo], the two
      infinities and the NaNs, with the arithmetic of the default context
      (28 significant digits, round-half-even, Emax = 999999,
      Emin = -999999);
    - seconds ([time.time()], [time.sleep], [min_request_interval]) are exact
      rationals. *)

From Stdlib Require Import ZArith QArith Qround Qpower Lia Lqa List String Ascii Bool.
From Stdlib Require Import Permutation Sorted.
From Stdlib Require Import DecimalString.
Import ListNotations.

Local Open Scope Z_scope.

(** ** Exceptions and results *)

Record exn := Exn { exn_type : string; exn_str : string }.

Inductive result (A : Type) : Type :=
| Ok (a : A)
| Raise (e : exn).
Arguments Ok {A} a.
Arguments Raise {A} e.

Definition rbind {A B} (r : result A) (k : A -> result B) : result B :=
  match r with
  | Ok a => k a
  | Raise e => Raise e
  end.

(** [try: body except Exception as e: handler(e)] *)
Definition try_except {A} (body : result A) (handler : exn -> result A) : result A :=
  match body with
  | Ok a => Ok a
  | Raise e => handler e
  end.

Declare Scope result_scope.
Delimit Scope result_scope with result.
Notation "x <- r ;; k" := (rbind r (fun x => k))
  (at level 61, r at next level, right associativity) : result_scope.

(** ** Decimal arithmetic in the default context *)

Module Dec.

Definition prec : Z := 28.
Definition Emax : Z := 999999.
Definition Emin : Z := -999999.
Definition Etiny : Z := Emin - prec + 1.

(** [Fin c e] is the number [c * 10^e]; the sign is the sign of [c]. The sign
    of a zero is not tracked: it shows only in the sign of an infinite
    quotient by a zero, and [calculate_discount] divides by a positive
    number only. *)
Inductive Decimal :=
| Fin (coef expo : Z)
| Inf (negative : bool)
| NaN (signaling : bool).

Definition InvalidOperation : exn := Exn "InvalidOperation" "[<class 'decimal.InvalidOperation'>]".
Definition DivisionByZero : exn := Exn "DivisionByZero" "[<class 'decimal.DivisionByZero'>]".
Definition Overflow : exn := Exn "Overflow" "[<class 'decimal.Overflow'>]".
Definition OverflowError : exn := Exn "OverflowError" "cannot convert Infinity to integer".
Definition ValueError : exn := Exn "ValueError" "cannot convert NaN to integer".

(** Number of decimal digits of [n >= 1], [len(str(n))]. *)
Fixpoint ndigits_aux (fuel : nat) (n : Z) : Z :=
  match fuel with
  | O => 1
  | S f => if n <? 10 then 1 else 1 + ndigits_aux f (n / 10)
  end.

Definition ndigits (n : Z) : Z := ndigits_aux (Z.to_nat (Z.log2 n)) n.

(** [num / den] rounded to the nearest integer, ties to even
    ([num >= 0], [den > 0]). *)
Definition div_half_even (num den : Z) : Z :=
  let q := num / den in
  match 2 * (num mod den) ?= den with
  | Lt => q
  | Gt => q + 1
  | Eq => if Z.even q then q else q + 1
  end.

Definition signed (negative : bool) (n : Z) : Z := if negative then - n else n.

(** Rounding of the finite number [c * 10^e] to the context: at most [prec]
    digits, subnormal results at the unit [10^Etiny], [Overflow] (trapped,
    so raised) when the rounded result exceeds Emax. *)
Definition fix_ (c e : Z) : result Decimal :=
  if c =? 0 then Ok (Fin 0 (Z.min (Z.max e Etiny) Emax))
  else
    let exp_min := Z.max (ndigits (Z.abs c) + e - prec) Etiny in
    if e <? exp_min then
      let n := div_half_even (Z.abs c) (10 ^ (exp_min - e)) in
      if Emax <? ndigits n + exp_min - 1 then Raise Overflow
      else Ok (Fin (signed (c <? 0) n) exp_min)
    else
      if Emax <? ndigits (Z.abs c) + e - 1 then Raise Overflow
      else Ok (Fin c e).

(** Largest [a] with [10^a <= num / den], for [num, den >= 1]. *)
Definition adjusted_ratio (num den : Z) : Z :=
  let a := ndigits num - ndigits den in
  if (if 0 <=? a then den * 10 ^ a <=? num else den <=? num * 10 ^ (- a))
  then a else a - 1.

(** [num * 10^s / den], rounded to the nearest integer, ties to even. *)
Definition scale_div (num den s : Z) : Z :=
  if 0 <=? s then div_half_even (num * 10 ^ s) den
  else div_half_even num (den * 10 ^ (- s)).

(** The positive rational [num / den], correctly rounded to the context
    in one step. *)
Definition round_ratio (negative : bool) (num den : Z) : result Decimal :=
  let u := Z.max (adjusted_ratio num den - prec + 1) Etiny in
  let n := scale_div num den (- u) in
  if Emax <? ndigits n + u - 1 then Raise Overflow
  else Ok (Fin (signed negative n) u).

Definition of_int (n : Z) : Decimal := Fin n 0.

(** Three-way comparison of two finite numbers. *)
Definition cmp_fin (c1 e1 c2 e2 : Z) : comparison :=
  let e := Z.min e1 e2 in
  (c1 * 10 ^ (e1 - e)) ?= (c2 * 10 ^ (e2 - e)).

(** [a <= b]; an ordering comparison with a NaN signals InvalidOperation. *)
Definition le (a b : Decimal) : result bool :=
  match a, b with
  | NaN _, _ | _, NaN _ => Raise InvalidOperation
  | Inf true, _ => Ok true
  | Inf false, Inf false => Ok true
  | Inf false, _ => Ok false
  | Fin _ _, Inf negative => Ok (negb negative)
  | Fin c1 e1, Fin c2 e2 =>
      Ok (match cmp_fin c1 e1 c2 e2 with Gt => false | _ => true end)
  end.

(** [a - b] *)
Definition sub (a b : Decimal) : result Decimal :=
  match a, b with
  | NaN true, _ | _, NaN true => Raise InvalidOperation
  | NaN false, _ | _, NaN false => Ok (NaN false)
  | Inf s1, Inf s2 => if Bool.eqb s1 s2 then Raise InvalidOperation else Ok (Inf s1)
  | Inf s1, Fin _ _ => Ok (Inf s1)
  | Fin _ _, Inf s2 => Ok (Inf (negb s2))
  | Fin c1 e1, Fin c2 e2 =>
      let e := Z.min e1 e2 in
      fix_ (c1 * 10 ^ (e1 - e) - c2 * 10 ^ (e2 - e)) e
  end.

(** [a * b] *)
Definition mul (a b : Decimal) : result Decimal :=
  match a, b with
  | NaN true, _ | _, NaN true => Raise InvalidOperation
  | NaN false, _ | _, NaN false => Ok (NaN false)
  | Inf s1, Inf s2 => Ok (Inf (xorb s1 s2))
  | Inf s1, Fin c2 _ =>
      if c2 =? 0 then Raise InvalidOperation else Ok (Inf (xorb s1 (c2 <? 0)))
  | Fin c1 _, Inf s2 =>
      if c1 =? 0 then Raise InvalidOperation else Ok (Inf (xorb (c1 <? 0) s2))
  | Fin c1 e1, Fin c2 e2 => fix_ (c1 * c2) (e1 + e2)
  end.

(** [a / b] *)
Definition div (a b : Decimal) : result Decimal :=
  match a, b with
  | NaN true, _ | _, NaN true => Raise InvalidOperation
  | NaN false, _ | _, NaN false => Ok (NaN false)
  | Inf _, Inf _ => Raise InvalidOperation
  | Inf s1, Fin c2 _ => Ok (Inf (xorb s1 (c2 <? 0)))
  | Fin _ _, Inf _ => Ok (Fin 0 Etiny)
  | Fin c1 e1, Fin c2 e2 =>
      if c2 =? 0 then
        if c1 =? 0 then Raise InvalidOperation else Raise DivisionByZero
      else if c1 =? 0 then fix_ 0 (e1 - e2)
      else
        let x := e1 - e2 in
        let negative := xorb (c1 <? 0) (c2 <? 0) in
        if 0 <=? x then round_ratio negative (Z.abs c1 * 10 ^ x) (Z.abs c2)
        else round_ratio negative (Z.abs c1) (Z.abs c2 * 10 ^ (- x))
  end.

(** [int(a)]: truncation towards zero. *)
Definition to_int (a : Decimal) : result Z :=
  match a with
  | NaN _ => Raise ValueError
  | Inf _ => Raise OverflowError
  | Fin c e => Ok (if 0 <=? e then c * 10 ^ e else Z.quot c (10 ^ (- e)))
  end.

(** The exact value of a finite decimal. *)
Definition value (c e : Z) : Q := inject_Z c * Qpower (10 # 1) e.

End Dec.

Import Dec.

(** ** [AmazonDealFinder.calculate_discount] *)

Local Open Scope result_scope.

Definition calculate_discount_body (current_price original_price : Decimal) : result Z :=
  b1 <- le original_price (of_int 0) ;;
  b2 <- (if b1 then Ok true else le current_price (of_int 0)) ;;
  if b2 then Ok 0
  else
    d <- sub original_price current_price ;;
    q <- div d original_price ;;
    p <- mul q (of_int 100) ;;
    to_int p.

Definition calculate_discount (current_price original_price : Decimal) : result Z :=
  try_except (calculate_discount_body current_price original_price)
             (fun _ => Ok 0).


(** The exact integer floor of the percentage drop between two finite
    prices, [floor((original - current) / original * 100)] over the
    rationals. *)
Definition exact_discount (cc ce oc oe : Z) : Z :=
  Qfloor ((value oc oe - value cc ce) / value oc oe * inject_Z 100).

(** ** Predicates used by the properties *)

(** [P] holds of what [r] returns, if it returns. *)
Definition result_all {A} (P : A -> Prop) (r : result A) : Prop :=
  match r with
  | Ok a => P a
  | Raise _ => True
  end.

Definition nonneg (d : Decimal) : Prop :=
  match d with
  | Fin c _ => 0 <= c
  | Inf negative => negative = false
  | NaN _ => True
  end.

Definition positive (d : Decimal) : Prop :=
  match d with
  | Fin c _ => 0 < c
  | Inf negative => negative = false
  | NaN _ => False
  end.

(** ** Time, the outside world and the throttler state *)

(** What a run leaves behind, newest first: the pacing sleep of
    [_throttled_request], its backoff sleeps, the cooldown sleeps of the
    fetcher's sweep, and the dispatches of the wrapped callable with the
    clock value at which each one starts. *)
Inductive event :=
| Throttle (seconds : Q)
| Backoff (seconds : Q)
| Cooldown (seconds : Q)
| Dispatch (at_time : Q).

(** One call of a wrapped callable: what it returns or raises, and how long
    it takes. *)
Record attempt (A : Type) := Attempt { outcome : result A; latency : Q }.
Arguments Attempt {A} outcome latency.
Arguments outcome {A} a.
Arguments latency {A} a.

(** A callable is given by its behaviour at each dispatch of the run,
    counted from the start of the process. *)
Definition callable (A : Type) : Type := nat -> attempt A.

Record world := World {
  clock : Q;              (* what [time.time()] returns *)
  dispatched : nat;       (* dispatches made so far *)
  trace : list event }.

Definition history (w : world) : list event := rev (trace w).

Definition Qltb (x y : Q) : bool := negb (Qle_bool y x).

Fixpoint backoff_sleeps (evs : list event) : list Q :=
  match evs with
  | [] => []
  | Backoff d :: rest => d :: backoff_sleeps rest
  | _ :: rest => backoff_sleeps rest
  end.

Fixpoint throttle_sleeps (evs : list event) : list Q :=
  match evs with
  | [] => []
  | Throttle d :: rest => d :: throttle_sleeps rest
  | _ :: rest => throttle_sleeps rest
  end.

Fixpoint dispatch_times (evs : list event) : list Q :=
  match evs with
  | [] => []
  | Dispatch t :: rest => t :: dispatch_times rest
  | _ :: rest => dispatch_times rest
  end.

(** ** Raw catalogue responses

    The search collaborator returns duck-typed data: any field may be
    absent, [None] or of an unexpected type. Objects are plain attribute
    records (no properties that run code, no mappings). *)
#[warnings="-register-all"]
Inductive pyval :=
| PNone
| PBool (b : bool)
| PNum (d : Decimal)            (* an int or a float [x]; [d] is [Decimal(str(x))] *)
| PStr (s : string)
| PList (elements : list pyval)
| PObj (attrs : list (string * pyval))
| PMethod.                      (* a bound builtin method, such as ["abc".title] *)

Definition TypeError (msg : string) : exn := Exn "TypeError" msg.
Definition IndexError : exn := Exn "IndexError" "index out of range".
Definition AttributeError (name : string) : exn :=
  Exn "AttributeError" ("object has no attribute '" ++ name ++ "'").
Definition ConversionSyntax : exn :=
  Exn "InvalidOperation" "[<class 'decimal.ConversionSyntax'>]".
Definition SleepValueError : exn :=
  Exn "ValueError" "sleep length must be non-negative".

Fixpoint lookup (name : string) (attrs : list (string * pyval)) : option pyval :=
  match attrs with
  | [] => None
  | (k, v) :: rest => if String.eqb k name then Some v else lookup name rest
  end.

(** [Some (getattr(v, name))] when [hasattr(v, name)], [None] otherwise, for
    the attribute names this program reads (offers, listings, price, amount,
    saving_basis, item_info, title, display_value, asin, images, primary,
    medium, url, items): of these, the builtin types have [str.title] only. *)
Definition attr (v : pyval) (name : string) : option pyval :=
  match v with
  | PObj attrs => lookup name attrs
  | PStr _ => if String.eqb name "title" then Some PMethod else None
  | _ => None
  end.

(** [bool(v)] *)
Definition truthy (v : pyval) : bool :=
  match v with
  | PNone => false
  | PBool b => b
  | PNum (Fin c _) => negb (c =? 0)%Z
  | PNum _ => true
  | PStr s => negb (String.eqb s "")
  | PList l => match l with [] => false | _ => true end
  | PObj _ => true
  | PMethod => true
  end.

Fixpoint chars (s : string) : list pyval :=
  match s with
  | EmptyString => []
  | String c rest => PStr (String c EmptyString) :: chars rest
  end.

(** [v[0]] *)
Definition index0 (v : pyval) : result pyval :=
  match v with
  | PList (x :: _) => Ok x
  | PList [] => Raise IndexError
  | PStr (String c _) => Ok (PStr (String c EmptyString))
  | PStr EmptyString => Raise IndexError
  | _ => Raise (TypeError "object is not subscriptable")
  end.

(** The elements [for item in v] visits. *)
Definition iterate (v : pyval) : result (list pyval) :=
  match v with
  | PList l => Ok l
  | PStr s => Ok (chars s)
  | _ => Raise (TypeError "object is not iterable")
  end.

(** ** The finder object and the monad of its methods *)

Record search_args := SearchArgs {
  keywords : string;
  item_count : Z;
  min_price : Z;
  min_saving_percent : Z }.

(** [client.search_items], called with [condition=Condition.NEW]. *)
Definition Client : Type := search_args -> callable pyval.

Record AmazonDealFinder := Finder {
  client : option Client;
  last_request_time : Q;
  min_request_interval : Q;
  max_retries : Z }.

(** [AmazonDealFinder.__init__], once [_setup_client] has returned. *)
Definition init (c : Client) : AmazonDealFinder :=
  {| client := Some c;
     last_request_time := 0;
     min_request_interval := 10;
     max_retries := 3 |}.

Record state := State { self : AmazonDealFinder; env : world }.

(** A method runs on a state and either diverges ([None]: the model ran out
    of fuel) or ends, returning or raising, in a new state. *)
Definition M (A : Type) : Type := state -> option (result A * state).

Definition ret {A} (a : A) : M A := fun st => Some (Ok a, st).

Definition raise {A} (e : exn) : M A := fun st => Some (Raise e, st).

Definition lift {A} (r : result A) : M A := fun st => Some (r, st).

Definition bind {A B} (m : M A) (k : A -> M B) : M B :=
  fun st =>
    match m st with
    | None => None
    | Some (Ok a, st') => k a st'
    | Some (Raise e, st') => Some (Raise e, st')
    end.

(** [try: m except Exception as e: handler(e)] *)
Definition try_catch {A} (m : M A) (handler : exn -> M A) : M A :=
  fun st =>
    match m st with
    | None => None
    | Some (Ok a, st') => Some (Ok a, st')
    | Some (Raise e, st') => handler e st'
    end.

Declare Scope method_scope.
Delimit Scope method_scope with method.
Notation "x <~ m ;; k" := (bind m (fun x => k))
  (at level 61, m at next level, right associativity) : method_scope.
Notation "m ;;; k" := (bind m (fun _ => k))
  (at level 61, right associativity) : method_scope.
Local Open Scope method_scope.

Definition get {A} (f : state -> A) : M A := fun st => Some (Ok (f st), st).

(** [time.time()] *)
Definition time : M Q := get (fun st => clock (env st)).

(** [time.sleep(seconds)], logged as an event of the given kind. *)
Definition sleep (kind : Q -> event) (seconds : Q) : M unit :=
  fun st =>
    if Qltb seconds 0 then Some (Raise SleepValueError, st)
    else
      let w := env st in
      Some (Ok tt,
            {| self := self st;
               env := {| clock := (clock w + seconds)%Q;
                         dispatched := dispatched w;
                         trace := kind seconds :: trace w |} |}).

Definition set_last_request_time (t : Q) : M unit :=
  fun st =>
    let s := self st in
    Some (Ok tt,
          {| self := {| client := client s;
                        last_request_time := t;
                        min_request_interval := min_request_interval s;
                        max_retries := max_retries s |};
             env := env st |}).

Definition set_min_request_interval (t : Q) : M unit :=
  fun st =>
    let s := self st in
    Some (Ok tt,
          {| self := {| client := client s;
                        last_request_time := last_request_time s;
                        min_request_interval := t;
                        max_retries := max_retries s |};
             env := env st |}).

(** [func(...)]: the next dispatch of the run. *)
Definition call {A} (func : callable A) : M A :=
  fun st =>
    let w := env st in
    let a := func (dispatched w) in
    Some (outcome a,
          {| self := self st;
             env := {| clock := (clock w + latency a)%Q;
                       dispatched := S (dispatched w);
                       trace := Dispatch (clock w) :: trace w |} |}).

(** ** [AmazonDealFinder._throttled_request] *)

Fixpoint is_infix (needle hay : string) : bool :=
  String.prefix needle hay ||
  match hay with
  | EmptyString => false
  | String _ rest => is_infix needle rest
  end.

(** ["TooManyRequests" in str(e) or "Too Many Requests" in str(e)] *)
Definition is_rate_limit (e : exn) : bool :=
  is_infix "TooManyRequests" (exn_str e) || is_infix "Too Many Requests" (exn_str e).

(** The [while retries <= self.max_retries] loop; [None] as a result is
    Python's [None], returned when the loop ends without a dispatch. *)
Fixpoint retry_loop {A} (fuel : nat) (func : callable A) (retries : Z)
  : M (option A) :=
  fun st =>
    match fuel with
    | O => None
    | S fuel' =>
        if (retries <=? max_retries (self st))%Z then
          try_catch
            (now <~ time ;;
             set_last_request_time now ;;;
             v <~ call func ;;
             ret (Some v))
            (fun e =>
               if is_rate_limit e then
                 let retries := (retries + 1)%Z in
                 mr <~ get (fun st => max_retries (self st)) ;;
                 if (retries >? mr)%Z then raise e
                 else
                   let wait_time := (30 * 2 ^ retries)%Z in
                   sleep Backoff (inject_Z wait_time) ;;;
                   T <~ get (fun st => min_request_interval (self st)) ;;
                   set_min_request_interval (T + 5)%Q ;;;
                   retry_loop fuel' func retries
               else raise e)
            st
        else Some (Ok None, st)
    end.

Definition _throttled_request {A} (func : callable A) : M (option A) :=
  now <~ time ;;
  last <~ get (fun st => last_request_time (self st)) ;;
  let time_since_last := (now - last)%Q in
  T <~ get (fun st => min_request_interval (self st)) ;;
  (if Qltb time_since_last T
   then sleep Throttle (T - time_since_last)%Q
   else ret tt) ;;;
  mr <~ get (fun st => max_retries (self st)) ;;
  retry_loop (S (Z.to_nat (mr + 1))) func 0.

(** ** States and events of one call of the throttler *)

(** The state after a dispatch that takes [latency a] seconds. *)
Definition after_dispatch {A} (a : attempt A) (st : state) : state :=
  {| self := {| client := client (self st);
                last_request_time := clock (env st);
                min_request_interval := min_request_interval (self st);
                max_retries := max_retries (self st) |};
     env := {| clock := (clock (env st) + latency a)%Q;
               dispatched := S (dispatched (env st));
               trace := Dispatch (clock (env st)) :: trace (env st) |} |}.

(** The state after the backoff sleep and the escalation of the interval. *)
Definition after_backoff (wait_time : Z) (st : state) : state :=
  {| self := {| client := client (self st);
                last_request_time := last_request_time (self st);
                min_request_interval := (min_request_interval (self st) + 5)%Q;
                max_retries := max_retries (self st) |};
     env := {| clock := (clock (env st) + inject_Z wait_time)%Q;
               dispatched := dispatched (env st);
               trace := Backoff (inject_Z wait_time) :: trace (env st) |} |}.

(** The state after the pacing sleep of [seconds]. *)
Definition after_throttle (seconds : Q) (st : state) : state :=
  {| self := self st;
     env := {| clock := (clock (env st) + seconds)%Q;
               dispatched := dispatched (env st);
               trace := Throttle seconds :: trace (env st) |} |}.

(** The time since the last dispatch, as [_throttled_request] computes it. *)
Definition elapsed (st : state) : Q :=
  (clock (env st) - last_request_time (self st))%Q.

(** The state in which the retry loop starts. *)
Definition paced (st : state) : state :=
  if Qltb (elapsed st) (min_request_interval (self st))
  then after_throttle (min_request_interval (self st) - elapsed st)%Q st
  else st.

(** The pacing sleep of a call that starts in [st]. *)
Definition pacing (st : state) : list event :=
  if Qltb (elapsed st) (min_request_interval (self st))
  then [Throttle (min_request_interval (self st) - elapsed st)%Q]
  else [].

(** ** Runs of the throttler

    Time passing outside the throttler (the caller's own work and sleeps),
    and the states a process goes through from one call of
    [_throttled_request] to the next. *)
Definition pass (idle : Q) (st : state) : state :=
  {| self := self st;
     env := {| clock := (clock (env st) + idle)%Q;
               dispatched := dispatched (env st);
               trace := trace (env st) |} |}.

Inductive lifetime : state -> state -> Prop :=
| lifetime_refl st : lifetime st st
| lifetime_call A (func : callable A) st r st1 st2 :
    _throttled_request func st = Some (r, st1) ->
    lifetime st1 st2 -> lifetime st st2
| lifetime_pass idle st st2 :
    (0 <= idle)%Q -> lifetime (pass idle st) st2 -> lifetime st st2.

(** ** Ranking: [list.sort(key=..., reverse=True)] and [deals[:n]]

    Python's sort is stable, also with [reverse=True]: elements with equal
    keys keep their order. It is modelled by the insertion sort that has
    this property. *)
Section Ranking.
Context {A : Type} (key : A -> Z).

(** [a] may stand before [b] in a descending order of keys. *)
Definition desc (a b : A) : Prop := key b <= key a.

Fixpoint insert_desc (x : A) (l : list A) : list A :=
  match l with
  | [] => [x]
  | y :: rest =>
      if key y <=? key x then x :: l else y :: insert_desc x rest
  end.

Fixpoint sort_desc (l : list A) : list A :=
  match l with
  | [] => []
  | x :: rest => insert_desc x (sort_desc rest)
  end.
End Ranking.

(** [l[:n]] *)
Definition slice_to {A} (n : Z) (l : list A) : list A :=
  if 0 <=? n then firstn (Z.to_nat n) l
  else firstn (Z.to_nat (Z.of_nat (List.length l) + n)) l.

(** [deals.sort(key=..., reverse=True); return deals[:num_deals]] *)
Definition rank {A} (key : A -> Z) (num_deals : Z) (deals : list A) : list A :=
  slice_to num_deals (sort_desc key deals).

(** ** Deals and the library functions around them *)

Record deal (F : Type) := Deal {
  asin : pyval;
  title : pyval;
  price : F;
  original_price : F;
  discount_percent : Z;
  url : string;
  image_url : pyval;
  posted : bool }.
Arguments Deal {F}.
Arguments asin {F} d.
Arguments title {F} d.
Arguments price {F} d.
Arguments original_price {F} d.
Arguments discount_percent {F} d.
Arguments url {F} d.
Arguments image_url {F} d.
Arguments posted {F} d.

(** What the program takes from Python and from its collaborators without
    this development looking inside: binary floating point, the parser of
    [Decimal], [str], the environment and the deals database. *)
Class Runtime := {
  float : Type;
  float_of_decimal : Decimal -> result float;   (* [float(d)] *)
  float_of_pyval : pyval -> result float;       (* [float(v)] *)
  float_percent : float -> float -> result Z;
    (* [int((original - current) / original * 100)], given current, original *)
  cents_of : float -> result Z;                 (* [int(min_price * 100)] *)
  parse_decimal : string -> option Decimal;     (* [Decimal(s)] for a str *)
  py_str : pyval -> string;                     (* [str(v)] *)
  associate_tag : option string;                (* [os.getenv('ASSOCIATE_TAG')] *)
  database : Type;
  save_deal : deal float -> database -> bool * database  (* [db.save_deal] *)
}.

Section Finder.
Context {R : Runtime}.

(** [Decimal(str(v))] *)
Definition to_decimal (v : pyval) : result Decimal :=
  match v with
  | PNum d => Ok d
  | PStr s =>
      match parse_decimal s with
      | Some d => Ok d
      | None => Raise ConversionSyntax
      end
  | _ => Raise ConversionSyntax
  end.

Definition item_title (item : pyval) : pyval :=
  match attr item "item_info" with
  | Some item_info =>
      match attr item_info "title" with
      | Some t =>
          match attr t "display_value" with
          | Some display_value => display_value
          | None => PStr "Unknown Product"
          end
      | None => PStr "Unknown Product"
      end
  | None => PStr "Unknown Product"
  end.

(** [getattr(item, 'asin', 'unknown')] *)
Definition item_asin (item : pyval) : pyval :=
  match attr item "asin" with
  | Some v => v
  | None => PStr "unknown"
  end.

Definition item_image_url (item : pyval) : pyval :=
  match attr item "images" with
  | Some images =>
      match attr images "primary" with
      | Some primary =>
          match attr primary "medium" with
          | Some medium =>
              match attr medium "url" with
              | Some u => u
              | None => PNone
              end
          | None => PNone
          end
      | None => PNone
      end
  | None => PNone
  end.

Definition deal_url (asin : pyval) : string :=
  "https://www.amazon.com/dp/" ++ py_str asin ++ "?tag=" ++
  match associate_tag with
  | Some tag => tag
  | None => "None"
  end.

(** The [listings[0]] of an item that has offers and a non-empty listing;
    [Ok None] is [continue]. *)
Definition first_listing (item : pyval) : result (option pyval) :=
  match attr item "offers" with
  | None => Ok None
  | Some offers =>
      if negb (truthy offers) then Ok None
      else
        match attr offers "listings" with
        | None => Ok None
        | Some listings =>
            if negb (truthy listings) then Ok None
            else (listing <- index0 listings ;; Ok (Some listing))%result
        end
  end.

(** [x.name.amount] when both attributes are there. *)
Definition amount_of (listing : pyval) (name : string) : option pyval :=
  match attr listing name with
  | None => None
  | Some p => attr p "amount"
  end.

(** The body of the per-item [try] of [find_deals_by_keyword] and
    [find_best_deals]: [Ok (Some d)] appends [d], [Ok None] is
    [continue]. *)
Definition extract_deal (min_discount : Z) (item : pyval)
  : result (option (deal float)) :=
  (listing <- first_listing item ;;
   match listing with
   | None => Ok None
   | Some listing =>
       match amount_of listing "price" with
       | None => Ok None
       | Some amount =>
           current_price <- to_decimal amount ;;
           match amount_of listing "saving_basis" with
           | None => Ok None
           | Some basis =>
               original_price <- to_decimal basis ;;
               discount <- calculate_discount current_price original_price ;;
               if min_discount <=? discount then
                 let title := item_title item in
                 let asin := item_asin item in
                 let image_url := item_image_url item in
                 p <- float_of_decimal current_price ;;
                 o <- float_of_decimal original_price ;;
                 Ok (Some (Deal asin title p o discount (deal_url asin)
                                image_url false))
               else Ok None
           end
       end
   end)%result.

(** The body of the per-item [try] of [fetch_daily_deals], on floats and
    with its fixed threshold of 15. *)
Definition extract_deal_fetcher (item : pyval)
  : result (option (deal float)) :=
  (listing <- first_listing item ;;
   match listing with
   | None => Ok None
   | Some listing =>
       match amount_of listing "price" with
       | None => Ok None
       | Some amount =>
           current_price <- float_of_pyval amount ;;
           match amount_of listing "saving_basis" with
           | None => Ok None
           | Some basis =>
               original_price <- float_of_pyval basis ;;
               discount <- float_percent current_price original_price ;;
               if 15 <=? discount then
                 let title := item_title item in
                 let asin := item_asin item in
                 let image_url := item_image_url item in
                 Ok (Some (Deal asin title current_price original_price
                                discount (deal_url asin) image_url false))
               else Ok None
           end
       end
   end)%result.

(** One turn of [for item in response.items]: the [try] whose body ends
    in [deals.append] and whose handler logs and continues. The handler
    formats [getattr(item, 'asin', 'unknown')] and the exception, which
    does not raise on plain data. *)
Definition process_item (extract : pyval -> result (option (deal float)))
           (deals : list (deal float)) (item : pyval)
  : result (list (deal float)) :=
  try_except
    (found <- extract item ;;
     match found with
     | Some d => Ok (deals ++ [d])
     | None => Ok deals
     end)%result
    (fun _ => Ok deals).

Fixpoint process_items (extract : pyval -> result (option (deal float)))
         (items : list pyval) (deals : list (deal float))
  : result (list (deal float)) :=
  match items with
  | [] => Ok deals
  | item :: rest =>
      (deals <- process_item extract deals item ;;
       process_items extract rest deals)%result
  end.

Definition response_of (r : option pyval) : pyval :=
  match r with
  | Some v => v
  | None => PNone
  end.

(** [self.client.search_items] *)
Definition search_items : M Client :=
  c <~ get (fun st => client (self st)) ;;
  match c with
  | Some c => ret c
  | None => raise (AttributeError "search_items")
  end.

(** The search of one keyword and the items to go through, both inside
    the caller's [try]; [None] when the response has no items. *)
Definition search (keyword : string) (min_price_cents : Z)
           (min_discount : Z) : M (option (list pyval)) :=
  search_items <~ search_items ;;
  response <~ _throttled_request
                (search_items
                   {| keywords := keyword;
                      item_count := 10;
                      min_price := min_price_cents;
                      min_saving_percent := min_discount |}) ;;
  match attr (response_of response) "items" with
  | None => ret None
  | Some items =>
      if negb (truthy items) then ret None
      else (l <~ lift (iterate items) ;; ret (Some l))
  end.

Definition find_deals_by_keyword (keyword : string) (min_discount : Z)
           (min_price : float) : M (list (deal float)) :=
  try_catch
    (min_price_cents <~ lift (cents_of min_price) ;;
     items <~ search keyword min_price_cents min_discount ;;
     match items with
     | None => ret []
     | Some items =>
         deals <~ lift (process_items (extract_deal min_discount) items []) ;;
         ret (sort_desc discount_percent deals)
     end)
    (fun _ => ret []).

(** The [for keyword in keywords] loop of [find_best_deals]. *)
Fixpoint sweep (keywords : list string) (min_discount : Z)
         (min_price : float) (deals : list (deal float))
  : M (list (deal float)) :=
  match keywords with
  | [] => ret deals
  | keyword :: rest =>
      deals <~ try_catch
                 (min_price_cents <~ lift (cents_of min_price) ;;
                  items <~ search keyword min_price_cents min_discount ;;
                  match items with
                  | None => ret deals
                  | Some items =>
                      lift (process_items (extract_deal min_discount)
                                          items deals)
                  end)
                 (fun _ => ret deals) ;;
      sweep rest min_discount min_price deals
  end.

Definition snack_keywords : list string :=
  ["snack box"; "rice krispies treats"; "granola bars"; "chips snacks";
   "cookies snacks"; "trail mix"]%string.

Definition find_best_deals (num_deals : Z) (min_discount : Z)
           (min_price : float) : M (list (deal float)) :=
  c <~ get (fun st => client (self st)) ;;
  match c with
  | None => ret []
  | Some _ =>
      deals <~ sweep snack_keywords min_discount min_price [] ;;
      ret (rank discount_percent num_deals deals)
  end.

(** *** [deal_fetcher.fetch_daily_deals] *)

Definition fetcher_keywords : list string :=
  snack_keywords ++
  ["popcorn snacks"; "pretzels snacks"; "crackers snacks";
   "fruit snacks"]%string.

Record tally := Tally {
  db : database;
  deals_found : Z;
  deals_saved : Z }.

(** [for deal in deals: if db.save_deal(deal): deals_saved += 1];
    [save_deal] catches its own exceptions. *)
Definition save_all (deals : list (deal float)) (t : tally) : tally :=
  fold_left
    (fun t d =>
       let (saved, db') := save_deal d (db t) in
       {| db := db';
          deals_found := deals_found t;
          deals_saved := if saved then deals_saved t + 1 else deals_saved t |})
    deals t.

Definition save_found (deals : list (deal float)) (t : tally) : tally :=
  match deals with
  | [] => t
  | _ =>
      save_all deals
        {| db := db t;
           deals_found := deals_found t + Z.of_nat (List.length deals);
           deals_saved := deals_saved t |}
  end.

(** The [for keyword in keywords] loop of [fetch_daily_deals]. *)
Fixpoint fetch_sweep (keywords : list string) (t : tally) : M tally :=
  match keywords with
  | [] => ret t
  | keyword :: rest =>
      t <~ try_catch
             (items <~ search keyword 500 15 ;;
              match items with
              | None => ret t
              | Some items =>
                  deals <~ lift (process_items extract_deal_fetcher items []) ;;
                  let t := save_found deals t in
                  sleep Cooldown 45 ;;;
                  ret t
              end)
             (fun _ => sleep Cooldown 180 ;;; ret t) ;;
      fetch_sweep rest t
  end.

(** [fetch_daily_deals], given what [DealsDatabase()] and the
    [_setup_client] of [AmazonDealFinder()] return or raise; the result is the returned
    boolean, with the tally of the sweep when there was one. *)
Definition fetch_daily_deals (new_db : result database)
           (new_client : result Client) (w : world)
  : option (bool * option tally * world) :=
  match new_db, new_client with
  | Ok db0, Ok c =>
      let finder := init c in
      let finder := {| client := client finder;
                       last_request_time := last_request_time finder;
                       min_request_interval := 15;
                       max_retries := max_retries finder |} in
      match fetch_sweep fetcher_keywords
              {| db := db0; deals_found := 0; deals_saved := 0 |}
              {| self := finder; env := w |} with
      | None => None
      | Some (Ok t, st) => Some (true, Some t, env st)
      | Some (Raise _, st) => Some (false, None, env st)
      end
  | _, _ => Some (false, None, w)
  end.
End Finder.

(** Four deals with the discounts 10, 30, 30 and 5, in discovery order. *)
Definition sample_deal (name : string) (discount : Z) : deal unit :=
  Deal (PStr name) (PStr "Unknown Product") tt tt discount "" PNone false.

Definition sample_deals : list (deal unit) :=
  [sample_deal "first" 10; sample_deal "second" 30; sample_deal "third" 30;
   sample_deal "fourth" 5].

(** What an item adds to the deals of its response: the deal extracted
    from it, nothing when the extraction skips it or raises. *)
Definition contribution {F} (extract : pyval -> result (option (deal F)))
           (item : pyval) : list (deal F) :=
  match extract item with
  | Ok (Some d) => [d]
  | Ok None => []
  | Raise _ => []
  end.

(** An item whose [offers.listings] is the number 5: truthy, and not
    subscriptable. *)
Definition malformed_item : pyval :=
  PObj [("asin", PStr "B000000000");
        ("offers", PObj [("listings", PNum (Fin 5 0))])]%string.

(** An item on offer at 8.00 with no savings basis. *)
Definition undiscounted_item : pyval :=
  PObj [("asin", PStr "B000000001");
        ("offers",
         PObj [("listings",
                PList [PObj [("price", PObj [("amount", PNum (Fin 80 (-1)))]);
                             ("saving_basis", PNone)]])])]%string.

(** ** The sweeps, keyword by keyword

    The reading of the sweeps that the properties compare the loops with:
    each keyword is searched in the state its predecessors left, the deals
    found under it are those of the items of its response, and a keyword
    whose search raises yields no deals and lets the sweep go on. *)
Section SweepByKeyword.
Context {R : Runtime}.

(** The search of one keyword as [find_deals_by_keyword] and
    [find_best_deals] start it: the conversion of the minimum price, then
    the throttled call. *)
Definition priced_search (keyword : string) (min_discount : Z)
           (min_price : float) : M (option (list pyval)) :=
  min_price_cents <~ lift (cents_of min_price) ;;
  search keyword min_price_cents min_discount.

Definition found_by (keyword : string) (min_discount : Z)
           (min_price : float) (st : state)
  : option (list (deal float) * state) :=
  match priced_search keyword min_discount min_price st with
  | None => None
  | Some (Ok (Some items), st') =>
      Some (flat_map (contribution (extract_deal min_discount)) items, st')
  | Some (Ok None, st') => Some ([], st')
  | Some (Raise _, st') => Some ([], st')
  end.

Fixpoint found_in_sweep (keywords : list string) (min_discount : Z)
         (min_price : float) (st : state)
  : option (list (deal float) * state) :=
  match keywords with
  | [] => Some ([], st)
  | keyword :: rest =>
      match found_by keyword min_discount min_price st with
      | None => None
      | Some (found, st1) =>
          match found_in_sweep rest min_discount min_price st1 with
          | None => None
          | Some (more, st2) => Some (found ++ more, st2)
          end
      end
  end.

(** The state after a cooldown sleep of the fetcher. *)
Definition after_cooldown (seconds : Q) (st : state) : state :=
  {| self := self st;
     env := {| clock := (clock (env st) + seconds)%Q;
               dispatched := dispatched (env st);
               trace := Cooldown seconds :: trace (env st) |} |}.

Definition fetched_by (keyword : string) (st : state)
  : option (list (deal float) * state) :=
  match search keyword 500 15 st with
  | None => None
  | Some (Ok (Some items), st') =>
      Some (flat_map (contribution extract_deal_fetcher) items,
            after_cooldown 45 st')
  | Some (Ok None, st') => Some ([], st')
  | Some (Raise _, st') => Some ([], after_cooldown 180 st')
  end.

Fixpoint fetched_in_sweep (keywords : list string) (st : state)
  : option (list (list (deal float)) * state) :=
  match keywords with
  | [] => Some ([], st)
  | keyword :: rest =>
      match fetched_by keyword st with
      | None => None
      | Some (found, st1) =>
          match fetched_in_sweep rest st1 with
          | None => None
          | Some (more, st2) => Some (found :: more, st2)
          end
      end
  end.

(** The tally after the deals of each keyword have gone to the
    database. *)
Definition saved (founds : list (list (deal float))) (t : tally) : tally :=
  fold_left (fun t found => save_found found t) founds t.

(** What the database holds once [save_deal] has been given the deals one
    after the other, and how many of them it reported as new. *)
Definition stored (deals : list (deal float)) (rows : database) : database :=
  fold_left (fun rows d => snd (save_deal d rows)) deals rows.

Fixpoint newly_saved (deals : list (deal float)) (rows : database) : Z :=
  match deals with
  | [] => 0
  | d :: rest =>
      (if fst (save_deal d rows) then 1 else 0)
      + newly_saved rest (snd (save_deal d rows))
  end.
End SweepByKeyword.

(** ** A runtime and a catalogue for the examples

    Floats stand for the decimals they print as, [str] is defined on
    strings only, nothing parses as a [Decimal], and the database keeps
    every deal it is given. *)
Definition decimal_runtime : Runtime :=
  {| float := Decimal;
     float_of_decimal := fun d => Ok d;
     float_of_pyval :=
       fun v => match v with
                | PNum d => Ok d
                | _ => Raise (TypeError "float() argument must be a number")
                end;
     float_percent := calculate_discount;
     cents_of := fun d => (p <- mul d (of_int 100) ;; to_int p)%result;
     parse_decimal := fun _ => None;
     py_str := fun v => match v with PStr s => s | _ => EmptyString end;
     associate_tag := Some "goinup-20"%string;
     database := list (deal Decimal);
     save_deal := fun d rows => (true, rows ++ [d]) |}.

(** An item on offer at 8.00, down from 10.00. *)
Definition discounted_item : pyval :=
  PObj [("asin", PStr "B000000002");
        ("offers",
         PObj [("listings",
                PList [PObj [("price", PObj [("amount", PNum (Fin 80 (-1)))]);
                             ("saving_basis",
                              PObj [("amount", PNum (Fin 100 (-1)))])]])])]%string.

(** A search collaborator that fails on "chips snacks", finds nothing
    under "popcorn snacks" and returns [discounted_item] otherwise. *)
Definition sample_client : Client :=
  fun args _ =>
    if String.eqb (keywords args) "chips snacks" then
      Attempt (Raise (Exn "ApiException" "InternalFailure")) 1
    else if String.eqb (keywords args) "popcorn snacks" then
      Attempt (Ok (PObj [("items", PNone)]%string)) 1
    else
      Attempt (Ok (PObj [("items", PList [discounted_item])]%string)) 1.

Definition sample_state : state :=
  {| self := init sample_client;
     env := {| clock := 1000; dispatched := 0; trace := [] |} |}.

(** ** The backoff ladder and the time a call takes *)

(** The [k] backoff sleeps that follow [retries] earlier ones:
    [30 * 2^(retries+1)], ..., [30 * 2^(retries+k)] seconds. *)
Definition ladder_from (retries : Z) (k : nat) : list Q :=
  map (fun i => inject_Z (30 * 2 ^ (retries + Z.of_nat i))) (seq 1 k).

Fixpoint sumQ (l : list Q) : Q :=
  match l with
  | [] => 0
  | x :: rest => (x + sumQ rest)%Q
  end.

(** The durations handed to [time.sleep], whatever the sleep is for,
    newest first. *)
Fixpoint sleeps (evs : list event) : list Q :=
  match evs with
  | [] => []
  | Throttle d :: rest => d :: sleeps rest
  | Backoff d :: rest => d :: sleeps rest
  | Cooldown d :: rest => d :: sleeps rest
  | Dispatch _ :: rest => sleeps rest
  end.

(** The time the [n] dispatches from number [first] on take. *)
Fixpoint latencies {A} (func : callable A) (first : nat) (n : nat) : Q :=
  match n with
  | O => 0
  | S n' => (latency (func first) + latencies func (S first) n')%Q
  end.

(** What [_throttled_request] returns when the wrapped callable's last
    attempt has the given outcome. *)
Definition returned {A} (final : result A) : result (option A) :=
  match final with
  | Ok v => Ok (Some v)
  | Raise e => Raise e
  end.

(** The value at the end of a chain of attributes, [v.a.b.c], when every
    attribute of the chain is there. *)
Fixpoint path (v : pyval) (names : list string) : option pyval :=
  match names with
  | [] => Some v
  | name :: rest =>
      match attr v name with
      | Some v' => path v' rest
      | None => None
      end
  end.

(** An item on offer at 8.00, down from 10.00, with a title and an
    image. *)
Definition described_item : pyval :=
  PObj [("asin", PStr "B000000004");
        ("item_info",
         PObj [("title", PObj [("display_value", PStr "Snack Box")])]);
        ("images",
         PObj [("primary",
                PObj [("medium",
                       PObj [("url", PStr "https://m.media-amazon.com/1.jpg")])])]);
        ("offers",
         PObj [("listings",
                PList [PObj [("price", PObj [("amount", PNum (Fin 80 (-1)))]);
                             ("saving_basis",
                              PObj [("amount", PNum (Fin 100 (-1)))])]])])]%string.

(** A finite number, as opposed to an infinity or a NaN. *)
Definition is_finite (d : Decimal) : bool :=
  match d with
  | Fin _ _ => true
  | _ => false
  end.

(** ** What calls through the throttler leave of the finder

    [within n st st']: from [st] to [st'] the client and [max_retries] are
    the same, [min_request_interval] has not decreased, and at most
    [n * (max_retries + 1)] dispatches were made. *)
Definition within (n : nat) (st st' : state) : Prop :=
  client (self st') = client (self st) /\
  max_retries (self st') = max_retries (self st) /\
  (min_request_interval (self st) <= min_request_interval (self st'))%Q /\
  (dispatched (env st) <= dispatched (env st'))%nat /\
  (dispatched (env st') <=
   dispatched (env st) + n * Z.to_nat (max_retries (self st) + 1))%nat.

(** The cooldown sleep that ends the turn of a keyword in the sweep of
    [fetch_daily_deals], by what its search gave: 45 seconds after a
    response with items, 3 minutes after a failure, none after a response
    without items (its [continue] skips the sleep). *)
Definition cooldown_of (r : result (option (list pyval))) : list Q :=
  match r with
  | Ok (Some _) => [45%Q]
  | Ok None => []
  | Raise _ => [180%Q]
  end.

(** ** [bluesky_post_test.find_single_deal]

    The test script's search for one deal to post: the keywords are tried
    in turn, with the request and the item loop of the fetcher, until one
    of them yields a deal. *)
Section SingleDeal.
Context {R : Runtime}.

Definition single_keywords : list string :=
  ["rice krispies treats"; "snack box"; "granola bars";
   "chips snacks"]%string.

(** [deals[0]] *)
Definition first_of {A} (l : list A) : result A :=
  match l with
  | x :: _ => Ok x
  | [] => Raise IndexError
  end.

(** The [for keyword in keywords] loop of [find_single_deal]; [Some d] is
    its [return deals[0]], [None] the [return None] after the loop. *)
Fixpoint single_sweep (keywords : list string) : M (option (deal float)) :=
  match keywords with
  | [] => ret None
  | keyword :: rest =>
      found <~ try_catch
                 (items <~ search keyword 500 15 ;;
                  match items with
                  | None => ret None
                  | Some items =>
                      deals <~ lift (process_items extract_deal_fetcher
                                                   items []) ;;
                      match deals with
                      | [] => ret None
                      | _ :: _ =>
                          best <~ lift (first_of
                                          (sort_desc discount_percent deals)) ;;
                          ret (Some best)
                      end
                  end)
                 (fun _ => ret None) ;;
      match found with
      | Some best => ret (Some best)
      | None => single_sweep rest
      end
  end.

(** [find_single_deal], given what the [_setup_client] of
    [AmazonDealFinder()] returns or raises. *)
Definition find_single_deal (new_client : result Client) (w : world)
  : option (option (deal float) * world) :=
  match new_client with
  | Raise _ => Some (None, w)
  | Ok c =>
      match single_sweep single_keywords {| self := init c; env := w |} with
      | None => None
      | Some (Ok found, st) => Some (found, env st)
      | Some (Raise _, st) => Some (None, env st)
      end
  end.

(** The deals of the items that the search of one keyword returns, none
    when it raises or returns no items. *)
Definition searched_by (keyword : string) (st : state)
  : option (list (deal float) * state) :=
  match search keyword 500 15 st with
  | None => None
  | Some (Ok (Some items), st') =>
      Some (flat_map (contribution extract_deal_fetcher) items, st')
  | Some (Ok None, st') => Some ([], st')
  | Some (Raise _, st') => Some ([], st')
  end.
End SingleDeal.

(** ** [AmazonDealFinder._setup_client], the constructor and the
    module-level [find_best_deals]

    The environment, the constructor of the API client and [str.upper]
    are taken as given. *)
Section SetupClient.
Variable getenv : string -> option string.
Variable AmazonApi :
  option string -> option string -> option string -> string -> result Client.
Variable upper : string -> string.

Definition required_vars : list string :=
  ["AMAZON_ACCESS_KEY"; "AMAZON_SECRET_KEY"; "ASSOCIATE_TAG"; "REGION"]%string.

(** [not os.getenv(var)]: the variable is unset or empty. *)
Definition unset (var : string) : bool :=
  match getenv var with
  | None => true
  | Some EmptyString => true
  | Some (String _ _) => false
  end.

Definition missing_vars : list string := filter unset required_vars.

(** [sep.join(l)] *)
Fixpoint join (sep : string) (l : list string) : string :=
  match l with
  | [] => EmptyString
  | x :: rest =>
      match rest with
      | [] => x
      | _ :: _ => x ++ sep ++ join sep rest
      end
  end.

(** [s.split('-')[0]] *)
Fixpoint before_dash (s : string) : string :=
  match s with
  | EmptyString => EmptyString
  | String c rest =>
      if Ascii.eqb c "-" then EmptyString else String c (before_dash rest)
  end.

(** [os.getenv(var, default)] *)
Definition getenv_or (var default : string) : string :=
  match getenv var with
  | Some value => value
  | None => default
  end.

Definition _setup_client : result Client :=
  try_except
    (match missing_vars with
     | _ :: _ =>
         Raise (Exn "ValueError"
                    ("Missing required environment variables: "
                     ++ join ", " missing_vars))
     | [] =>
         let region := getenv_or "REGION" "us-east-1" in
         let country_code := upper (before_dash region) in
         AmazonApi (getenv "AMAZON_ACCESS_KEY") (getenv "AMAZON_SECRET_KEY")
                   (getenv "ASSOCIATE_TAG") country_code
     end)
    (fun e => Raise e).

(** [AmazonDealFinder()] *)
Definition new_finder : result AmazonDealFinder :=
  (c <- _setup_client ;; Ok (init c))%result.

(** The module-level [find_best_deals]: a new finder for each call, and
    its method. *)
Definition module_find_best_deals {R : Runtime} (num_deals min_discount : Z)
           (min_price : float) (w : world)
  : option (result (list (deal float)) * world) :=
  match new_finder with
  | Raise e => Some (Raise e, w)
  | Ok finder =>
      match find_best_deals num_deals min_discount min_price
                            {| self := finder; env := w |} with
      | None => None
      | Some (r, st) => Some (r, env st)
      end
  end.
End SetupClient.

(** ** [bluesky_poster]: the text of a post and its link facet

    A [str] is the list of its code points; the deal is the dictionary
    the poster reads, with prices in any number type that [:.2f]
    formats. *)
Module Poster.

Definition str := list N.

Definition of_ascii (s : string) : str :=
  map N_of_ascii (list_ascii_of_string s).

(** [str(n)] of an [int], as an f-string prints it. *)
Definition str_of_int (n : Z) : str :=
  of_ascii (NilZero.string_of_int (Z.to_int n)).

Definition newline : str := [10%N].

(** [needle] is found in [hay] at index 0. *)
Fixpoint starts_with (needle hay : str) : bool :=
  match needle, hay with
  | [], _ => true
  | _ :: _, [] => false
  | a :: needle', b :: hay' => N.eqb a b && starts_with needle' hay'
  end.

(** [hay.index(needle)]; [None] is its [ValueError]. *)
Fixpoint index (needle hay : str) : option nat :=
  if starts_with needle hay then Some O
  else match hay with
       | [] => None
       | _ :: rest => option_map S (index needle rest)
       end.

(** [s[i:j]] for [0 <= i <= j]. *)
Definition slice (s : str) (i j : nat) : str := firstn (j - i) (skipn i s).

Record facet := Facet {
  byteStart : nat;
  byteEnd : nat;
  uri : str }.

Definition create_link_facet (text url : str) : list facet :=
  match index url text with
  | Some start =>
      let end_ := (start + List.length url)%nat in
      [{| byteStart := start; byteEnd := end_; uri := url |}]
  | None => []
  end.

(** The title as the post shows it. *)
Definition shown_title (title : str) : str :=
  if (50 <? List.length title)%nat then firstn 47 title ++ of_ascii "..."
  else title.

(** The bytes that the UTF-8 encoding of a text takes. *)
Definition utf8_width (c : N) : nat :=
  if (c <? 128)%N then 1
  else if (c <? 2048)%N then 2
  else if (c <? 65536)%N then 3
  else 4.

Definition utf8_length (s : str) : nat :=
  fold_right (fun c n => (utf8_width c + n)%nat) O s.

Section Format.
Variable number : Type.
Variable two_decimals : number -> str.       (* [f"{x:.2f}"] *)
Variable blob : Type.
Variable upload : str -> option blob.
  (* the download of the image and [client.upload_blob]: the blob, or
     nothing when a step fails or raises *)

Record deal := Deal {
  title : str;
  price : number;
  original_price : number;
  discount_percent : Z;
  url : str;
  image_url : option str }.

Record post := Post {
  text : str;
  facets : list facet;
  embed : option (str * blob) }.         (* alt text and image *)

(** The four characters at both ends of the first line, as the source
    file has them. *)
Definition flames : str := [240%N; 376%N; 8221%N; 165%N].

Definition headline : str :=
  flames ++ of_ascii " PRICES GOIN UP SOON! " ++ flames ++ newline ++ newline.

(** The text from its first line to the space before the link. *)
Definition lead (d : deal) : str :=
  headline
  ++ of_ascii "**" ++ shown_title (title d) ++ of_ascii "**"
  ++ newline ++ newline
  ++ of_ascii "Now: " ++ (of_ascii "$" ++ two_decimals (price d))
  ++ of_ascii " (was " ++ (of_ascii "$" ++ two_decimals (original_price d))
  ++ of_ascii ")" ++ newline
  ++ str_of_int (discount_percent d) ++ of_ascii "% OFF!" ++ newline ++ newline
  ++ of_ascii "Grab it while it's hot! ".

Definition hashtags : str :=
  newline ++ newline ++ of_ascii "#GoinUPDeals #AmazonDeals #DealAlert".

Definition format_deal_post_rich (d : deal) : post :=
  let title := shown_title (title d) in
  let text := lead d ++ url d ++ hashtags in
  let facets := create_link_facet text (url d) in
  let embed :=
    match image_url d with
    | Some ((_ :: _) as image_url) =>
        match upload image_url with
        | Some b => Some (title, b)
        | None => None
        end
    | _ => None
    end in
  {| text := text; facets := facets; embed := embed |}.
End Format.

Arguments title {number} d.
Arguments price {number} d.
Arguments original_price {number} d.
Arguments discount_percent {number} d.
Arguments url {number} d.
Arguments image_url {number} d.
Arguments text {blob} p.
Arguments facets {blob} p.
Arguments embed {blob} p.
End Poster.

(** ** [bluesky_post]: the alternate poster

    The same first lines as in [bluesky_poster], a "View Deal" label in
    place of the URL, one facet in any case, and a text cut to 300 code
    points after the facet has been computed. *)
Module Post.

Definition create_link_facet (text link_label url : Poster.str)
  : Poster.facet :=
  match Poster.index link_label text with
  | Some start =>
      let end_ := (start + List.length link_label)%nat in
      {| Poster.byteStart := start; Poster.byteEnd := end_;
         Poster.uri := url |}
  | None =>
      {| Poster.byteStart := O; Poster.byteEnd := O; Poster.uri := url |}
  end.

Definition link_label : Poster.str := Poster.of_ascii "View Deal".

Definition max_length : nat := 300.

Section Format.
Variable number : Type.
Variable two_decimals : number -> Poster.str.
Variable blob : Type.
Variable upload : Poster.str -> option blob.

Record record := Record_ {
  text : Poster.str;
  facets : list Poster.facet;
  embed : option blob }.

(** The text before it is cut. *)
Definition full_text (d : Poster.deal number) : Poster.str :=
  Poster.lead number two_decimals d ++ link_label ++ Poster.hashtags.

Definition format_deal_post_rich (d : Poster.deal number) : record :=
  let text := full_text d in
  let facets := [create_link_facet text link_label (Poster.url d)] in
  let embed :=
    match Poster.image_url d with
    | Some ((_ :: _) as image_url) => upload image_url
    | _ => None
    end in
  let text :=
    if (max_length <? List.length text)%nat
    then firstn (max_length - 3) text ++ Poster.of_ascii "..."
    else text in
  {| text := text; facets := facets; embed := embed |}.
End Format.

Arguments text {blob} r.
Arguments facets {blob} r.
Arguments embed {blob} r.
End Post.

(** * Properties *)

(** ** Decimal arithmetic *)

Lemma pow10_pos (k : Z) : 0 <= k -> 0 < 10 ^ k.
Proof. intros; apply Z.pow_pos_nonneg; lia. Qed.

Lemma ndigits_aux_spec (fuel : nat) :
  forall n, 1 <= n < 2 ^ (Z.of_nat fuel + 1) ->
            1 <= ndigits_aux fuel n /\
            10 ^ (ndigits_aux fuel n - 1) <= n < 10 ^ (ndigits_aux fuel n).
Proof.
  induction fuel as [|f IH]; intros n Hn.
  - simpl in *. change (2 ^ 1) with 2 in Hn. lia.
  - cbn [ndigits_aux]. destruct (Z.ltb_spec n 10) as [Hlt|Hge].
    + simpl. lia.
    + assert (Hq : 1 <= n / 10 < 2 ^ (Z.of_nat f + 1)).
      { split.
        - apply Z.div_le_lower_bound; lia.
        - apply Z.div_lt_upper_bound; [lia|].
          replace (Z.of_nat (S f) + 1) with (Z.succ (Z.of_nat f + 1)) in Hn by lia.
          rewrite Z.pow_succ_r in Hn by lia. lia. }
      destruct (IH _ Hq) as (H1 & H2 & H3).
      set (d := ndigits_aux f (n / 10)) in *.
      split; [lia|].
      replace (1 + d - 1) with (Z.succ (d - 1)) by lia.
      replace (1 + d) with (Z.succ d) by lia.
      rewrite !Z.pow_succ_r by lia.
      pose proof (Z.div_mod n 10 ltac:(lia)) as Hdm.
      pose proof (Z.mod_pos_bound n 10 ltac:(lia)) as Hmb.
      lia.
Qed.

Lemma ndigits_spec (n : Z) :
  1 <= n -> 1 <= ndigits n /\ 10 ^ (ndigits n - 1) <= n < 10 ^ (ndigits n).
Proof.
  intros Hn. unfold ndigits. apply ndigits_aux_spec.
  rewrite Z2Nat.id by apply Z.log2_nonneg.
  split; [lia|].
  replace (Z.log2 n + 1) with (Z.succ (Z.log2 n)) by lia.
  apply Z.log2_spec. lia.
Qed.

Lemma div_half_even_spec (num den : Z) :
  0 <= num -> 0 < den ->
  0 <= div_half_even num den /\
  2 * Z.abs (div_half_even num den * den - num) <= den.
Proof.
  intros Hn Hd. unfold div_half_even.
  pose proof (Z.div_mod num den ltac:(lia)) as Hdm.
  pose proof (Z.mod_pos_bound num den Hd) as Hmb.
  assert (0 <= num / den) by (apply Z.div_pos; lia).
  destruct (Z.compare_spec (2 * (num mod den)) den) as [E|E|E];
    [destruct (Z.even (num / den))|..]; split; nia.
Qed.

Lemma div_half_even_nonneg (num den : Z) :
  0 <= num -> 0 < den -> 0 <= div_half_even num den.
Proof. intros; now apply div_half_even_spec. Qed.

Lemma div_half_even_exact (k den : Z) :
  0 <= k -> 0 < den -> div_half_even (k * den) den = k.
Proof.
  intros Hk Hd. unfold div_half_even.
  rewrite Z.div_mul, Z.mod_mul by lia.
  change (2 * 0) with 0. now destruct (Z.compare_spec 0 den); try lia.
Qed.

Lemma scale_div_nonneg (num den s : Z) :
  0 <= num -> 0 < den -> 0 <= scale_div num den s.
Proof.
  intros Hn Hd. unfold scale_div. destruct (Z.leb_spec 0 s).
  - apply div_half_even_nonneg; [|lia]. pose proof (pow10_pos s); nia.
  - apply div_half_even_nonneg; [lia|]. pose proof (pow10_pos (- s)); nia.
Qed.

Lemma fix_nonneg (c e : Z) : 0 <= c -> result_all nonneg (fix_ c e).
Proof.
  intros Hc. unfold fix_.
  destruct (Z.eqb_spec c 0); [simpl; lia|].
  destruct (Z.ltb_spec e (Z.max (ndigits (Z.abs c) + e - prec) Etiny)).
  - destruct (Z.ltb_spec Emax
      (ndigits (div_half_even (Z.abs c)
         (10 ^ (Z.max (ndigits (Z.abs c) + e - prec) Etiny - e))) +
       Z.max (ndigits (Z.abs c) + e - prec) Etiny - 1)); simpl; [trivial|].
    destruct (Z.ltb_spec c 0); [lia|]. simpl.
    apply div_half_even_nonneg; [lia|]. apply pow10_pos; lia.
  - destruct (Emax <? ndigits (Z.abs c) + e - 1); simpl; [trivial|lia].
Qed.

Lemma round_ratio_nonneg (num den : Z) :
  0 <= num -> 0 < den -> result_all nonneg (round_ratio false num den).
Proof.
  intros Hn Hd. unfold round_ratio.
  match goal with |- context [if ?b then _ else _] => destruct b end;
    simpl; [trivial|].
  now apply scale_div_nonneg.
Qed.

Lemma le_zero_fin (c e : Z) : le (Fin c e) (of_int 0) = Ok (c <=? 0).
Proof.
  unfold le, of_int, cmp_fin. f_equal.
  assert (0 < 10 ^ (e - Z.min e 0)) by (apply pow10_pos; lia).
  rewrite Z.mul_0_l.
  destruct (Z.compare_spec (c * 10 ^ (e - Z.min e 0)) 0);
    destruct (Z.leb_spec c 0); try reflexivity; nia.
Qed.

Lemma le_zero_false_positive (d : Decimal) :
  le d (of_int 0) = Ok false -> positive d.
Proof.
  destruct d as [c e|[|]|s].
  - rewrite le_zero_fin. intros [= H]. simpl. apply Z.leb_gt in H. exact H.
  - simpl; discriminate.
  - intros _; reflexivity.
  - simpl; discriminate.
Qed.

Lemma sub_nonneg (a b : Decimal) :
  positive a -> positive b -> le b a = Ok true -> result_all nonneg (sub a b).
Proof.
  destruct a as [c1 e1|s1|s1], b as [c2 e2|s2|s2]; simpl;
    try contradiction; intros Ha Hb Hle.
  - apply fix_nonneg. injection Hle as Hle. unfold cmp_fin in Hle.
    rewrite Z.min_comm in Hle.
    destruct (Z.compare_spec (c2 * 10 ^ (e2 - Z.min e1 e2))
                             (c1 * 10 ^ (e1 - Z.min e1 e2)));
      try discriminate; lia.
  - subst; discriminate.
  - subst; reflexivity.
  - subst; simpl; trivial.
Qed.

Lemma div_nonneg (a b : Decimal) :
  nonneg a -> positive b -> result_all nonneg (div a b).
Proof.
  destruct a as [c1 e1|s1|[|]], b as [c2 e2|s2|s2]; simpl;
    try contradiction; intros Ha Hb; subst; simpl; trivial; try lia.
  - destruct (Z.eqb_spec c2 0); [lia|].
    destruct (Z.eqb_spec c1 0); [apply fix_nonneg; lia|].
    destruct (Z.ltb_spec c1 0); [lia|]. destruct (Z.ltb_spec c2 0); [lia|].
    simpl. destruct (Z.leb_spec 0 (e1 - e2)).
    + apply round_ratio_nonneg; [|lia]. pose proof (pow10_pos (e1 - e2)); nia.
    + apply round_ratio_nonneg; [lia|]. pose proof (pow10_pos (- (e1 - e2))); nia.
Qed.

Lemma mul_nonneg (a b : Decimal) :
  nonneg a -> positive b -> result_all nonneg (mul a b).
Proof.
  destruct a as [c1 e1|s1|[|]], b as [c2 e2|s2|s2]; simpl;
    try contradiction; intros Ha Hb; subst; simpl; trivial.
  - apply fix_nonneg. nia.
  - destruct (Z.eqb_spec c1 0); simpl; [trivial|].
    destruct (Z.ltb_spec c1 0); [lia|reflexivity].
  - destruct (Z.eqb_spec c2 0); simpl; [trivial|].
    destruct (Z.ltb_spec c2 0); [lia|reflexivity].
Qed.

Lemma to_int_nonneg (a : Decimal) :
  nonneg a -> result_all (fun z => 0 <= z) (to_int a).
Proof.
  destruct a as [c e|s|s]; simpl; trivial. intros Hc.
  destruct (Z.leb_spec 0 e).
  - pose proof (pow10_pos e); nia.
  - apply Z.quot_pos; [lia|]. pose proof (pow10_pos (- e)); lia.
Qed.

Lemma result_all_bind {A B} (P : A -> Prop) (Q : B -> Prop)
      (r : result A) (k : A -> result B) :
  result_all P r -> (forall a, P a -> result_all Q (k a)) ->
  result_all Q (rbind r k).
Proof. destruct r; simpl; auto. Qed.

(** ** The discount evaluator *)

Lemma calculate_discount_never_raises (current_price original_price : Decimal) :
  exists z, calculate_discount current_price original_price = Ok z.
Proof.
  unfold calculate_discount.
  destruct (calculate_discount_body current_price original_price); simpl; eauto.
Qed.

Lemma calculate_discount_body_guard (current_price original_price : Decimal) :
  le original_price (of_int 0) = Ok true \/ le current_price (of_int 0) = Ok true ->
  calculate_discount current_price original_price = Ok 0.
Proof.
  unfold calculate_discount, calculate_discount_body.
  intros [H|H].
  - rewrite H. reflexivity.
  - destruct (le original_price (of_int 0)) as [[|]|]; simpl; try reflexivity.
    rewrite H. reflexivity.
Qed.

Lemma calculate_discount_body_nonneg (current_price original_price : Decimal) :
  le current_price original_price = Ok true ->
  result_all (fun z => 0 <= z) (calculate_discount_body current_price original_price).
Proof.
  intros Hle. unfold calculate_discount_body.
  destruct (le original_price (of_int 0)) as [[|]|] eqn:Ho; simpl; try lia.
  destruct (le current_price (of_int 0)) as [[|]|] eqn:Hc; simpl; try lia.
  apply le_zero_false_positive in Ho, Hc.
  eapply result_all_bind; [now apply sub_nonneg|]. intros d Hd.
  eapply result_all_bind; [now apply div_nonneg|]. intros q Hq.
  eapply result_all_bind; [apply mul_nonneg; [exact Hq|simpl; lia]|].
  intros p Hp. now apply to_int_nonneg.
Qed.

(** C4, as the code has it: [calculate_discount] never raises, returns 0
    whenever [original_price <= 0] or [current_price <= 0], and returns a
    non-negative value whenever [current_price <= original_price]. *)
Theorem calculate_discount_safe (current_price original_price : Decimal) :
  exists z, calculate_discount current_price original_price = Ok z /\
    (le original_price (of_int 0) = Ok true \/
     le current_price (of_int 0) = Ok true -> z = 0) /\
    (le current_price original_price = Ok true -> 0 <= z).
Proof.
  destruct (calculate_discount_never_raises current_price original_price) as [z Hz].
  exists z. split; [exact Hz|]. split.
  - intros H. apply calculate_discount_body_guard in H. congruence.
  - intros H. apply calculate_discount_body_nonneg in H.
    unfold calculate_discount in Hz.
    destruct (calculate_discount_body current_price original_price);
      simpl in *; injection Hz as <-; [exact H|lia].
Qed.

(** C4 as stated fails: a current price above the original one can yield
    a negative discount, [calculate_discount(Decimal(12), Decimal(10)) == -20]. *)
Lemma calculate_discount_negative :
  ~ (forall current_price original_price,
        exists z, calculate_discount current_price original_price = Ok z /\ 0 <= z).
Proof.
  intros H. destruct (H (Fin 12 0) (Fin 10 0)) as (z & Hz & Hpos).
  vm_compute in Hz. injection Hz as <-. lia.
Qed.

(** *** Exactness of the discount on bounded prices *)

Lemma ndigits_le_of_lt (n k : Z) : 1 <= n < 10 ^ k -> ndigits n <= k.
Proof.
  intros Hn. destruct (ndigits_spec n ltac:(lia)) as (H1 & H2 & _).
  destruct (Z.lt_ge_cases k 0) as [Hk|Hk].
  - rewrite Z.pow_neg_r in Hn by exact Hk. lia.
  - assert (ndigits n - 1 < k); [|lia].
    apply (Z.pow_lt_mono_r_iff 10); lia.
Qed.

Lemma ndigits_mono (a b : Z) : 1 <= a <= b -> ndigits a <= ndigits b.
Proof.
  intros H. destruct (ndigits_spec a ltac:(lia)) as (Ha1 & Ha2 & _).
  destruct (ndigits_spec b ltac:(lia)) as (Hb1 & _ & Hb3).
  assert (ndigits a - 1 < ndigits b); [|lia].
  apply (Z.pow_lt_mono_r_iff 10); lia.
Qed.

Lemma fix_exact (c e : Z) :
  1 <= c -> ndigits c <= prec -> Etiny <= e -> ndigits c + e - 1 <= Emax ->
  fix_ c e = Ok (Fin c e).
Proof.
  intros Hc Hd He Hmax. unfold fix_.
  destruct (Z.eqb_spec c 0); [lia|].
  rewrite Z.abs_eq by lia.
  destruct (Z.ltb_spec e (Z.max (ndigits c + e - prec) Etiny)); [lia|].
  destruct (Z.ltb_spec Emax (ndigits c + e - 1)); [lia|reflexivity].
Qed.

Lemma adjusted_ratio_lt1 (num den : Z) :
  1 <= num < den ->
  adjusted_ratio num den <= -1 /\
  num * 10 ^ (- adjusted_ratio num den - 1) < den.
Proof.
  intros H. unfold adjusted_ratio.
  pose proof (ndigits_mono num den ltac:(lia)) as Hm.
  destruct (ndigits_spec num ltac:(lia)) as (Hn1 & Hn2 & Hn3).
  destruct (ndigits_spec den ltac:(lia)) as (Hd1 & Hd2 & Hd3).
  set (dn := ndigits num) in *. set (dd := ndigits den) in *.
  destruct (Z.leb_spec 0 (dn - dd)) as [Ha|Ha].
  - assert (Hz : dn - dd = 0) by lia. rewrite Hz. change (10 ^ 0) with 1.
    destruct (Z.leb_spec (den * 1) num); [lia|].
    split; [lia|]. change (- (0 - 1) - 1) with 0. change (10 ^ 0) with 1. lia.
  - destruct (Z.leb_spec den (num * 10 ^ (- (dn - dd)))) as [Ht|Ht].
    + split; [lia|].
      replace (- (dn - dd) - 1) with (dd - 1 - dn) by lia.
      assert (Hp : 10 ^ (dd - 1) = 10 ^ (dd - 1 - dn) * 10 ^ dn).
      { rewrite <- Z.pow_add_r by lia. f_equal; lia. }
      pose proof (pow10_pos (dd - 1 - dn) ltac:(lia)). nia.
    + split; [lia|].
      replace (- (dn - dd - 1) - 1) with (- (dn - dd)) by lia. exact Ht.
Qed.

Lemma round_ratio_lt1 (A O : Z) :
  1 <= A < O ->
  exists n u, round_ratio false A O = Ok (Fin n u) /\
              Etiny <= u <= -28 /\ 0 <= n <= 10 ^ 28 /\
              2 * Z.abs (n * O - A * 10 ^ (- u)) <= O.
Proof.
  intros H. unfold round_ratio.
  destruct (adjusted_ratio_lt1 A O H) as (Ha & Hlt).
  set (a := adjusted_ratio A O) in *.
  set (u := Z.max (a - prec + 1) Etiny).
  assert (Hu : Etiny <= u <= -28) by (unfold u, Etiny, Emin, prec in *; lia).
  assert (Hs : scale_div A O (- u) = div_half_even (A * 10 ^ (- u)) O).
  { unfold scale_div. destruct (Z.leb_spec 0 (- u)); [reflexivity|lia]. }
  rewrite Hs.
  assert (HS : 0 < 10 ^ (- u)) by (apply pow10_pos; lia).
  destruct (div_half_even_spec (A * 10 ^ (- u)) O ltac:(nia) ltac:(lia))
    as (Hn0 & Herr).
  set (n := div_half_even (A * 10 ^ (- u)) O) in *.
  assert (Hbound : A * 10 ^ (- u) < O * 10 ^ 28).
  { assert (Hle : 10 ^ (- u) <= 10 ^ (- a - 1) * 10 ^ 28).
    { rewrite <- Z.pow_add_r by lia. apply Z.pow_le_mono_r; [lia|].
      unfold u, prec. lia. }
    pose proof (pow10_pos 28 ltac:(lia)).
    pose proof (pow10_pos (- a - 1) ltac:(lia)). nia. }
  assert (Hn28 : n <= 10 ^ 28) by nia.
  assert (Hdig : ndigits n <= 29).
  { destruct (Z.eq_dec n 0) as [->|]; [vm_compute; discriminate|].
    apply ndigits_le_of_lt. split; [lia|].
    change (10 ^ 29) with (10 * 10 ^ 28). lia. }
  destruct (Z.ltb_spec Emax (ndigits n + u - 1)); [unfold Emax in *; lia|].
  exists n, u. simpl. auto.
Qed.

Lemma fix_mul100 (n u : Z) :
  1 <= n <= 10 ^ 28 -> Etiny <= u <= -28 ->
  exists m j, fix_ (n * 100) (u + 0) = Ok (Fin m (u + j)) /\
              0 <= j <= 3 /\ 0 <= m /\ m * 10 ^ j = n * 100.
Proof.
  intros Hn Hu. unfold fix_.
  destruct (Z.eqb_spec (n * 100) 0); [lia|].
  rewrite Z.abs_eq by lia.
  destruct (ndigits_spec (n * 100) ltac:(lia)) as (Hd1 & Hd2 & Hd3).
  assert (Hd31 : ndigits (n * 100) <= 31).
  { apply ndigits_le_of_lt. change (10 ^ 31) with (10 ^ 28 * 1000). lia. }
  set (d := ndigits (n * 100)) in *.
  destruct (Z.ltb_spec (n * 100) 0); [lia|]. cbn [signed].
  destruct (Z.ltb_spec (u + 0) (Z.max (d + (u + 0) - prec) Etiny)) as [Hr|Hr].
  - assert (Hmax : Z.max (d + (u + 0) - prec) Etiny = u + (d - 28))
      by (unfold prec in *; lia).
    rewrite Hmax.
    replace (u + (d - 28) - (u + 0)) with (d - 28) by lia.
    assert (Hcases : d = 29 \/ d = 30 \/ d = 31) by (unfold prec in *; lia).
    assert (Hm : exists m, 0 <= m /\ n * 100 = m * 10 ^ (d - 28)).
    { destruct Hcases as [E|[E|E]]; rewrite E in *.
      - exists (n * 10). change (10 ^ (29 - 28)) with 10. lia.
      - exists n. change (10 ^ (30 - 28)) with 100. lia.
      - exists (10 ^ 27). change (10 ^ (31 - 1)) with (10 ^ 28 * 100) in Hd2.
        assert (n = 10 ^ 28) as -> by lia.
        split; [apply Z.lt_le_incl, pow10_pos; lia|reflexivity]. }
    destruct Hm as (m & Hm0 & Hm).
    rewrite Hm, div_half_even_exact by (try apply pow10_pos; lia).
    assert (Hdm : ndigits m <= 31).
    { destruct (Z.eq_dec m 0) as [->|]; [vm_compute; discriminate|].
      apply ndigits_le_of_lt. split; [lia|].
      pose proof (pow10_pos (d - 28) ltac:(lia)).
      change (10 ^ 31) with (10 ^ 28 * 1000). nia. }
    destruct (Z.ltb_spec Emax (ndigits m + (u + (d - 28)) - 1));
      [unfold Emax in *; lia|].
    exists m, (d - 28). repeat split; try lia.
  - destruct (Z.ltb_spec Emax (d + (u + 0) - 1)); [unfold Emax in *; lia|].
    exists (n * 100), 0. rewrite Z.add_0_r. change (10 ^ 0) with 1.
    repeat split; lia.
Qed.

Lemma to_int_scaled (m j u : Z) :
  0 <= m -> 0 <= j -> u + j < 0 ->
  to_int (Fin m (u + j)) = Ok ((m * 10 ^ j) / 10 ^ (- u)).
Proof.
  intros Hm Hj Hu. unfold to_int.
  destruct (Z.leb_spec 0 (u + j)); [lia|]. f_equal.
  assert (Hp : 10 ^ (- u) = 10 ^ (- (u + j)) * 10 ^ j).
  { rewrite <- Z.pow_add_r by lia. f_equal; lia. }
  pose proof (pow10_pos j Hj). pose proof (pow10_pos (- (u + j)) ltac:(lia)).
  rewrite Hp, Z.quot_div_nonneg, Z.div_mul_cancel_r by lia. reflexivity.
Qed.

Lemma mul100_to_int (n u : Z) :
  0 <= n <= 10 ^ 28 -> Etiny <= u <= -28 ->
  rbind (mul (Fin n u) (of_int 100)) to_int = Ok ((n * 100) / 10 ^ (- u)).
Proof.
  intros Hn Hu. unfold mul, of_int.
  destruct (Z.eq_dec n 0) as [->|Hn0].
  - unfold fix_. simpl (0 * 100 =? 0). cbn [rbind to_int].
    assert (He : Z.min (Z.max (u + 0) Etiny) Emax = u)
      by (unfold Emax, Etiny, Emin, prec in *; lia).
    rewrite He. destruct (Z.leb_spec 0 u); [lia|]. reflexivity.
  - destruct (fix_mul100 n u ltac:(lia) Hu) as (m & j & -> & Hj & Hm & Hmul).
    cbn [rbind]. rewrite to_int_scaled by lia. now rewrite Hmul.
Qed.

Lemma floor_after_rounding (A O n S' : Z) :
  0 <= A -> 0 < O -> O < 2 * S' ->
  2 * Z.abs (n * O - A * (100 * S')) <= O ->
  (n * 100) / (100 * S') = (100 * A) / O.
Proof.
  intros HA HO HS Herr.
  pose proof (Z.div_mod (100 * A) O ltac:(lia)) as Hdm.
  pose proof (Z.mod_pos_bound (100 * A) O HO) as Hmb.
  set (k := (100 * A) / O) in *. set (r := (100 * A) mod O) in *.
  rewrite (Z.mul_comm 100 S'), Z.div_mul_cancel_r by lia.
  set (t := n - k * S').
  assert (Ht1 : 2 * O * t <= 2 * r * S' + O) by (unfold t; nia).
  assert (Ht2 : 2 * r * S' - O <= 2 * O * t) by (unfold t; nia).
  assert (Ht : 0 <= t < S') by nia.
  symmetry. apply (Z.div_unique n S' k t); [lia|unfold t; lia].
Qed.

Lemma calculate_discount_aligned (cc ce oc oe : Z) :
  let e := Z.min ce oe in
  let C := cc * 10 ^ (ce - e) in
  let O := oc * 10 ^ (oe - e) in
  0 < C -> C < O -> O < 10 ^ 26 -> Etiny <= e <= Emax - 25 ->
  calculate_discount (Fin cc ce) (Fin oc oe) = Ok ((100 * (O - C)) / O).
Proof.
  intros e C O HC HCO HO He.
  assert (Hpc : 0 < 10 ^ (ce - e)) by (apply pow10_pos; lia).
  assert (Hpo : 0 < 10 ^ (oe - e)) by (apply pow10_pos; lia).
  assert (Hcc : 0 < cc) by (unfold C in HC; nia).
  assert (Hoc : 0 < oc) by (unfold O in HCO; nia).
  unfold calculate_discount, calculate_discount_body.
  rewrite !le_zero_fin.
  destruct (Z.leb_spec oc 0); [lia|]. destruct (Z.leb_spec cc 0); [lia|].
  cbn [rbind]. unfold sub. rewrite (Z.min_comm oe ce).
  fold e. fold C. fold O.
  assert (Hd : ndigits (O - C) <= 26) by (apply ndigits_le_of_lt; lia).
  rewrite fix_exact by (unfold prec, Emax, Etiny, Emin in *; lia).
  cbn [rbind]. unfold div.
  destruct (Z.eqb_spec oc 0) as [?|_]; [lia|].
  destruct (Z.eqb_spec (O - C) 0) as [?|_]; [lia|].
  destruct (Z.ltb_spec (O - C) 0) as [?|_]; [lia|].
  destruct (Z.ltb_spec oc 0) as [?|_]; [lia|].
  cbn [xorb]. rewrite !Z.abs_eq by lia.
  assert (Hq : (if 0 <=? e - oe
                then round_ratio false ((O - C) * 10 ^ (e - oe)) oc
                else round_ratio false (O - C) (oc * 10 ^ (- (e - oe))))
               = round_ratio false (O - C) O).
  { destruct (Z.leb_spec 0 (e - oe)).
    - assert (E : oe - e = 0) by lia. unfold O. rewrite E.
      replace (e - oe) with 0 by lia. change (10 ^ 0) with 1.
      now rewrite !Z.mul_1_r.
    - unfold O. do 3 f_equal. lia. }
  rewrite Hq.
  destruct (round_ratio_lt1 (O - C) O ltac:(lia)) as (n & u & -> & Hu & Hn & Herr).
  cbn [rbind]. fold (rbind (mul (Fin n u) (of_int 100)) to_int).
  rewrite mul100_to_int by assumption. cbn [try_except]. f_equal.
  assert (HS : 10 ^ (- u) = 100 * 10 ^ (- u - 2)).
  { change 100 with (10 ^ 2). rewrite <- Z.pow_add_r by lia. f_equal; lia. }
  assert (HS' : 10 ^ 26 <= 10 ^ (- u - 2)) by (apply Z.pow_le_mono_r; lia).
  rewrite HS in *. apply floor_after_rounding; lia.
Qed.

Lemma value_aligned (c x e : Z) :
  (e <= x)%Z -> (value c x == inject_Z (c * 10 ^ (x - e)) * (10 # 1) ^ e)%Q.
Proof.
  intros He. unfold value.
  rewrite inject_Z_mult, Zpower_Qpower by lia.
  replace x with ((x - e) + e)%Z at 1 by lia.
  rewrite Qpower_plus by discriminate.
  change (inject_Z 10) with (10 # 1). ring.
Qed.

Lemma exact_discount_aligned (cc ce oc oe : Z) :
  let e := Z.min ce oe in
  let C := cc * 10 ^ (ce - e) in
  let O := oc * 10 ^ (oe - e) in
  0 < O -> exact_discount cc ce oc oe = (100 * (O - C)) / O.
Proof.
  intros e C O HO. unfold exact_discount.
  rewrite Zdiv_Qdiv. apply Qfloor_comp.
  rewrite (value_aligned oc oe e), (value_aligned cc ce e) by (unfold e; lia).
  fold C. fold O.
  assert (Ht : ~ ((10 # 1) ^ e == 0)%Q) by (apply Qpower_not_0; discriminate).
  assert (HO' : ~ (inject_Z O == 0)%Q).
  { change 0%Q with (inject_Z 0). rewrite inject_Z_injective. lia. }
  unfold Z.sub. rewrite inject_Z_mult, inject_Z_plus, inject_Z_opp.
  field. split; assumption.
Qed.

(** C5, as the code has it: for two finite prices with
    [original > current > 0] whose coefficients, aligned to their common
    exponent [e], stay below [10^26] (and [e] within the exponent range),
    [calculate_discount] is the exact integer floor of the percentage drop;
    the arithmetic is decimal, at the 28 significant digits of the default
    context. For instance [calculate_discount(8.00, 10.00) == 20]. *)
Theorem calculate_discount_exact_floor (cc ce oc oe : Z) :
  let e := Z.min ce oe in
  let C := cc * 10 ^ (ce - e) in
  let O := oc * 10 ^ (oe - e) in
  0 < C -> C < O -> O < 10 ^ 26 -> Etiny <= e <= Emax - 25 ->
  calculate_discount (Fin cc ce) (Fin oc oe) = Ok (exact_discount cc ce oc oe) /\
  calculate_discount (Fin 800 (-2)) (Fin 1000 (-2)) = Ok 20.
Proof.
  intros e C O HC HCO HO He. split; [|reflexivity].
  rewrite exact_discount_aligned by (fold e; fold O; lia).
  now apply calculate_discount_aligned.
Qed.

Lemma calculate_discount_exact_floor_witness :
  calculate_discount (Fin 1299 (-2)) (Fin 1999 (-2)) = Ok 35 /\
  exact_discount 1299 (-2) 1999 (-2) = 35.
Proof.
  assert (H := calculate_discount_exact_floor 1299 (-2) 1999 (-2)).
  cbv zeta in H.
  destruct H as [H _]; [reflexivity|reflexivity|reflexivity|split; discriminate|].
  split; [|reflexivity]. rewrite H. reflexivity.
Defined.

(** C5 as stated fails at prices of more than 28 digits: the subtraction is
    rounded to 28 digits, so
    [calculate_discount(Decimal('500000000000000000000000000001'), Decimal('1E+30'))]
    is 50 while the exact floor of the percentage drop is 49. *)
Lemma calculate_discount_not_exact :
  let current_price := Fin 500000000000000000000000000001 0 in
  let original_price := Fin 1 30 in
  le current_price original_price = Ok true /\
  le current_price (of_int 0) = Ok false /\
  calculate_discount current_price original_price = Ok 50 /\
  exact_discount 500000000000000000000000000001 0 1 30 = 49.
Proof. vm_compute. repeat split; reflexivity. Qed.

(** ** The request throttler *)

Lemma backoff_not_negative (retries : Z) :
  Qltb (inject_Z (30 * 2 ^ retries)) 0 = false.
Proof.
  unfold Qltb. apply negb_false_iff, Qle_bool_iff.
  change 0%Q with (inject_Z 0). rewrite <- Zle_Qle.
  pose proof (Z.pow_nonneg 2 retries ltac:(lia)). lia.
Qed.

Lemma retry_loop_unfold {A} (fuel : nat) (func : callable A) (retries : Z)
      (st : state) :
  retry_loop (S fuel) func retries st =
  if retries <=? max_retries (self st) then
    let a := func (dispatched (env st)) in
    match outcome a with
    | Ok v => Some (Ok (Some v), after_dispatch a st)
    | Raise e =>
        if is_rate_limit e then
          if retries + 1 >? max_retries (self st)
          then Some (Raise e, after_dispatch a st)
          else retry_loop fuel func (retries + 1)
                 (after_backoff (30 * 2 ^ (retries + 1)) (after_dispatch a st))
        else Some (Raise e, after_dispatch a st)
    end
  else Some (Ok None, st).
Proof.
  cbn [retry_loop]. destruct (retries <=? max_retries (self st)); [|reflexivity].
  pose proof (backoff_not_negative (retries + 1)) as Hw.
  remember (30 * 2 ^ (retries + 1)) as w eqn:Ew.
  unfold try_catch, bind, time, get, set_last_request_time, call, ret. cbn.
  destruct (outcome (func (dispatched (env st)))) as [v|e]; [reflexivity|].
  destruct (is_rate_limit e); [|reflexivity]. cbn.
  destruct (retries + 1 >? max_retries (self st)); [reflexivity|].
  unfold sleep. rewrite Hw. reflexivity.
Qed.

Lemma Qltb_lt (x y : Q) : Qltb x y = true <-> (x < y)%Q.
Proof.
  unfold Qltb. rewrite negb_true_iff, <- not_true_iff_false, Qle_bool_iff.
  split; [apply Qnot_le_lt|apply Qlt_not_le].
Qed.

Lemma Qltb_ge (x y : Q) : Qltb x y = false <-> (y <= x)%Q.
Proof. unfold Qltb. now rewrite negb_false_iff, Qle_bool_iff. Qed.

Lemma throttled_request_unfold {A} (func : callable A) (st : state) :
  _throttled_request func st =
  retry_loop (S (Z.to_nat (max_retries (self st) + 1))) func 0 (paced st).
Proof.
  unfold _throttled_request, paced, elapsed, bind, time, get. cbn [self env].
  destruct (Qltb (clock (env st) - last_request_time (self st))
                 (min_request_interval (self st))) eqn:E.
  - unfold sleep.
    assert (H : Qltb (min_request_interval (self st) -
                      (clock (env st) - last_request_time (self st))) 0 = false).
    { apply Qltb_ge. apply Qltb_lt in E. lra. }
    rewrite H. reflexivity.
  - reflexivity.
Qed.

Lemma backoff_sleeps_app (l1 l2 : list event) :
  backoff_sleeps (l1 ++ l2) = backoff_sleeps l1 ++ backoff_sleeps l2.
Proof.
  induction l1 as [|[]]; simpl; auto. now f_equal.
Qed.

Lemma throttle_sleeps_app (l1 l2 : list event) :
  throttle_sleeps (l1 ++ l2) = throttle_sleeps l1 ++ throttle_sleeps l2.
Proof.
  induction l1 as [|[]]; simpl; auto. now f_equal.
Qed.

Lemma dispatch_times_app (l1 l2 : list event) :
  dispatch_times (l1 ++ l2) = dispatch_times l1 ++ dispatch_times l2.
Proof.
  induction l1 as [|[]]; simpl; auto. now f_equal.
Qed.

Lemma paced_self (st : state) : self (paced st) = self st.
Proof. unfold paced. now destruct (Qltb _ _). Qed.

Lemma paced_dispatched (st : state) :
  dispatched (env (paced st)) = dispatched (env st).
Proof. unfold paced. now destruct (Qltb _ _). Qed.

Lemma paced_backoff_sleeps (st : state) :
  backoff_sleeps (history (env (paced st))) = backoff_sleeps (history (env st)).
Proof.
  unfold paced, history. destruct (Qltb _ _); [|reflexivity].
  cbn [after_throttle env trace rev]. rewrite backoff_sleeps_app. simpl.
  apply app_nil_r.
Qed.

(** C1: with [max_retries = 3], a callable that fails with a rate-limit
    error on four consecutive dispatches makes [_throttled_request] sleep
    60, 120 and 240 seconds, in that order, between the four dispatches,
    raise [min_request_interval] by 5.0 three times (15.0 in all, kept in
    the finder after the call) and propagate the fourth failure. *)
Theorem rate_limit_ladder {A} (func : callable A) (st : state)
        (e1 e2 e3 e4 : exn) :
  max_retries (self st) = 3 ->
  outcome (func (dispatched (env st))) = Raise e1 ->
  outcome (func (1 + dispatched (env st))%nat) = Raise e2 ->
  outcome (func (2 + dispatched (env st))%nat) = Raise e3 ->
  outcome (func (3 + dispatched (env st))%nat) = Raise e4 ->
  is_rate_limit e1 = true -> is_rate_limit e2 = true ->
  is_rate_limit e3 = true -> is_rate_limit e4 = true ->
  exists st' t1 t2 t3 t4,
    _throttled_request func st = Some (Raise e4, st') /\
    trace (env st') =
      [Dispatch t4; Backoff 240; Dispatch t3; Backoff 120; Dispatch t2;
       Backoff 60; Dispatch t1] ++ trace (env (paced st)) /\
    backoff_sleeps (history (env st')) =
      backoff_sleeps (history (env st)) ++ [60; 120; 240]%Q /\
    min_request_interval (self st') =
      (min_request_interval (self st) + 5 + 5 + 5)%Q /\
    (min_request_interval (self st') == min_request_interval (self st) + 15)%Q /\
    dispatched (env st') = (4 + dispatched (env st))%nat.
Proof.
  intros Hmr H1 H2 H3 H4 R1 R2 R3 R4.
  rewrite throttled_request_unfold.
  rewrite <- (paced_backoff_sleeps st), <- (paced_dispatched st).
  rewrite <- (paced_dispatched st) in H1, H2, H3, H4.
  rewrite <- (paced_self st) in Hmr. rewrite <- (paced_self st).
  generalize dependent (paced st). clear st. intros st Hmr H1 H2 H3 H4.
  rewrite Hmr. change (Z.to_nat (3 + 1)) with 4%nat.
  cbn [Nat.add] in *.
  rewrite retry_loop_unfold; cbv zeta. rewrite Hmr, H1, R1.
  change (0 <=? 3) with true. change (0 + 1 >? 3) with false. cbv iota.
  rewrite retry_loop_unfold; cbv zeta.
  cbn [after_backoff after_dispatch self env max_retries dispatched].
  rewrite Hmr, H2, R2.
  change (0 + 1 <=? 3) with true. change (0 + 1 + 1 >? 3) with false. cbv iota.
  rewrite retry_loop_unfold; cbv zeta.
  cbn [after_backoff after_dispatch self env max_retries dispatched].
  rewrite Hmr, H3, R3.
  change (0 + 1 + 1 <=? 3) with true. change (0 + 1 + 1 + 1 >? 3) with false.
  cbv iota.
  rewrite retry_loop_unfold; cbv zeta.
  cbn [after_backoff after_dispatch self env max_retries dispatched].
  rewrite Hmr, H4, R4.
  change (0 + 1 + 1 + 1 <=? 3) with true.
  change (0 + 1 + 1 + 1 + 1 >? 3) with true.
  cbv iota.
  eexists _, _, _, _, _. split; [reflexivity|].
  unfold history.
  cbn [after_backoff after_dispatch self env trace dispatched clock
       min_request_interval].
  split; [reflexivity|]. split.
  - cbn [rev]. rewrite !backoff_sleeps_app. cbn [backoff_sleeps].
    rewrite !app_nil_r, <- !app_assoc. reflexivity.
  - split; [reflexivity|]. split; [ring|reflexivity].
Qed.

Lemma rate_limit_ladder_witness :
  let e := Exn "TooManyRequestsException" "TooManyRequests: slow down" in
  let func : callable pyval := fun _ => Attempt (Raise e) 1 in
  let st := {| self := init (fun _ => func);
               env := {| clock := 1000; dispatched := 0; trace := [] |} |} in
  exists st',
    _throttled_request func st = Some (Raise e, st') /\
    history (env st') =
      [Dispatch 1000; Backoff 60; Dispatch 1061; Backoff 120;
       Dispatch 1182; Backoff 240; Dispatch 1423] /\
    (min_request_interval (self st') == 25)%Q.
Proof.
  intros e func st.
  destruct (rate_limit_ladder func st e e e e)
    as (st' & t1 & t2 & t3 & t4 & Hrun & Htrace & _ & Hmin & _);
    try reflexivity.
  exists st'. split; [exact Hrun|].
  vm_compute in Hrun. injection Hrun as <-. split; reflexivity.
Defined.

(** *** What one run of the retry loop leaves behind *)

Lemma backoff_wait_nonneg (retries : Z) : (0 <= inject_Z (30 * 2 ^ retries))%Q.
Proof.
  change 0%Q with (inject_Z 0). rewrite <- Zle_Qle.
  pose proof (Z.pow_nonneg 2 retries ltac:(lia)). lia.
Qed.

Lemma retry_loop_events {A} (func : callable A) (fuel : nat) :
  forall retries st r st',
    retry_loop fuel func retries st = Some (r, st') ->
    exists evs,
      trace (env st') = evs ++ trace (env st) /\
      throttle_sleeps evs = [] /\
      client (self st') = client (self st) /\
      max_retries (self st') = max_retries (self st) /\
      (min_request_interval (self st') ==
       min_request_interval (self st)
       + 5 * inject_Z (Z.of_nat (List.length (backoff_sleeps evs))))%Q /\
      dispatched (env st') =
        (List.length (dispatch_times evs) + dispatched (env st))%nat /\
      (dispatch_times evs = [] -> st' = st /\ r = Ok None).
Proof.
  induction fuel as [|fuel IH]; intros retries st r st' Hrun; [discriminate|].
  rewrite retry_loop_unfold in Hrun. cbv zeta in Hrun.
  destruct (retries <=? max_retries (self st)).
  2:{ injection Hrun as <- <-. exists []. cbn.
      repeat split; try reflexivity. ring. }
  set (a := func (dispatched (env st))) in *.
  assert (Hone : forall r0, Some (r0, after_dispatch a st) = Some (r, st') ->
            exists evs,
              trace (env st') = evs ++ trace (env st) /\
              throttle_sleeps evs = [] /\
              client (self st') = client (self st) /\
              max_retries (self st') = max_retries (self st) /\
              (min_request_interval (self st') ==
               min_request_interval (self st)
               + 5 * inject_Z (Z.of_nat (List.length (backoff_sleeps evs))))%Q /\
              dispatched (env st') =
                (List.length (dispatch_times evs) + dispatched (env st))%nat /\
              (dispatch_times evs = [] -> st' = st /\ r = Ok None)).
  { intros r0 [= <- <-]. exists [Dispatch (clock (env st))]. cbn.
    repeat split; try reflexivity; try discriminate. ring. }
  destruct (outcome a) as [v|e]; [now apply (Hone (Ok (Some v)))|].
  destruct (is_rate_limit e); [|now apply (Hone (Raise e))].
  destruct (retries + 1 >? max_retries (self st)); [now apply (Hone (Raise e))|].
  clear Hone. apply IH in Hrun.
  destruct Hrun as (evs & Ht & Hth & Hc & Hm & Hmin & Hd & _).
  exists (evs ++ [Backoff (inject_Z (30 * 2 ^ (retries + 1)));
                  Dispatch (clock (env st))]).
  cbn [after_backoff after_dispatch self env trace client max_retries
       min_request_interval dispatched] in *.
  rewrite throttle_sleeps_app, backoff_sleeps_app, dispatch_times_app.
  rewrite !length_app. cbn [throttle_sleeps backoff_sleeps dispatch_times List.length].
  split; [rewrite Ht, <- app_assoc; reflexivity|].
  split; [rewrite Hth; reflexivity|].
  split; [exact Hc|]. split; [exact Hm|].
  split; [rewrite Hmin, Nat2Z.inj_add, inject_Z_plus; cbn; ring|].
  split; [rewrite Hd; lia|].
  intros H. apply app_eq_nil in H. destruct H; discriminate.
Qed.

Lemma retry_loop_terminates {A} (func : callable A) (fuel : nat) :
  forall retries st,
    (Z.to_nat (max_retries (self st) + 1 - retries) < fuel)%nat ->
    exists r st', retry_loop fuel func retries st = Some (r, st').
Proof.
  induction fuel as [|fuel IH]; intros retries st Hfuel; [lia|].
  rewrite retry_loop_unfold. cbv zeta.
  destruct (Z.leb_spec retries (max_retries (self st))); [|eauto].
  destruct (outcome (func (dispatched (env st)))) as [v|e]; [eauto|].
  destruct (is_rate_limit e); [|eauto].
  destruct (Z.gtb_spec (retries + 1) (max_retries (self st))); [eauto|].
  apply IH. cbn [after_backoff after_dispatch self max_retries]. lia.
Qed.

(** [_throttled_request] always ends. *)
Lemma throttled_request_total {A} (func : callable A) (st : state) :
  exists r st', _throttled_request func st = Some (r, st').
Proof.
  rewrite throttled_request_unfold. apply retry_loop_terminates.
  rewrite paced_self. lia.
Qed.

Lemma retry_loop_timing {A} (func : callable A) (fuel : nat) :
  (forall n, (0 <= latency (func n))%Q) ->
  forall retries st r st',
    retry_loop fuel func retries st = Some (r, st') ->
    exists evs,
      trace (env st') = evs ++ trace (env st) /\
      (clock (env st) <= clock (env st'))%Q /\
      Forall (fun t => (clock (env st) <= t)%Q /\
                       (t <= last_request_time (self st'))%Q)
             (dispatch_times evs) /\
      (dispatch_times evs = [] /\ st' = st \/
       hd_error (dispatch_times evs) = Some (last_request_time (self st')) /\
       last (dispatch_times evs) 0%Q = clock (env st) /\
       (last_request_time (self st') <= clock (env st'))%Q).
Proof.
  intros Hlat. induction fuel as [|fuel IH]; intros retries st r st' Hrun;
    [discriminate|].
  rewrite retry_loop_unfold in Hrun. cbv zeta in Hrun.
  destruct (retries <=? max_retries (self st)).
  2:{ injection Hrun as <- <-. exists []. cbn.
      split; [reflexivity|]. split; [lra|]. split; [constructor|now left]. }
  pose proof (Hlat (dispatched (env st))) as Hl.
  set (a := func (dispatched (env st))) in *.
  assert (Hone : forall r0, Some (r0, after_dispatch a st) = Some (r, st') ->
            exists evs,
              trace (env st') = evs ++ trace (env st) /\
              (clock (env st) <= clock (env st'))%Q /\
              Forall (fun t => (clock (env st) <= t)%Q /\
                               (t <= last_request_time (self st'))%Q)
                     (dispatch_times evs) /\
              (dispatch_times evs = [] /\ st' = st \/
               hd_error (dispatch_times evs)
                 = Some (last_request_time (self st')) /\
               last (dispatch_times evs) 0%Q = clock (env st) /\
               (last_request_time (self st') <= clock (env st'))%Q)).
  { intros r0 [= <- <-]. exists [Dispatch (clock (env st))]. cbn.
    split; [reflexivity|]. split; [lra|].
    split; [constructor; [split; lra|constructor]|].
    right. split; [reflexivity|]. split; [reflexivity|lra]. }
  destruct (outcome a) as [v|e]; [now apply (Hone (Ok (Some v)))|].
  destruct (is_rate_limit e); [|now apply (Hone (Raise e))].
  destruct (retries + 1 >? max_retries (self st)); [now apply (Hone (Raise e))|].
  clear Hone. apply IH in Hrun.
  destruct Hrun as (evs & Ht & Hclk & Hall & Hlast).
  pose proof (backoff_wait_nonneg (retries + 1)) as Hw.
  unfold after_backoff in Ht, Hclk, Hall, Hlast.
  remember (inject_Z (30 * 2 ^ (retries + 1))) as w eqn:Ew. clear Ew.
  exists (evs ++ [Backoff w; Dispatch (clock (env st))]).
  cbn [after_dispatch self env trace clock last_request_time] in *.
  rewrite dispatch_times_app. cbn [dispatch_times].
  split; [rewrite Ht, <- app_assoc; reflexivity|].
  split; [lra|].
  assert (Hst : (clock (env st) <= last_request_time (self st'))%Q).
  { destruct Hlast as [[_ ->]|(Hhd & _ & _)]; [cbn; lra|].
    destruct (dispatch_times evs) as [|t ts]; [discriminate|].
    injection Hhd as ->. apply Forall_inv in Hall. lra. }
  split.
  - apply Forall_app. split.
    + eapply Forall_impl; [|exact Hall]. cbn. intros t [H1 H2]. split; lra.
    + constructor; [split; lra|constructor].
  - right. split; [|split].
    + destruct Hlast as [[-> ->]|(Hhd & _ & _)]; [reflexivity|].
      destruct (dispatch_times evs); [discriminate|exact Hhd].
    + apply last_last.
    + destruct Hlast as [[_ ->]|(_ & _ & H)]; [cbn; lra|exact H].
Qed.

(** *** One call of [_throttled_request] *)

Lemma paced_trace (st : state) :
  trace (env (paced st)) = pacing st ++ trace (env st).
Proof. unfold paced, pacing. now destruct (Qltb _ _). Qed.

Lemma paced_clock (st : state) :
  (clock (env st) <= clock (env (paced st)))%Q /\
  (last_request_time (self st) + min_request_interval (self st)
   <= clock (env (paced st)))%Q.
Proof.
  unfold paced, elapsed. destruct (Qltb _ _) eqn:E.
  - apply Qltb_lt in E. cbn. split; lra.
  - apply Qltb_ge in E. split; lra.
Qed.

Lemma throttled_request_interval {A} (func : callable A) (st : state) :
  exists r st' evs,
    _throttled_request func st = Some (r, st') /\
    trace (env st') = evs ++ pacing st ++ trace (env st) /\
    throttle_sleeps evs = [] /\
    client (self st') = client (self st) /\
    max_retries (self st') = max_retries (self st) /\
    (min_request_interval (self st') ==
     min_request_interval (self st)
     + 5 * inject_Z (Z.of_nat (List.length (backoff_sleeps evs))))%Q.
Proof.
  destruct (throttled_request_total func st) as (r & st' & Hrun).
  exists r, st'. pose proof Hrun as Hrun'.
  rewrite throttled_request_unfold in Hrun'.
  apply retry_loop_events in Hrun'.
  destruct Hrun' as (evs & Ht & Hth & Hc & Hm & Hmin & _).
  rewrite paced_self in Hc, Hm, Hmin. rewrite paced_trace in Ht.
  exists evs. auto 10.
Qed.

Lemma throttled_request_timing {A} (func : callable A) (st : state) :
  (forall n, (0 <= latency (func n))%Q) ->
  exists r st' evs,
    _throttled_request func st = Some (r, st') /\
    trace (env st') = evs ++ pacing st ++ trace (env st) /\
    throttle_sleeps evs = [] /\
    (min_request_interval (self st) <= min_request_interval (self st'))%Q /\
    (clock (env st) <= clock (env st'))%Q /\
    Forall (fun t =>
              (last_request_time (self st) + min_request_interval (self st)
               <= t)%Q /\
              (t <= last_request_time (self st'))%Q)
           (dispatch_times evs) /\
    (dispatch_times evs = [] \/
     hd_error (dispatch_times evs) = Some (last_request_time (self st'))).
Proof.
  intros Hlat.
  destruct (throttled_request_interval func st)
    as (r & st' & evs & Hrun & Ht & Hth & _ & _ & Hmin).
  exists r, st', evs. split; [exact Hrun|]. split; [exact Ht|].
  split; [exact Hth|].
  rewrite throttled_request_unfold in Hrun.
  apply (retry_loop_timing func _ Hlat) in Hrun.
  destruct Hrun as (evs' & Ht' & Hclk & Hall & Hlast).
  rewrite paced_trace, app_assoc in Ht'. rewrite app_assoc, Ht' in Ht.
  apply app_inv_tail, app_inv_tail in Ht. subst evs'.
  destruct (paced_clock st) as [Hc1 Hc2].
  split.
  { assert (0 <= inject_Z (Z.of_nat (List.length (backoff_sleeps evs))))%Q.
    { change 0%Q with (inject_Z 0). rewrite <- Zle_Qle. lia. }
    rewrite Hmin. lra. }
  split; [lra|]. split.
  - eapply Forall_impl; [|exact Hall]. cbn. intros t [H1 H2]. split; lra.
  - destruct Hlast as [[H _]|[H _]]; auto.
Qed.

(** C2: a call of [_throttled_request] on a finder whose
    [min_request_interval] is [T] first sleeps for exactly
    [T - (now - last_request_time)] when that is positive and not at all
    otherwise; [last_request_time] is the clock value at which the call's
    last dispatch starts; and all dispatches of the next call start at least
    [T] seconds after every dispatch of this one. *)
Theorem throttle_spacing {A B} (f : callable A) (g : callable B)
        (st : state) (idle : Q) :
  (forall n, (0 <= latency (f n))%Q) ->
  (forall n, (0 <= latency (g n))%Q) ->
  (0 <= idle)%Q ->
  let T := min_request_interval (self st) in
  exists r1 st1 evs1 r2 st2 evs2,
    _throttled_request f st = Some (r1, st1) /\
    _throttled_request g (pass idle st1) = Some (r2, st2) /\
    trace (env st1) = evs1 ++ pacing st ++ trace (env st) /\
    trace (env st2) = evs2 ++ pacing (pass idle st1) ++ trace (env st1) /\
    pacing st = (if Qltb (elapsed st) T then [Throttle (T - elapsed st)%Q]
                 else []) /\
    throttle_sleeps evs1 = [] /\ throttle_sleeps evs2 = [] /\
    (dispatch_times evs1 = [] \/
     hd_error (dispatch_times evs1) = Some (last_request_time (self st1))) /\
    (forall t1 t2, In t1 (dispatch_times evs1) -> In t2 (dispatch_times evs2) ->
                   (t1 + T <= t2)%Q).
Proof.
  intros Hf Hg Hidle T.
  destruct (throttled_request_timing f st Hf)
    as (r1 & st1 & evs1 & Hrun1 & Ht1 & Hth1 & Hmin1 & _ & Hall1 & Hlast1).
  destruct (throttled_request_timing g (pass idle st1) Hg)
    as (r2 & st2 & evs2 & Hrun2 & Ht2 & Hth2 & _ & _ & Hall2 & _).
  exists r1, st1, evs1, r2, st2, evs2.
  repeat (split; [assumption || reflexivity|]).
  intros t1 t2 H1 H2.
  rewrite Forall_forall in Hall1, Hall2.
  apply Hall1 in H1. apply Hall2 in H2. cbn [pass self] in H2.
  unfold T. lra.
Qed.

Lemma throttle_spacing_witness :
  let f : callable pyval := fun _ => Attempt (Ok PNone) 1 in
  let st := {| self := init (fun _ => f);
               env := {| clock := 1000; dispatched := 0; trace := [] |} |} in
  exists st1 st2,
    _throttled_request f st = Some (Ok (Some PNone), st1) /\
    _throttled_request f (pass 2 st1) = Some (Ok (Some PNone), st2) /\
    history (env st2) = [Dispatch 1000; Throttle 7; Dispatch 1010].
Proof.
  intros f st.
  destruct (throttle_spacing f f st 2)
    as (r1 & st1 & evs1 & r2 & st2 & evs2 & Hrun1 & Hrun2 & _);
    [intros n; discriminate|intros n; discriminate|discriminate|].
  exists st1, st2.
  vm_compute in Hrun1. injection Hrun1 as <- <-.
  vm_compute in Hrun2. injection Hrun2 as <- <-.
  repeat split; reflexivity.
Defined.

(** *** The interval over the life of the process *)

Lemma lifetime_interval (st st' : state) :
  lifetime st st' ->
  (min_request_interval (self st) <= min_request_interval (self st'))%Q.
Proof.
  induction 1 as [st|A func st r st1 st2 Hrun _ IH|idle st st2 _ _ IH].
  - lra.
  - destruct (throttled_request_interval func st)
      as (r' & st1' & evs & Hrun' & _ & _ & _ & _ & Hmin).
    rewrite Hrun in Hrun'. injection Hrun' as <- <-.
    assert (0 <= inject_Z (Z.of_nat (List.length (backoff_sleeps evs))))%Q.
    { change 0%Q with (inject_Z 0). rewrite <- Zle_Qle. lia. }
    rewrite Hmin in IH. lra.
  - exact IH.
Qed.

(** C3: [min_request_interval] never decreases: a call of
    [_throttled_request] leaves it at its former value plus 5.0 for each
    backoff sleep of the call, and no later call brings it below that. *)
Theorem interval_never_decreases {A} (func : callable A)
        (st st1 st2 : state) (r : result (option A)) :
  _throttled_request func st = Some (r, st1) ->
  lifetime st1 st2 ->
  exists evs,
    trace (env st1) = evs ++ pacing st ++ trace (env st) /\
    (min_request_interval (self st1) ==
     min_request_interval (self st)
     + 5 * inject_Z (Z.of_nat (List.length (backoff_sleeps evs))))%Q /\
    (min_request_interval (self st) <= min_request_interval (self st1))%Q /\
    (min_request_interval (self st1) <= min_request_interval (self st2))%Q.
Proof.
  intros Hrun Hlife.
  destruct (throttled_request_interval func st)
    as (r' & st1' & evs & Hrun' & Ht & _ & _ & _ & Hmin).
  rewrite Hrun in Hrun'. injection Hrun' as <- <-.
  exists evs. split; [exact Ht|]. split; [exact Hmin|]. split.
  - assert (0 <= inject_Z (Z.of_nat (List.length (backoff_sleeps evs))))%Q.
    { change 0%Q with (inject_Z 0). rewrite <- Zle_Qle. lia. }
    rewrite Hmin. lra.
  - now apply lifetime_interval.
Qed.

Lemma interval_never_decreases_witness :
  let limited : callable pyval :=
    fun n => match n with
             | O => Attempt (Raise (Exn "ApiException" "Too Many Requests")) 1
             | _ => Attempt (Ok PNone) 1
             end in
  let st := {| self := init (fun _ => limited);
               env := {| clock := 1000; dispatched := 0; trace := [] |} |} in
  exists st1 st2,
    _throttled_request limited st = Some (Ok (Some PNone), st1) /\
    _throttled_request limited st1 = Some (Ok (Some PNone), st2) /\
    (min_request_interval (self st1) == 15)%Q /\
    (15 <= min_request_interval (self st2))%Q.
Proof.
  intros limited st.
  destruct (throttled_request_total limited st) as (r1 & st1 & H1).
  destruct (throttled_request_total limited st1) as (r2 & st2 & H2).
  destruct (interval_never_decreases limited st st1 st2 r1 H1)
    as (evs & _ & _ & _ & Hle).
  { eapply lifetime_call; [exact H2|apply lifetime_refl]. }
  exists st1, st2.
  pose proof H1 as H1'. vm_compute in H1'. injection H1' as <- <-.
  pose proof H2 as H2'. vm_compute in H2'. injection H2' as <- <-.
  split; [exact H1|]. split; [exact H2|]. split; [reflexivity|exact Hle].
Defined.

(** ** Ranking and selection *)

Section RankingProperties.
Context {A : Type} (key : A -> Z).

Lemma insert_desc_perm (x : A) (l : list A) :
  Permutation (insert_desc key x l) (x :: l).
Proof.
  induction l as [|y l IH]; cbn; [reflexivity|].
  destruct (key y <=? key x); [reflexivity|].
  rewrite IH. apply perm_swap.
Qed.

Lemma sort_desc_perm (l : list A) : Permutation (sort_desc key l) l.
Proof.
  induction l as [|x l IH]; cbn; [reflexivity|].
  rewrite insert_desc_perm. now constructor.
Qed.

Lemma insert_desc_sorted (x : A) (l : list A) :
  StronglySorted (desc key) l -> StronglySorted (desc key) (insert_desc key x l).
Proof.
  induction 1 as [|y l Hs IH Hy]; cbn.
  - repeat constructor.
  - destruct (Z.leb_spec (key y) (key x)) as [Hle|Hgt].
    + constructor; [now constructor|].
      constructor; [exact Hle|].
      eapply Forall_impl; [|exact Hy]. unfold desc. intros; lia.
    + constructor; [exact IH|].
      rewrite insert_desc_perm. constructor; [unfold desc; lia|exact Hy].
Qed.

Lemma sort_desc_sorted (l : list A) : StronglySorted (desc key) (sort_desc key l).
Proof.
  induction l; cbn; [constructor|now apply insert_desc_sorted].
Qed.

Lemma insert_desc_filter (k : Z) (x : A) (l : list A) :
  StronglySorted (desc key) l ->
  filter (fun d => key d =? k) (insert_desc key x l) =
  filter (fun d => key d =? k) (x :: l).
Proof.
  induction 1 as [|y l Hs IH Hy]; [reflexivity|].
  cbn [insert_desc]. destruct (Z.leb_spec (key y) (key x)); [reflexivity|].
  cbn [filter] in *. rewrite IH.
  destruct (Z.eqb_spec (key y) k), (Z.eqb_spec (key x) k);
    try reflexivity; lia.
Qed.

(** Stability: the deals of any one discount keep their order. *)
Lemma sort_desc_stable (k : Z) (l : list A) :
  filter (fun d => key d =? k) (sort_desc key l) =
  filter (fun d => key d =? k) l.
Proof.
  induction l as [|x l IH]; [reflexivity|].
  cbn [sort_desc]. rewrite insert_desc_filter by apply sort_desc_sorted.
  cbn [filter]. now rewrite IH.
Qed.

Lemma sorted_app_desc (l1 l2 : list A) :
  StronglySorted (desc key) (l1 ++ l2) ->
  forall x y, In x l1 -> In y l2 -> key y <= key x.
Proof.
  induction l1 as [|a l1 IH]; cbn; intros Hs x y Hx Hy; [contradiction|].
  apply StronglySorted_inv in Hs. destruct Hs as [Hs Ha].
  destruct Hx as [<-|Hx]; [|now apply (IH Hs x y)].
  rewrite Forall_forall in Ha. apply Ha, in_or_app. now right.
Qed.

Lemma sorted_app_l (l1 l2 : list A) :
  StronglySorted (desc key) (l1 ++ l2) -> StronglySorted (desc key) l1.
Proof.
  induction l1 as [|a l1 IH]; cbn; intros Hs; [constructor|].
  apply StronglySorted_inv in Hs. destruct Hs as [Hs Ha].
  constructor; [now apply IH|].
  apply Forall_app in Ha. apply Ha.
Qed.

Lemma sorted_firstn (n : nat) (l : list A) :
  StronglySorted (desc key) l -> StronglySorted (desc key) (firstn n l).
Proof.
  intros Hs. rewrite <- (firstn_skipn n l) in Hs. now apply sorted_app_l in Hs.
Qed.

Lemma slice_to_firstn (n : Z) (l : list A) :
  0 <= n -> slice_to n l = firstn (Z.to_nat n) l.
Proof. intros H. unfold slice_to. now destruct (Z.leb_spec 0 n); [|lia]. Qed.
(** A negative [num_deals] is a count from the end: [deals[:-k]] drops the
    last [k] deals. *)
Lemma slice_to_negative (n : Z) (l : list A) :
  n < 0 ->
  slice_to n l = firstn (List.length l - Z.to_nat (- n)) l.
Proof.
  intros H. unfold slice_to. destruct (Z.leb_spec 0 n); [lia|].
  f_equal. lia.
Qed.
End RankingProperties.

(** C8: the ranking sorts the deals by descending [discount_percent],
    keeps the discovery order among deals of equal discount, and returns
    the first [num_deals] of them; discounts 10, 30, 30, 5 with
    [num_deals = 3] give the first 30, the second 30, then 10. *)
Theorem ranking_top_deals {A} (key : A -> Z) (num_deals : Z) (deals : list A) :
  0 <= num_deals ->
  let sorted := sort_desc key deals in
  let best := rank key num_deals deals in
  Permutation sorted deals /\
  StronglySorted (desc key) sorted /\
  (forall k, filter (fun d => key d =? k) sorted =
             filter (fun d => key d =? k) deals) /\
  best = firstn (Z.to_nat num_deals) sorted /\
  List.length best = Nat.min (Z.to_nat num_deals) (List.length deals) /\
  StronglySorted (desc key) best /\
  (forall x y, In x best -> In y (skipn (Z.to_nat num_deals) sorted) ->
               key y <= key x) /\
  map asin (rank discount_percent 3 sample_deals) =
    [PStr "second"; PStr "third"; PStr "first"].
Proof.
  intros Hn sorted best.
  assert (Hbest : best = firstn (Z.to_nat num_deals) sorted)
    by now apply slice_to_firstn.
  split; [apply sort_desc_perm|]. split; [apply sort_desc_sorted|].
  split; [intros k; apply sort_desc_stable|]. split; [exact Hbest|].
  split.
  { rewrite Hbest, length_firstn. unfold sorted.
    now rewrite (Permutation_length (sort_desc_perm key deals)). }
  split; [rewrite Hbest; apply sorted_firstn, sort_desc_sorted|].
  split; [|reflexivity].
  rewrite Hbest. apply sorted_app_desc.
  rewrite firstn_skipn. apply sort_desc_sorted.
Qed.

Lemma ranking_top_deals_witness :
  rank discount_percent 3 sample_deals =
    [sample_deal "second" 30; sample_deal "third" 30; sample_deal "first" 10].
Proof.
  destruct (ranking_top_deals discount_percent 3 sample_deals)
    as (_ & _ & _ & -> & _); [discriminate|reflexivity].
Defined.

(** ** The extractor *)

Section ExtractorProperties.
Context {R : Runtime}.

Lemma process_item_contribution
      (extract : pyval -> result (option (deal float)))
      (deals : list (deal float)) (item : pyval) :
  process_item extract deals item = Ok (deals ++ contribution extract item).
Proof.
  unfold process_item, contribution.
  destruct (extract item) as [[d|]|e]; cbn; now rewrite ?app_nil_r.
Qed.

Lemma process_items_contribution
      (extract : pyval -> result (option (deal float))) (items : list pyval) :
  forall deals,
    process_items extract items deals =
    Ok (deals ++ flat_map (contribution extract) items).
Proof.
  induction items as [|item items IH]; intros deals; cbn [process_items flat_map].
  - now rewrite app_nil_r.
  - rewrite process_item_contribution. cbn [rbind].
    now rewrite IH, app_assoc.
Qed.

Lemma malformed_item_raises (min_discount : Z) :
  extract_deal min_discount malformed_item
    = Raise (TypeError "object is not subscriptable") /\
  extract_deal_fetcher malformed_item
    = Raise (TypeError "object is not subscriptable").
Proof. split; reflexivity. Qed.

(** C7: the item loop never raises: it returns the deals of the items
    that yield one, in order; an item whose extraction raises adds
    nothing and the items after it are processed as if it were not
    there. *)
Theorem item_loop_never_raises
        (extract : pyval -> result (option (deal float)))
        (items : list pyval) (deals : list (deal float)) :
  process_items extract items deals
    = Ok (deals ++ flat_map (contribution extract) items) /\
  (forall before bad after e,
      items = before ++ bad :: after -> extract bad = Raise e ->
      process_items extract items deals
        = process_items extract (before ++ after) deals) /\
  (forall min_discount,
      process_items (extract_deal min_discount) (malformed_item :: items) []
        = process_items (extract_deal min_discount) items [] /\
      process_items extract_deal_fetcher (malformed_item :: items) []
        = process_items extract_deal_fetcher items []).
Proof.
  split; [apply process_items_contribution|]. split.
  - intros before bad after e -> Hbad.
    rewrite !process_items_contribution, !flat_map_app. cbn [flat_map].
    unfold contribution at 2. now rewrite Hbad.
  - intros min_discount. split; reflexivity.
Qed.

(** C6: an item whose first listing has no savings-basis amount adds no
    deal, whatever its current price; and every deal that is built has
    its original price converted from such an amount. *)
Theorem no_deal_without_saving_basis (min_discount : Z) (item : pyval)
        (deals : list (deal float)) :
  ((forall listing, first_listing item = Ok (Some listing) ->
                    amount_of listing "saving_basis" = None) ->
   process_item (extract_deal min_discount) deals item = Ok deals /\
   process_item extract_deal_fetcher deals item = Ok deals) /\
  (forall d, extract_deal min_discount item = Ok (Some d) ->
             exists listing basis original,
               first_listing item = Ok (Some listing) /\
               amount_of listing "saving_basis" = Some basis /\
               to_decimal basis = Ok original /\
               float_of_decimal original = Ok (original_price d)) /\
  (forall d, extract_deal_fetcher item = Ok (Some d) ->
             exists listing basis,
               first_listing item = Ok (Some listing) /\
               amount_of listing "saving_basis" = Some basis /\
               float_of_pyval basis = Ok (original_price d)) /\
  process_item (extract_deal min_discount) deals undiscounted_item = Ok deals /\
  process_item extract_deal_fetcher deals undiscounted_item = Ok deals.
Proof.
  split; [|split; [|split]].
  - intros Hlack. unfold process_item, extract_deal, extract_deal_fetcher.
    destruct (first_listing item) as [[listing|]|e]; cbn; auto.
    rewrite (Hlack listing eq_refl).
    destruct (amount_of listing "price") as [amount|]; cbn; auto.
    destruct (to_decimal amount), (float_of_pyval amount); cbn; auto.
  - intros d. unfold extract_deal.
    destruct (first_listing item) as [[listing|]|e]; cbn; try discriminate.
    destruct (amount_of listing "price") as [amount|]; try discriminate.
    destruct (to_decimal amount) as [current|]; cbn; try discriminate.
    destruct (amount_of listing "saving_basis") as [basis|] eqn:Hb;
      try discriminate.
    destruct (to_decimal basis) as [original|] eqn:Hd; cbn; try discriminate.
    destruct (calculate_discount current original) as [discount|];
      cbn; try discriminate.
    destruct (min_discount <=? discount); try discriminate.
    destruct (float_of_decimal current) as [p|]; cbn; try discriminate.
    destruct (float_of_decimal original) as [o|] eqn:Ho; cbn; try discriminate.
    intros [= <-]. exists listing, basis, original. auto.
  - intros d. unfold extract_deal_fetcher.
    destruct (first_listing item) as [[listing|]|e]; cbn; try discriminate.
    destruct (amount_of listing "price") as [amount|]; try discriminate.
    destruct (float_of_pyval amount) as [current|]; cbn; try discriminate.
    destruct (amount_of listing "saving_basis") as [basis|] eqn:Hb;
      try discriminate.
    destruct (float_of_pyval basis) as [original|] eqn:Ho; cbn; try discriminate.
    destruct (float_percent current original) as [discount|];
      cbn; try discriminate.
    destruct (15 <=? discount); try discriminate.
    intros [= <-]. exists listing, basis. auto.
  - unfold process_item, extract_deal, extract_deal_fetcher. cbn.
    destruct (float_of_pyval (PNum (Fin 80 (-1)))); cbn; auto.
Qed.
End ExtractorProperties.

(** ** The sweeps *)

Section SweepProperties.
Context {R : Runtime}.

Lemma search_total (keyword : string) (min_price_cents min_discount : Z)
      (st : state) :
  exists r st', search keyword min_price_cents min_discount st = Some (r, st').
Proof.
  unfold search, search_items, bind, get, raise, ret.
  destruct (client (self st)) as [c|]; [|eauto].
  destruct (throttled_request_total
              (c {| keywords := keyword; item_count := 10;
                    min_price := min_price_cents;
                    min_saving_percent := min_discount |}) st)
    as ([response|e] & st' & ->); [|eauto].
  destruct (attr (response_of response) "items") as [items|]; [|eauto].
  destruct (negb (truthy items)); [eauto|].
  unfold lift. destruct (iterate items); eauto.
Qed.

Lemma priced_search_total (keyword : string) (min_discount : Z)
      (min_price : float) (st : state) :
  exists r st', priced_search keyword min_discount min_price st = Some (r, st').
Proof.
  unfold priced_search, bind, lift.
  destruct (cents_of min_price) as [cents|e]; [|eauto].
  apply search_total.
Qed.

Lemma found_by_total (keyword : string) (min_discount : Z)
      (min_price : float) (st : state) :
  exists found st', found_by keyword min_discount min_price st = Some (found, st').
Proof.
  unfold found_by.
  destruct (priced_search_total keyword min_discount min_price st)
    as ([[items|]|e] & st' & ->); eauto.
Qed.

Lemma fetched_by_total (keyword : string) (st : state) :
  exists found st', fetched_by keyword st = Some (found, st').
Proof.
  unfold fetched_by.
  destruct (search_total keyword 500 15 st) as ([[items|]|e] & st' & ->); eauto.
Qed.

Lemma sweep_step (keyword : string) (rest : list string) (min_discount : Z)
      (min_price : float) (deals : list (deal float)) (st : state) :
  sweep (keyword :: rest) min_discount min_price deals st =
  match found_by keyword min_discount min_price st with
  | None => None
  | Some (found, st1) => sweep rest min_discount min_price (deals ++ found) st1
  end.
Proof.
  cbn [sweep]. unfold found_by, priced_search, bind, try_catch, lift, ret.
  destruct (cents_of min_price) as [cents|e]; [|now rewrite app_nil_r].
  destruct (search keyword cents min_discount st) as [[[[items|]|e] st1]|];
    try reflexivity; try now rewrite app_nil_r.
  now rewrite process_items_contribution.
Qed.

Lemma fetch_sweep_step (keyword : string) (rest : list string) (t : tally)
      (st : state) :
  fetch_sweep (keyword :: rest) t st =
  match fetched_by keyword st with
  | None => None
  | Some (found, st1) => fetch_sweep rest (save_found found t) st1
  end.
Proof.
  cbn [fetch_sweep]. unfold fetched_by, bind, try_catch, lift, ret.
  destruct (search keyword 500 15 st) as [[[[items|]|e] st1]|];
    try reflexivity.
  now rewrite process_items_contribution.
Qed.

Lemma sweep_found (keywords : list string) (min_discount : Z)
      (min_price : float) :
  forall deals st,
  exists found st',
    found_in_sweep keywords min_discount min_price st = Some (found, st') /\
    sweep keywords min_discount min_price deals st
      = Some (Ok (deals ++ found), st').
Proof.
  induction keywords as [|keyword rest IH]; intros deals st.
  - exists [], st. cbn. now rewrite app_nil_r.
  - rewrite sweep_step. cbn [found_in_sweep].
    destruct (found_by_total keyword min_discount min_price st)
      as (found & st1 & ->).
    destruct (IH (deals ++ found) st1) as (more & st2 & -> & ->).
    exists (found ++ more), st2. now rewrite app_assoc.
Qed.

Lemma fetch_sweep_found (keywords : list string) :
  forall t st,
  exists founds st',
    fetched_in_sweep keywords st = Some (founds, st') /\
    fetch_sweep keywords t st = Some (Ok (saved founds t), st').
Proof.
  induction keywords as [|keyword rest IH]; intros t st.
  - exists [], st. split; reflexivity.
  - rewrite fetch_sweep_step. cbn [fetched_in_sweep].
    destruct (fetched_by_total keyword st) as (found & st1 & ->).
    destruct (IH (save_found found t) st1) as (more & st2 & -> & ->).
    exists (found :: more), st2. split; reflexivity.
Qed.

Lemma stored_app (l1 l2 : list (deal float)) (rows : database) :
  stored (l1 ++ l2) rows = stored l2 (stored l1 rows).
Proof. unfold stored. apply fold_left_app. Qed.

Lemma newly_saved_app (l1 l2 : list (deal float)) :
  forall rows,
    newly_saved (l1 ++ l2) rows =
    newly_saved l1 rows + newly_saved l2 (stored l1 rows).
Proof.
  induction l1 as [|d l1 IH]; intros rows; cbn [app newly_saved].
  - cbn. lia.
  - rewrite IH. cbn [stored fold_left]. unfold stored. lia.
Qed.

Lemma save_all_stored (deals : list (deal float)) :
  forall t,
    db (save_all deals t) = stored deals (db t) /\
    deals_found (save_all deals t) = deals_found t /\
    deals_saved (save_all deals t) = deals_saved t + newly_saved deals (db t).
Proof.
  unfold save_all, stored.
  induction deals as [|d rest IH]; intros t; cbn [fold_left newly_saved].
  - repeat split; lia.
  - destruct (save_deal d (db t)) as [ok rows] eqn:Hs.
    match goal with
    | |- context [fold_left _ rest ?t1] =>
        destruct (IH t1) as (Hdb & Hf & Hn)
    end.
    cbn [db deals_found deals_saved fst snd] in *.
    rewrite Hdb, Hf, Hn. repeat split. destruct ok; lia.
Qed.

Lemma save_found_stored (deals : list (deal float)) (t : tally) :
  db (save_found deals t) = stored deals (db t) /\
  deals_found (save_found deals t)
    = deals_found t + Z.of_nat (List.length deals) /\
  deals_saved (save_found deals t) = deals_saved t + newly_saved deals (db t).
Proof.
  unfold save_found. destruct deals as [|d rest].
  - cbn. repeat split; lia.
  - match goal with
    | |- context [save_all ?l ?t1] =>
        destruct (save_all_stored l t1) as (Hdb & Hf & Hn)
    end.
    cbn [db deals_found deals_saved] in *. now rewrite Hdb, Hf, Hn.
Qed.

Lemma saved_stored (founds : list (list (deal float))) :
  forall t,
    db (saved founds t) = stored (List.concat founds) (db t) /\
    deals_found (saved founds t)
      = deals_found t + Z.of_nat (List.length (List.concat founds)) /\
    deals_saved (saved founds t)
      = deals_saved t + newly_saved (List.concat founds) (db t).
Proof.
  unfold saved.
  induction founds as [|found rest IH]; intros t; cbn [fold_left List.concat].
  - cbn. repeat split; lia.
  - destruct (IH (save_found found t)) as (Hdb & Hf & Hn).
    destruct (save_found_stored found t) as (Hdb1 & Hf1 & Hn1).
    rewrite Hdb, Hf, Hn, Hdb1, Hf1, Hn1.
    rewrite stored_app, newly_saved_app, length_app, Nat2Z.inj_add.
    repeat split; lia.
Qed.

(** C9: both sweeps end without raising and gather, keyword by keyword,
    the deals of every response; a keyword whose search raises adds
    nothing, and the sweep goes on with the next keyword from the state
    the failure left, so the deals found under the later keywords are in
    the result. For the fetcher the result is the tally: its database is
    what [save_deal] made of the deals of all the keywords, given to it
    one after the other in the order found, [deals_found] has grown by
    their number and [deals_saved] by the number [save_deal] reported as
    new. *)
Theorem sweep_survives_failures (keywords : list string) (min_discount : Z)
        (min_price : float) (deals : list (deal float)) (t : tally)
        (st : state) :
  (exists found st',
      found_in_sweep keywords min_discount min_price st = Some (found, st') /\
      sweep keywords min_discount min_price deals st
        = Some (Ok (deals ++ found), st')) /\
  (exists founds st',
      fetched_in_sweep keywords st = Some (founds, st') /\
      fetch_sweep keywords t st = Some (Ok (saved founds t), st')) /\
  (forall keyword rest e st1,
      keywords = keyword :: rest ->
      priced_search keyword min_discount min_price st = Some (Raise e, st1) ->
      exists found st',
        found_in_sweep rest min_discount min_price st1 = Some (found, st') /\
        sweep keywords min_discount min_price deals st
          = Some (Ok (deals ++ found), st')) /\
  (forall keyword rest e st1,
      keywords = keyword :: rest ->
      search keyword 500 15 st = Some (Raise e, st1) ->
      exists founds st',
        fetched_in_sweep rest (after_cooldown 180 st1) = Some (founds, st') /\
        fetch_sweep keywords t st = Some (Ok (saved founds t), st')) /\
  (forall founds,
      db (saved founds t) = stored (List.concat founds) (db t) /\
      deals_found (saved founds t)
        = deals_found t + Z.of_nat (List.length (List.concat founds)) /\
      deals_saved (saved founds t)
        = deals_saved t + newly_saved (List.concat founds) (db t)).
Proof.
  split; [apply sweep_found|]. split; [apply fetch_sweep_found|]. split.
  { intros keyword rest e st1 -> Hfail.
    rewrite sweep_step. unfold found_by. rewrite Hfail, app_nil_r.
    apply sweep_found. }
  split.
  { intros keyword rest e st1 -> Hfail.
    rewrite fetch_sweep_step. unfold fetched_by. rewrite Hfail.
    apply fetch_sweep_found. }
  intros founds. apply saved_stored.
Qed.

(** C10: [find_deals_by_keyword] always returns a list: the empty one
    when the search raises (a rate-limit error after the last retry
    included), exactly as when the response has no items, and otherwise
    the sorted deals of the items. *)
Theorem find_deals_by_keyword_never_raises (keyword : string)
        (min_discount : Z) (min_price : float) (st : state) :
  exists deals st',
    find_deals_by_keyword keyword min_discount min_price st
      = Some (Ok deals, st') /\
    (forall e st1,
        priced_search keyword min_discount min_price st = Some (Raise e, st1) ->
        deals = [] /\ st' = st1) /\
    (forall st1,
        priced_search keyword min_discount min_price st = Some (Ok None, st1) ->
        deals = [] /\ st' = st1) /\
    (forall items st1,
        priced_search keyword min_discount min_price st
          = Some (Ok (Some items), st1) ->
        deals = sort_desc discount_percent
                  (flat_map (contribution (extract_deal min_discount)) items) /\
        st' = st1).
Proof.
  destruct (priced_search_total keyword min_discount min_price st)
    as (r & st1 & Hsearch).
  assert (Hrun : find_deals_by_keyword keyword min_discount min_price st =
                 match r with
                 | Ok (Some items) =>
                     Some (Ok (sort_desc discount_percent
                                 (flat_map (contribution
                                              (extract_deal min_discount))
                                           items)), st1)
                 | _ => Some (Ok [], st1)
                 end).
  { revert Hsearch.
    unfold find_deals_by_keyword, priced_search, bind, try_catch, lift, ret.
    destruct (cents_of min_price) as [cents|e].
    - intros ->. destruct r as [[items|]|e]; try reflexivity.
      now rewrite process_items_contribution.
    - intros [= <- <-]. reflexivity. }
  rewrite Hrun, Hsearch.
  destruct r as [[items|]|e]; eexists _, _; (split; [reflexivity|]);
    repeat split; intros; try discriminate; congruence.
Qed.
End SweepProperties.

(** ** The properties at work on the sample catalogue *)

Lemma no_deal_without_saving_basis_witness :
  process_item (R := decimal_runtime) (extract_deal 20) [] undiscounted_item
    = Ok [] /\
  process_item (R := decimal_runtime) extract_deal_fetcher [] undiscounted_item
    = Ok [].
Proof.
  destruct (no_deal_without_saving_basis (R := decimal_runtime) 20
              undiscounted_item []) as (Hlack & _).
  apply Hlack. intros listing [= <-]. reflexivity.
Defined.

Lemma item_loop_never_raises_witness :
  exists d,
    process_items (R := decimal_runtime) (extract_deal 20)
                  [discounted_item; malformed_item; discounted_item] []
      = Ok [d; d] /\
    discount_percent d = 20.
Proof.
  destruct (item_loop_never_raises (R := decimal_runtime) (extract_deal 20)
              [discounted_item; malformed_item; discounted_item] [])
    as (_ & Hskip & _).
  rewrite (Hskip [discounted_item] malformed_item [discounted_item]
                 (TypeError "object is not subscriptable") eq_refl eq_refl).
  vm_compute. eexists. split; reflexivity.
Defined.

Lemma sweep_survives_failures_witness :
  exists d st' t' st2,
    sweep (R := decimal_runtime) ["chips snacks"; "trail mix"]%string 20
          (Fin 5 0) [] sample_state
      = Some (Ok [d], st') /\
    asin d = PStr "B000000002" /\ discount_percent d = 20 /\
    fetch_sweep (R := decimal_runtime) ["chips snacks"; "trail mix"]%string
                (@Tally decimal_runtime [] 0 0) sample_state
      = Some (Ok t', st2) /\
    db t' = [d] /\ deals_found t' = 1 /\ deals_saved t' = 1.
Proof.
  destruct (sweep_survives_failures (R := decimal_runtime)
              ["chips snacks"; "trail mix"]%string 20 (Fin 5 0) []
              (@Tally decimal_runtime [] 0 0) sample_state)
    as (_ & _ & Hfail & Hfetch & Hsaved).
  edestruct Hfail as (found & st' & Hfound & Hrun);
    [reflexivity|vm_compute; reflexivity|].
  vm_compute in Hfound. injection Hfound as <- <-.
  edestruct Hfetch as (founds & st2 & Hfounds & Hrun2);
    [reflexivity|vm_compute; reflexivity|].
  vm_compute in Hfounds. injection Hfounds as <- <-.
  match type of Hrun2 with
  | _ = Some (Ok (saved ?founds _), _) =>
      destruct (Hsaved founds) as (Hdb & Hf & Hn)
  end.
  eexists _, _, _, _. split; [exact Hrun|]. split; [reflexivity|].
  split; [reflexivity|]. split; [exact Hrun2|].
  rewrite Hdb, Hf, Hn. repeat split; vm_compute; reflexivity.
Defined.

Lemma find_deals_by_keyword_never_raises_witness :
  exists st1 st2,
    find_deals_by_keyword (R := decimal_runtime) "chips snacks" 20 (Fin 5 0)
                          sample_state = Some (Ok [], st1) /\
    find_deals_by_keyword (R := decimal_runtime) "popcorn snacks" 20 (Fin 5 0)
                          sample_state = Some (Ok [], st2).
Proof.
  destruct (find_deals_by_keyword_never_raises (R := decimal_runtime)
              "chips snacks" 20 (Fin 5 0) sample_state)
    as (d1 & st1 & Hrun1 & Hraise & _).
  destruct (find_deals_by_keyword_never_raises (R := decimal_runtime)
              "popcorn snacks" 20 (Fin 5 0) sample_state)
    as (d2 & st2 & Hrun2 & _ & Hnone & _).
  exists st1, st2. split.
  - edestruct Hraise as [-> _]; [vm_compute; reflexivity|exact Hrun1].
  - edestruct Hnone as [-> _]; [vm_compute; reflexivity|exact Hrun2].
Defined.

(** * Further properties *)

(** ** The retry ladder in general *)

Lemma ladder_from_succ (retries : Z) (k : nat) :
  ladder_from retries (S k) =
  inject_Z (30 * 2 ^ (retries + 1)) :: ladder_from (retries + 1) k.
Proof.
  unfold ladder_from. cbn [seq map]. f_equal.
  rewrite <- seq_shift, map_map. apply map_ext. intros i.
  do 3 f_equal. lia.
Qed.

Lemma retry_loop_ladder {A} (func : callable A) (fuel : nat) :
  forall retries st r st',
    retry_loop fuel func retries st = Some (r, st') ->
    exists evs k,
      trace (env st') = evs ++ trace (env st) /\
      backoff_sleeps (rev evs) = ladder_from retries k /\
      List.length (dispatch_times evs) =
        (if retries <=? max_retries (self st) then S k else O) /\
      (k <> O -> retries + Z.of_nat k <= max_retries (self st)) /\
      (clock (env st') ==
       clock (env st) + sumQ (ladder_from retries k)
       + latencies func (dispatched (env st))
                   (List.length (dispatch_times evs)))%Q.
Proof.
  induction fuel as [|fuel IH]; intros retries st r st' Hrun; [discriminate|].
  rewrite retry_loop_unfold in Hrun. cbv zeta in Hrun.
  destruct (Z.leb_spec retries (max_retries (self st))) as [Hle|Hgt].
  2:{ injection Hrun as <- <-. exists [], O. cbn.
      repeat split; try reflexivity; try lia. ring. }
  set (a := func (dispatched (env st))) in *.
  assert (Hone : forall r0, Some (r0, after_dispatch a st) = Some (r, st') ->
            exists evs k,
              trace (env st') = evs ++ trace (env st) /\
              backoff_sleeps (rev evs) = ladder_from retries k /\
              List.length (dispatch_times evs) = S k /\
              (k <> O -> retries + Z.of_nat k <= max_retries (self st)) /\
              (clock (env st') ==
               clock (env st) + sumQ (ladder_from retries k)
               + latencies func (dispatched (env st))
                           (List.length (dispatch_times evs)))%Q).
  { intros r0 [= <- <-]. exists [Dispatch (clock (env st))], O. cbn.
    repeat split; try reflexivity; try lia. fold a. ring. }
  destruct (outcome a) as [v|e]; [now apply (Hone (Ok (Some v)))|].
  destruct (is_rate_limit e); [|now apply (Hone (Raise e))].
  destruct (Z.gtb_spec (retries + 1) (max_retries (self st))) as [Hgt|Hle'];
    [now apply (Hone (Raise e))|].
  clear Hone. apply IH in Hrun.
  destruct Hrun as (evs & k & Ht & Hb & Hd & Hk & Hclk).
  cbn [after_backoff after_dispatch self env trace clock max_retries
       dispatched] in *.
  destruct (Z.leb_spec (retries + 1) (max_retries (self st))); [|lia].
  exists (evs ++ [Backoff (inject_Z (30 * 2 ^ (retries + 1)));
                  Dispatch (clock (env st))]), (S k).
  split; [rewrite Ht, <- app_assoc; reflexivity|].
  split.
  { rewrite rev_app_distr. cbn [rev app backoff_sleeps].
    rewrite Hb. symmetry. apply ladder_from_succ. }
  rewrite dispatch_times_app, length_app. cbn [dispatch_times List.length].
  rewrite Hd. split; [lia|]. split; [destruct k; lia|].
  rewrite Hd in Hclk.
  rewrite Hclk, ladder_from_succ. replace (S k + 1)%nat with (S (S k)) by lia.
  cbn [sumQ]. change (latencies func (dispatched (env st)) (S (S k)))
    with (latency a + latencies func (S (dispatched (env st))) (S k))%Q.
  ring.
Qed.

Lemma sumQ_ladder (retries : Z) (k : nat) :
  0 <= retries ->
  (sumQ (ladder_from retries k) ==
   inject_Z (30 * 2 ^ (retries + 1) * (2 ^ Z.of_nat k - 1)))%Q.
Proof.
  revert retries. induction k as [|k IH]; intros retries Hr.
  - cbn. rewrite Z.mul_0_r. reflexivity.
  - rewrite ladder_from_succ. cbn [sumQ]. rewrite IH by lia.
    rewrite <- inject_Z_plus. apply inject_Z_injective.
    replace (retries + 1 + 1) with (Z.succ (retries + 1)) by lia.
    rewrite Nat2Z.inj_succ, !Z.pow_succ_r by lia. ring.
Qed.

Lemma backoff_sleeps_rev (l : list event) :
  backoff_sleeps (rev l) = rev (backoff_sleeps l).
Proof.
  induction l as [|ev l IH]; [reflexivity|].
  cbn [rev]. rewrite backoff_sleeps_app, IH.
  destruct ev; cbn; now rewrite ?app_nil_r.
Qed.

Lemma sumQ_app (l1 l2 : list Q) : (sumQ (l1 ++ l2) == sumQ l1 + sumQ l2)%Q.
Proof. induction l1 as [|x l1 IH]; cbn; [ring|]. rewrite IH. ring. Qed.

Lemma sumQ_rev (l : list Q) : (sumQ (rev l) == sumQ l)%Q.
Proof.
  induction l as [|x l IH]; [reflexivity|].
  cbn [rev]. rewrite sumQ_app, IH. cbn. ring.
Qed.

(** Every call climbs a prefix of the same ladder: its backoff sleeps are
    [30 * 2^1], ..., [30 * 2^k] seconds for some [k <= max_retries], it
    dispatches [k + 1] times (never, and returns [None], when
    [max_retries] is negative) and raises the interval by [5 * k]. *)
Theorem backoff_ladder_general {A} (func : callable A) (st : state) :
  exists r st' evs k,
    _throttled_request func st = Some (r, st') /\
    trace (env st') = evs ++ pacing st ++ trace (env st) /\
    backoff_sleeps (rev evs) = ladder_from 0 k /\
    Z.of_nat k <= Z.max 0 (max_retries (self st)) /\
    List.length (dispatch_times evs) =
      (if 0 <=? max_retries (self st) then S k else O) /\
    (max_retries (self st) < 0 -> r = Ok None) /\
    (min_request_interval (self st') ==
     min_request_interval (self st) + 5 * inject_Z (Z.of_nat k))%Q /\
    (sumQ (backoff_sleeps evs) == inject_Z (60 * (2 ^ Z.of_nat k - 1)))%Q.
Proof.
  destruct (throttled_request_interval func st)
    as (r & st' & evs & Hrun & Ht & _ & _ & _ & Hmin).
  exists r, st', evs. pose proof Hrun as Hrun'.
  rewrite throttled_request_unfold in Hrun'.
  pose proof (retry_loop_events _ _ _ _ _ _ Hrun')
    as (evs0 & Ht0 & _ & _ & _ & _ & _ & Hnone).
  apply retry_loop_ladder in Hrun'.
  destruct Hrun' as (evs' & k & Ht' & Hb & Hd & Hk & _).
  rewrite paced_trace, app_assoc in Ht', Ht0. rewrite app_assoc in Ht.
  rewrite Ht in Ht', Ht0. apply app_inv_tail, app_inv_tail in Ht', Ht0.
  subst evs' evs0. rewrite paced_self in Hd, Hk.
  exists k. split; [exact Hrun|]. split; [now rewrite <- app_assoc in Ht|].
  split; [exact Hb|]. split; [destruct k; lia|]. split; [exact Hd|].
  split.
  { intros Hneg. destruct (Z.leb_spec 0 (max_retries (self st))); [lia|].
    apply length_zero_iff_nil in Hd. now apply Hnone. }
  assert (Hlen : List.length (backoff_sleeps evs) = k).
  { rewrite <- length_rev, <- backoff_sleeps_rev, Hb.
    unfold ladder_from. now rewrite length_map, length_seq. }
  split; [now rewrite Hmin, Hlen|].
  rewrite <- sumQ_rev, <- backoff_sleeps_rev, Hb, sumQ_ladder by lia.
  apply inject_Z_injective. change (2 ^ (0 + 1)) with 2. ring.
Qed.

(** ** How a call ends *)

Lemma retry_loop_runs_to {A} (func : callable A) (final : result A)
      (k : nat) :
  (forall e, final = Raise e -> is_rate_limit e = false) ->
  forall fuel retries st,
    (k < fuel)%nat ->
    retries + Z.of_nat k <= max_retries (self st) ->
    (forall i, (i < k)%nat ->
               exists e, outcome (func (dispatched (env st) + i)%nat) = Raise e /\
                         is_rate_limit e = true) ->
    outcome (func (dispatched (env st) + k)%nat) = final ->
    exists st',
      retry_loop fuel func retries st = Some (returned final, st') /\
      dispatched (env st') = (S k + dispatched (env st))%nat.
Proof.
  intros Hfinal. induction k as [|k IH]; intros fuel retries st Hfuel Hk Hfail Hend.
  - destruct fuel as [|fuel]; [lia|].
    rewrite retry_loop_unfold. cbv zeta.
    destruct (Z.leb_spec retries (max_retries (self st))); [|lia].
    rewrite Nat.add_0_r in Hend. rewrite Hend.
    destruct final as [v|e]; [eauto|].
    rewrite (Hfinal e eq_refl). eauto.
  - destruct fuel as [|fuel]; [lia|].
    rewrite retry_loop_unfold. cbv zeta.
    destruct (Z.leb_spec retries (max_retries (self st))); [|lia].
    destruct (Hfail O ltac:(lia)) as (e & He & Hrate).
    rewrite Nat.add_0_r in He. rewrite He, Hrate.
    destruct (Z.gtb_spec (retries + 1) (max_retries (self st))); [lia|].
    edestruct IH as (st' & Hrun & Hd); [| | |
      |exists st'; split; [exact Hrun|]];
      cbn [after_backoff after_dispatch self env max_retries dispatched] in *.
    + lia.
    + lia.
    + intros i Hi. destruct (Hfail (S i) ltac:(lia)) as (e' & He' & Hr').
      exists e'. split; [|exact Hr'].
      replace (S (dispatched (env st)) + i)%nat
        with (dispatched (env st) + S i)%nat by lia. exact He'.
    + replace (S (dispatched (env st)) + k)%nat
        with (dispatched (env st) + S k)%nat by lia. exact Hend.
    + lia.
Qed.

(** After [k <= max_retries] attempts that fail with the rate-limit
    signature, an attempt that returns, or that fails without the
    signature, ends the call: its value is returned, or its exception is
    raised at once, after [k + 1] dispatches, the sleeps [30 * 2^1], ...,
    [30 * 2^k] and an interval raised by [5 * k]. *)
Theorem call_ends_at_other_outcome {A} (func : callable A) (st : state)
        (k : nat) (final : result A) :
  Z.of_nat k <= max_retries (self st) ->
  (forall i, (i < k)%nat ->
             exists e, outcome (func (dispatched (env st) + i)%nat) = Raise e /\
                       is_rate_limit e = true) ->
  outcome (func (dispatched (env st) + k)%nat) = final ->
  (forall e, final = Raise e -> is_rate_limit e = false) ->
  exists st' evs,
    _throttled_request func st = Some (returned final, st') /\
    trace (env st') = evs ++ pacing st ++ trace (env st) /\
    backoff_sleeps (rev evs) = ladder_from 0 k /\
    List.length (dispatch_times evs) = S k /\
    (min_request_interval (self st') ==
     min_request_interval (self st) + 5 * inject_Z (Z.of_nat k))%Q.
Proof.
  intros Hk Hfail Hend Hfinal.
  destruct (retry_loop_runs_to func final k Hfinal
              (S (Z.to_nat (max_retries (self st) + 1))) 0 (paced st))
    as (st' & Hloop & Hcount).
  { lia. }
  { rewrite paced_self. lia. }
  { now rewrite paced_dispatched. }
  { now rewrite paced_dispatched. }
  pose proof (retry_loop_events _ _ _ _ _ _ Hloop)
    as (evs & Ht & _ & _ & _ & Hmin & Hdisp & _).
  pose proof (retry_loop_ladder _ _ _ _ _ _ Hloop)
    as (evs' & k' & Ht' & Hb & Hd & _ & _).
  rewrite Ht in Ht'. apply app_inv_tail in Ht'. subst evs'.
  rewrite paced_self in Hd, Hmin. rewrite paced_trace in Ht.
  destruct (Z.leb_spec 0 (max_retries (self st))); [|lia].
  assert (k' = k) as -> by lia.
  assert (Hlen : List.length (backoff_sleeps evs) = k).
  { rewrite <- length_rev, <- backoff_sleeps_rev, Hb.
    unfold ladder_from. now rewrite length_map, length_seq. }
  exists st', evs. rewrite throttled_request_unfold.
  split; [exact Hloop|]. split; [exact Ht|]. split; [exact Hb|].
  split; [exact Hd|]. now rewrite Hmin, Hlen.
Qed.

Lemma call_ends_at_other_outcome_witness :
  let limited : callable pyval :=
    fun n => match n with
             | O | 1%nat =>
                 Attempt (Raise (Exn "ApiException" "TooManyRequests")) 1
             | _ => Attempt (Raise (Exn "ApiException" "InvalidParameterValue")) 1
             end in
  let st := {| self := init (fun _ => limited);
               env := {| clock := 1000; dispatched := 0; trace := [] |} |} in
  exists st',
    _throttled_request limited st
      = Some (Raise (Exn "ApiException" "InvalidParameterValue"), st') /\
    history (env st') =
      [Dispatch 1000; Backoff 60; Dispatch 1061; Backoff 120; Dispatch 1182].
Proof.
  intros limited st.
  destruct (call_ends_at_other_outcome limited st 2
              (Raise (Exn "ApiException" "InvalidParameterValue")))
    as (st' & evs & Hrun & _).
  - vm_compute. discriminate.
  - intros [|[|i]] Hi; [eexists; split; reflexivity..|lia].
  - reflexivity.
  - intros e [= <-]. reflexivity.
  - exists st'. split; [exact Hrun|].
    vm_compute in Hrun. injection Hrun as <-. reflexivity.
Defined.

(** ** How long a call asks to sleep *)

Lemma sleeps_app (l1 l2 : list event) :
  sleeps (l1 ++ l2) = sleeps l1 ++ sleeps l2.
Proof.
  induction l1 as [|[]]; simpl; auto; now f_equal.
Qed.

Lemma retry_loop_sleeps {A} (func : callable A) (fuel : nat) :
  forall retries st r st',
    retry_loop fuel func retries st = Some (r, st') ->
    exists evs,
      trace (env st') = evs ++ trace (env st) /\
      sleeps evs = backoff_sleeps evs.
Proof.
  induction fuel as [|fuel IH]; intros retries st r st' Hrun; [discriminate|].
  rewrite retry_loop_unfold in Hrun. cbv zeta in Hrun.
  destruct (retries <=? max_retries (self st)).
  2:{ injection Hrun as <- <-. exists []. split; reflexivity. }
  set (a := func (dispatched (env st))) in *.
  assert (Hone : forall r0, Some (r0, after_dispatch a st) = Some (r, st') ->
            exists evs,
              trace (env st') = evs ++ trace (env st) /\
              sleeps evs = backoff_sleeps evs).
  { intros r0 [= <- <-]. exists [Dispatch (clock (env st))].
    split; reflexivity. }
  destruct (outcome a) as [v|e]; [now apply (Hone (Ok (Some v)))|].
  destruct (is_rate_limit e); [|now apply (Hone (Raise e))].
  destruct (retries + 1 >? max_retries (self st)); [now apply (Hone (Raise e))|].
  clear Hone. apply IH in Hrun. destruct Hrun as (evs & Ht & Hs).
  exists (evs ++ [Backoff (inject_Z (30 * 2 ^ (retries + 1)));
                  Dispatch (clock (env st))]).
  cbn [after_backoff after_dispatch env trace] in Ht.
  split; [rewrite Ht, <- app_assoc; reflexivity|].
  rewrite sleeps_app, backoff_sleeps_app, Hs. reflexivity.
Qed.

(** The durations that one call hands to [time.sleep], for pacing and for
    backoff together, add up to at most
    [min_request_interval + 60 * (2^max_retries - 1)] seconds when
    [max_retries >= 0] and the last dispatch is not in the future: 430
    seconds with the interval 10 and the 3 retries of a new finder. This
    bounds what the call asks for, not the time the sleeps take. *)
Theorem call_sleep_bounded {A} (func : callable A) (st : state) :
  0 <= max_retries (self st) ->
  (last_request_time (self st) <= clock (env st))%Q ->
  (0 <= min_request_interval (self st))%Q ->
  exists r st' evs,
    _throttled_request func st = Some (r, st') /\
    trace (env st') = evs ++ trace (env st) /\
    (0 <= sumQ (sleeps evs))%Q /\
    (sumQ (sleeps evs) <=
     min_request_interval (self st)
     + inject_Z (60 * (2 ^ max_retries (self st) - 1)))%Q.
Proof.
  intros Hmr Hlast HT.
  destruct (throttled_request_total func st) as (r & st' & Hrun).
  pose proof Hrun as Hrun'. rewrite throttled_request_unfold in Hrun'.
  pose proof (retry_loop_sleeps _ _ _ _ _ _ Hrun') as (evs & Ht & Hs).
  apply retry_loop_ladder in Hrun'.
  destruct Hrun' as (evs' & k & Ht' & Hb & Hd & Hk & _).
  rewrite Ht in Ht'. apply app_inv_tail in Ht'. subst evs'.
  rewrite paced_self in Hd, Hk. rewrite paced_trace in Ht.
  exists r, st', (evs ++ pacing st).
  split; [exact Hrun|]. split; [now rewrite <- app_assoc|].
  assert (Hkmr : Z.of_nat k <= max_retries (self st)) by (destruct k; lia).
  assert (Hback : (sumQ (sleeps evs)
                   == inject_Z (60 * (2 ^ Z.of_nat k - 1)))%Q).
  { rewrite Hs, <- sumQ_rev, <- backoff_sleeps_rev, Hb, sumQ_ladder by lia.
    apply inject_Z_injective. change (2 ^ (0 + 1)) with 2. ring. }
  assert (Hbound : (0 <= inject_Z (60 * (2 ^ Z.of_nat k - 1)))%Q /\
                   (inject_Z (60 * (2 ^ Z.of_nat k - 1))
                    <= inject_Z (60 * (2 ^ max_retries (self st) - 1)))%Q).
  { change 0%Q with (inject_Z 0). rewrite <- !Zle_Qle.
    assert (1 <= 2 ^ Z.of_nat k) by (apply Z.pow_le_mono_r with (b := 0); lia).
    assert (2 ^ Z.of_nat k <= 2 ^ max_retries (self st))
      by (apply Z.pow_le_mono_r; lia).
    lia. }
  assert (Hpace : (0 <= sumQ (sleeps (pacing st)))%Q /\
                  (sumQ (sleeps (pacing st))
                   <= min_request_interval (self st))%Q).
  { unfold pacing, elapsed. destruct (Qltb _ _) eqn:E; cbn.
    - apply Qltb_lt in E. split; lra.
    - split; lra. }
  rewrite sleeps_app, sumQ_app, Hback.
  destruct Hbound, Hpace. split; lra.
Qed.

Lemma call_sleep_bounded_witness :
  let slow : callable pyval :=
    fun _ => Attempt (Raise (Exn "ApiException" "Too Many Requests")) 2 in
  let st := {| self := init (fun _ => slow);
               env := {| clock := 5; dispatched := 0; trace := [] |} |} in
  exists r st' evs,
    _throttled_request slow st = Some (r, st') /\
    trace (env st') = evs ++ [] /\
    (sumQ (sleeps evs) <= 10 + 420)%Q.
Proof.
  intros slow st.
  destruct (call_sleep_bounded slow st) as (r & st' & evs & Hrun & Ht & _ & Hle).
  - discriminate.
  - discriminate.
  - discriminate.
  - exists r, st', evs. split; [exact Hrun|]. split; [exact Ht|exact Hle].
Defined.

(** ** The pacing sleep *)

(** When the last dispatch is not in the future, a call sleeps at most
    once before dispatching, for more than 0 and at most
    [min_request_interval] seconds, and not at all once that interval has
    passed since the last dispatch. *)
Theorem pacing_sleep_bounded {A} (func : callable A) (st : state) :
  (last_request_time (self st) <= clock (env st))%Q ->
  exists r st' evs,
    _throttled_request func st = Some (r, st') /\
    trace (env st') = evs ++ pacing st ++ trace (env st) /\
    throttle_sleeps evs = [] /\
    (List.length (pacing st) <= 1)%nat /\
    Forall (fun d => (0 < d)%Q /\ (d <= min_request_interval (self st))%Q)
           (throttle_sleeps (pacing st)) /\
    ((min_request_interval (self st) <= elapsed st)%Q -> pacing st = []).
Proof.
  intros Hlast.
  destruct (throttled_request_interval func st)
    as (r & st' & evs & Hrun & Ht & Hth & _).
  exists r, st', evs. split; [exact Hrun|]. split; [exact Ht|].
  split; [exact Hth|]. unfold pacing, elapsed.
  destruct (Qltb _ _) eqn:E; cbn.
  - apply Qltb_lt in E. split; [lia|]. split.
    + constructor; [split; lra|constructor].
    + intros H. lra.
  - split; [lia|]. split; [constructor|reflexivity].
Qed.

Lemma pacing_sleep_bounded_witness :
  let f : callable pyval := fun _ => Attempt (Ok PNone) 1 in
  let st := {| self := {| client := None; last_request_time := 996;
                          min_request_interval := 10; max_retries := 3 |};
               env := {| clock := 1000; dispatched := 0; trace := [] |} |} in
  exists st',
    _throttled_request f st = Some (Ok (Some PNone), st') /\
    history (env st') = [Throttle 6; Dispatch 1006].
Proof.
  intros f st.
  destruct (pacing_sleep_bounded f st) as (r & st' & evs & Hrun & _);
    [discriminate|].
  exists st'. vm_compute in Hrun. injection Hrun as <- <-.
  split; reflexivity.
Defined.

(** ** More on the discount evaluator *)

Lemma fix_zero (e : Z) : exists e', fix_ 0 e = Ok (Fin 0 e').
Proof. unfold fix_. cbn. eauto. Qed.

(** Equal prices give a discount of 0, whatever the price: positive,
    zero, negative, infinite or NaN. *)
Theorem calculate_discount_equal_prices (p : Decimal) :
  calculate_discount p p = Ok 0.
Proof.
  unfold calculate_discount, calculate_discount_body.
  destruct p as [c e|[|]|s]; try reflexivity.
  rewrite !le_zero_fin. destruct (Z.leb_spec c 0); [reflexivity|].
  cbn [rbind sub]. rewrite Z.sub_diag.
  destruct (fix_zero (Z.min e e)) as (e1 & ->). cbn [rbind div].
  destruct (Z.eqb_spec c 0); [lia|]. cbn [Z.eqb].
  destruct (fix_zero (e1 - e)) as (e2 & ->). cbn [rbind mul of_int].
  rewrite Z.mul_0_l. destruct (fix_zero (e2 + 0)) as (e3 & ->).
  cbn [rbind to_int try_except].
  destruct (0 <=? e3); [now rewrite Z.mul_0_l|reflexivity].
Qed.

(** An infinite or NaN price, current or original, gives 0: the
    comparison or the arithmetic raises, or the guard applies. *)
Theorem calculate_discount_not_finite (current_price original_price : Decimal) :
  is_finite current_price && is_finite original_price = false ->
  calculate_discount current_price original_price = Ok 0.
Proof.
  unfold calculate_discount, calculate_discount_body.
  destruct original_price as [oc oe|[|]|so];
    destruct current_price as [cc ce|[|]|sc];
    cbn [is_finite andb]; try discriminate; intros _; try reflexivity;
    rewrite ?le_zero_fin.
  - (* finite original, current = -Infinity *)
    destruct (oc <=? 0); reflexivity.
  - (* finite original, current = +Infinity *)
    destruct (Z.leb_spec oc 0); [reflexivity|].
    cbn [rbind le of_int sub negb div xorb].
    destruct (Z.ltb_spec oc 0); [lia|]. reflexivity.
  - (* finite original, current NaN *)
    destruct (oc <=? 0); reflexivity.
  - (* original = +Infinity, finite current *)
    destruct (cc <=? 0); reflexivity.
Qed.

Lemma calculate_discount_not_finite_witness :
  calculate_discount (Fin 5 0) (Inf false) = Ok 0 /\
  calculate_discount (NaN false) (Fin 10 0) = Ok 0.
Proof.
  split; apply calculate_discount_not_finite; reflexivity.
Defined.

(** For prices in the same unit [10^e], of at most 26 digits, with
    [0 < current < original]: the discount is between 0 and 99, and a
    lower current price never gives a lower discount. *)
Theorem calculate_discount_range_antitone (C1 C2 O e : Z) :
  0 < C1 -> C1 <= C2 -> C2 < O -> O < 10 ^ 26 -> Etiny <= e <= Emax - 25 ->
  exists z1 z2,
    calculate_discount (Fin C1 e) (Fin O e) = Ok z1 /\
    calculate_discount (Fin C2 e) (Fin O e) = Ok z2 /\
    0 <= z2 /\ z2 <= z1 /\ z1 <= 99.
Proof.
  intros H1 H12 H2 HO He.
  pose proof (calculate_discount_aligned C1 e O e) as R1.
  pose proof (calculate_discount_aligned C2 e O e) as R2.
  cbv zeta in R1, R2. rewrite Z.min_id, Z.sub_diag in R1, R2.
  change (10 ^ 0) with 1 in R1, R2. rewrite !Z.mul_1_r in R1, R2.
  rewrite R1, R2 by lia.
  eexists _, _. split; [reflexivity|]. split; [reflexivity|].
  split; [apply Z.div_pos; lia|]. split.
  - apply Z.div_le_mono; lia.
  - assert ((100 * (O - C1)) / O < 100); [|lia].
    apply Z.div_lt_upper_bound; lia.
Qed.

Lemma calculate_discount_range_antitone_witness :
  calculate_discount (Fin 799 (-2)) (Fin 1999 (-2)) = Ok 60 /\
  calculate_discount (Fin 1299 (-2)) (Fin 1999 (-2)) = Ok 35.
Proof.
  destruct (calculate_discount_range_antitone 799 1299 1999 (-2))
    as (z1 & z2 & H1 & H2 & _);
    [reflexivity|discriminate|reflexivity|reflexivity|split; discriminate|].
  vm_compute in H1, H2. injection H1 as <-. injection H2 as <-.
  split; reflexivity.
Defined.

(** ** The deals the extractor builds *)

Section DealProperties.
Context {R : Runtime}.

(** A deal of [find_deals_by_keyword] or [find_best_deals] has a discount
    of at least [min_discount], computed by [calculate_discount] from the
    two amounts of the item's first listing; it is not posted; its ASIN
    is the item's [asin], or "unknown"; its title is the item's
    [item_info.title.display_value], or "Unknown Product" when an
    attribute on the way is missing; its image is the item's
    [images.primary.medium.url], or [None]; its link is built from the
    ASIN and the associate tag, "None" when the tag is not set. *)
Theorem extracted_deal_shape (min_discount : Z) (item : pyval)
        (d : deal float) :
  extract_deal min_discount item = Ok (Some d) ->
  min_discount <= discount_percent d /\
  posted d = false /\
  asin d = match attr item "asin" with
           | Some a => a
           | None => PStr "unknown"
           end /\
  title d = match path item ["item_info"; "title"; "display_value"]%string with
            | Some display_value => display_value
            | None => PStr "Unknown Product"
            end /\
  image_url d = match path item ["images"; "primary"; "medium"; "url"]%string with
                | Some u => u
                | None => PNone
                end /\
  url d = ("https://www.amazon.com/dp/" ++ py_str (asin d) ++ "?tag="
           ++ match associate_tag with
              | Some tag => tag
              | None => "None"
              end)%string /\
  exists listing amount basis current original,
    first_listing item = Ok (Some listing) /\
    amount_of listing "price" = Some amount /\
    amount_of listing "saving_basis" = Some basis /\
    to_decimal amount = Ok current /\
    to_decimal basis = Ok original /\
    calculate_discount current original = Ok (discount_percent d) /\
    float_of_decimal current = Ok (price d) /\
    float_of_decimal original = Ok (original_price d).
Proof.
  unfold extract_deal.
  destruct (first_listing item) as [[listing|]|e]; cbn; try discriminate.
  destruct (amount_of listing "price") as [amount|] eqn:Ha; try discriminate.
  destruct (to_decimal amount) as [current|] eqn:Hc; cbn; try discriminate.
  destruct (amount_of listing "saving_basis") as [basis|] eqn:Hb;
    try discriminate.
  destruct (to_decimal basis) as [original|] eqn:Ho; cbn; try discriminate.
  destruct (calculate_discount current original) as [discount|] eqn:Hd;
    cbn; try discriminate.
  destruct (Z.leb_spec min_discount discount); try discriminate.
  destruct (float_of_decimal current) as [p|] eqn:Hp; cbn; try discriminate.
  destruct (float_of_decimal original) as [o|] eqn:Hf; cbn; try discriminate.
  intros [= <-]. cbn [discount_percent posted asin title image_url url price
                      original_price].
  split; [assumption|]. split; [reflexivity|].
  split; [reflexivity|].
  split.
  { unfold item_title. cbn [path].
    destruct (attr item "item_info") as [info|]; [|reflexivity].
    destruct (attr info "title") as [t|]; [|reflexivity].
    now destruct (attr t "display_value"). }
  split.
  { unfold item_image_url. cbn [path].
    destruct (attr item "images") as [images|]; [|reflexivity].
    destruct (attr images "primary") as [primary|]; [|reflexivity].
    destruct (attr primary "medium") as [medium|]; [|reflexivity].
    now destruct (attr medium "url"). }
  split; [reflexivity|].
  exists listing, amount, basis, current, original. auto 10.
Qed.

(** A deal of [fetch_daily_deals] has a discount of at least 15, computed
    on the floats of the two amounts of the item's first listing. *)
Theorem fetched_deal_shape (item : pyval) (d : deal float) :
  extract_deal_fetcher item = Ok (Some d) ->
  15 <= discount_percent d /\
  posted d = false /\
  asin d = item_asin item /\
  url d = deal_url (item_asin item) /\
  exists listing amount basis,
    first_listing item = Ok (Some listing) /\
    amount_of listing "price" = Some amount /\
    amount_of listing "saving_basis" = Some basis /\
    float_of_pyval amount = Ok (price d) /\
    float_of_pyval basis = Ok (original_price d) /\
    float_percent (price d) (original_price d) = Ok (discount_percent d).
Proof.
  unfold extract_deal_fetcher.
  destruct (first_listing item) as [[listing|]|e]; cbn; try discriminate.
  destruct (amount_of listing "price") as [amount|] eqn:Ha; try discriminate.
  destruct (float_of_pyval amount) as [current|] eqn:Hc; cbn; try discriminate.
  destruct (amount_of listing "saving_basis") as [basis|] eqn:Hb;
    try discriminate.
  destruct (float_of_pyval basis) as [original|] eqn:Ho; cbn; try discriminate.
  destruct (float_percent current original) as [discount|] eqn:Hd;
    cbn; try discriminate.
  destruct (Z.leb_spec 15 discount); try discriminate.
  intros [= <-]. cbn. repeat (split; [easy|]).
  exists listing, amount, basis. auto 10.
Qed.

Lemma first_listing_absent (item : pyval) :
  attr item "offers" = None \/
  (exists offers, attr item "offers" = Some offers /\
                  (truthy offers = false \/
                   attr offers "listings" = None \/
                   exists listings, attr offers "listings" = Some listings /\
                                    truthy listings = false)) ->
  first_listing item = Ok None.
Proof.
  unfold first_listing.
  intros [->|(offers & -> & [->|[H|(listings & H & Hl)]])]; try reflexivity.
  - destruct (truthy offers); cbn; [now rewrite H|reflexivity].
  - destruct (truthy offers); cbn; [|reflexivity]. now rewrite H, Hl.
Qed.

(** An item without an [offers] attribute, with falsy offers (such as
    [None]), without [listings] or with falsy listings (such as an empty
    list), or whose first listing has no [price.amount], adds no deal, in
    either extractor. *)
Theorem no_deal_without_listing_or_price (min_discount : Z) (item : pyval)
        (deals : list (deal float)) :
  attr item "offers" = None \/
  (exists offers, attr item "offers" = Some offers /\
                  (truthy offers = false \/
                   attr offers "listings" = None \/
                   exists listings, attr offers "listings" = Some listings /\
                                    truthy listings = false)) \/
  (exists listing, first_listing item = Ok (Some listing) /\
                   amount_of listing "price" = None) ->
  process_item (extract_deal min_discount) deals item = Ok deals /\
  process_item extract_deal_fetcher deals item = Ok deals.
Proof.
  intros H.
  assert (H' : first_listing item = Ok None \/
               exists listing, first_listing item = Ok (Some listing) /\
                               amount_of listing "price" = None).
  { destruct H as [H|[H|H]]; [left|left|right; exact H];
      apply first_listing_absent; auto. }
  unfold process_item, extract_deal, extract_deal_fetcher.
  destruct H' as [->|(listing & -> & Hp)]; cbn; [auto|]. rewrite Hp. auto.
Qed.

End DealProperties.

Lemma extracted_deal_shape_witness :
  exists d,
    extract_deal (R := decimal_runtime) 20 described_item = Ok (Some d) /\
    discount_percent d = 20 /\
    asin d = PStr "B000000004" /\
    title d = PStr "Snack Box" /\
    image_url d = PStr "https://m.media-amazon.com/1.jpg" /\
    url d = "https://www.amazon.com/dp/B000000004?tag=goinup-20"%string.
Proof.
  eexists. split; [vm_compute; reflexivity|].
  match goal with
  | |- discount_percent ?d = _ /\ _ =>
      assert (He : extract_deal (R := decimal_runtime) 20 described_item
                   = Ok (Some d)) by (vm_compute; reflexivity);
      destruct (extracted_deal_shape (R := decimal_runtime) 20
                  described_item d He)
        as (_ & _ & Hasin & Htitle & Himage & Hurl & _)
  end.
  split; [reflexivity|]. split; [exact Hasin|]. split; [exact Htitle|].
  split; [exact Himage|]. rewrite Hurl. reflexivity.
Defined.

Lemma fetched_deal_shape_witness :
  exists d,
    extract_deal_fetcher (R := decimal_runtime) discounted_item = Ok (Some d) /\
    15 <= discount_percent d.
Proof.
  eexists. split; [vm_compute; reflexivity|].
  match goal with
  | |- 15 <= discount_percent ?d =>
      assert (He : extract_deal_fetcher (R := decimal_runtime) discounted_item
                   = Ok (Some d)) by (vm_compute; reflexivity);
      destruct (fetched_deal_shape (R := decimal_runtime) discounted_item d
                  He) as (H & _)
  end.
  exact H.
Defined.

Lemma no_deal_without_listing_or_price_witness :
  process_item (R := decimal_runtime) (extract_deal 20) []
               (PObj [("asin", PStr "B000000003");
                      ("offers", PObj [("listings", PList [])])]%string)
    = Ok [].
Proof.
  apply no_deal_without_listing_or_price. right. left.
  eexists. split; [reflexivity|]. right. right.
  eexists. split; reflexivity.
Defined.

(** ** Requests and interval across the sweeps *)

Lemma within_refl (st : state) : within 0 st st.
Proof. unfold within. repeat split; try reflexivity; try lia. lra. Qed.

Lemma within_trans (n m : nat) (st st1 st2 : state) :
  within n st st1 -> within m st1 st2 -> within (n + m) st st2.
Proof.
  unfold within. intros (Hc & Hm & Hi & Hd & Hb) (Hc' & Hm' & Hi' & Hd' & Hb').
  rewrite Hm in Hb'. repeat split; try congruence; try lia; try lra.
Qed.

Lemma within_weaken (n m : nat) (st st' : state) :
  (n <= m)%nat -> within n st st' -> within m st st'.
Proof.
  unfold within. intros Hnm (Hc & Hm & Hi & Hd & Hb).
  repeat split; try assumption. nia.
Qed.

Lemma throttled_request_within {A} (func : callable A) (st : state)
      (r : result (option A)) (st' : state) :
  _throttled_request func st = Some (r, st') -> within 1 st st'.
Proof.
  intros Hrun. rewrite throttled_request_unfold in Hrun.
  pose proof (retry_loop_events _ _ _ _ _ _ Hrun)
    as (evs & Ht & _ & Hc & Hm & Hmin & Hdisp & _).
  pose proof (retry_loop_ladder _ _ _ _ _ _ Hrun)
    as (evs' & k & Ht' & _ & Hd & Hk & _).
  rewrite Ht in Ht'. apply app_inv_tail in Ht'. subst evs'.
  rewrite paced_self in *. rewrite paced_dispatched in Hdisp.
  assert (0 <= inject_Z (Z.of_nat (List.length (backoff_sleeps evs))))%Q.
  { change 0%Q with (inject_Z 0). rewrite <- Zle_Qle. lia. }
  unfold within. repeat split; try assumption; try lia.
  - rewrite Hmin. lra.
  - rewrite Hdisp, Hd.
    destruct (Z.leb_spec 0 (max_retries (self st))); [|lia].
    destruct k; lia.
Qed.

Lemma cooldown_within (seconds : Q) (st : state) :
  within 0 st (after_cooldown seconds st).
Proof. unfold within. cbn. repeat split; try reflexivity; try lia. lra. Qed.

Section SweepFrame.
Context {R : Runtime}.

Lemma search_within (keyword : string) (min_price_cents min_discount : Z)
      (st : state) (r : result (option (list pyval))) (st' : state) :
  search keyword min_price_cents min_discount st = Some (r, st') ->
  within 1 st st'.
Proof.
  unfold search, search_items, bind, get, raise, ret, lift.
  destruct (client (self st)) as [c|].
  2:{ intros [= <- <-]. apply (within_weaken 0); [lia|apply within_refl]. }
  destruct (_throttled_request _ st) as [[[response|e] st1]|] eqn:Hrun;
    try discriminate.
  - apply throttled_request_within in Hrun.
    destruct (attr (response_of response) "items") as [items|].
    + destruct (negb (truthy items)); [now intros [= <- <-]|].
      destruct (iterate items); now intros [= <- <-].
    + now intros [= <- <-].
  - apply throttled_request_within in Hrun. now intros [= <- <-].
Qed.

Lemma priced_search_within (keyword : string) (min_discount : Z)
      (min_price : float) (st : state) (r : result (option (list pyval)))
      (st' : state) :
  priced_search keyword min_discount min_price st = Some (r, st') ->
  within 1 st st'.
Proof.
  unfold priced_search, bind, lift.
  destruct (cents_of min_price) as [cents|e].
  - apply search_within.
  - intros [= <- <-]. apply (within_weaken 0); [lia|apply within_refl].
Qed.

Lemma found_by_within (keyword : string) (min_discount : Z)
      (min_price : float) (st : state) (found : list (deal float))
      (st' : state) :
  found_by keyword min_discount min_price st = Some (found, st') ->
  within 1 st st'.
Proof.
  unfold found_by.
  destruct (priced_search keyword min_discount min_price st)
    as [[[[items|]|e] st1]|] eqn:Hs; try discriminate;
    intros [= <- <-]; now apply priced_search_within in Hs.
Qed.

Lemma found_in_sweep_within (keywords : list string) (min_discount : Z)
      (min_price : float) :
  forall st found st',
    found_in_sweep keywords min_discount min_price st = Some (found, st') ->
    within (List.length keywords) st st'.
Proof.
  induction keywords as [|keyword rest IH]; intros st found st'.
  - intros [= <- <-]. apply within_refl.
  - cbn [found_in_sweep List.length].
    destruct (found_by keyword min_discount min_price st)
      as [[f st1]|] eqn:Hf; [|discriminate].
    destruct (found_in_sweep rest min_discount min_price st1)
      as [[more st2]|] eqn:Hm; [|discriminate].
    intros [= <- <-]. apply (within_trans 1 (List.length rest) st st1 st2).
    + now apply found_by_within in Hf.
    + now apply IH in Hm.
Qed.

Lemma fetched_by_within (keyword : string) (st : state)
      (found : list (deal float)) (st' : state) :
  fetched_by keyword st = Some (found, st') -> within 1 st st'.
Proof.
  unfold fetched_by.
  destruct (search keyword 500 15 st) as [[[[items|]|e] st1]|] eqn:Hs;
    try discriminate; intros [= <- <-]; apply search_within in Hs;
    try exact Hs;
    replace 1%nat with (1 + 0)%nat by lia;
    (eapply within_trans; [exact Hs|apply cooldown_within]).
Qed.

Lemma fetched_in_sweep_within (keywords : list string) :
  forall st founds st',
    fetched_in_sweep keywords st = Some (founds, st') ->
    within (List.length keywords) st st'.
Proof.
  induction keywords as [|keyword rest IH]; intros st founds st'.
  - intros [= <- <-]. apply within_refl.
  - cbn [fetched_in_sweep List.length].
    destruct (fetched_by keyword st) as [[f st1]|] eqn:Hf; [|discriminate].
    destruct (fetched_in_sweep rest st1) as [[more st2]|] eqn:Hm;
      [|discriminate].
    intros [= <- <-]. apply (within_trans 1 (List.length rest) st st1 st2).
    + now apply fetched_by_within in Hf.
    + now apply IH in Hm.
Qed.
End SweepFrame.

(** ** What the searches return *)

Section SweepResults.
Context {R : Runtime}.

Lemma extract_deal_threshold (min_discount : Z) (item : pyval)
      (d : deal float) :
  extract_deal min_discount item = Ok (Some d) ->
  min_discount <= discount_percent d.
Proof.
  unfold extract_deal.
  destruct (first_listing item) as [[listing|]|e]; cbn; try discriminate.
  destruct (amount_of listing "price") as [amount|]; try discriminate.
  destruct (to_decimal amount) as [current|]; cbn; try discriminate.
  destruct (amount_of listing "saving_basis") as [basis|]; try discriminate.
  destruct (to_decimal basis) as [original|]; cbn; try discriminate.
  destruct (calculate_discount current original) as [discount|];
    cbn; try discriminate.
  destruct (Z.leb_spec min_discount discount); try discriminate.
  destruct (float_of_decimal current) as [p|]; cbn; try discriminate.
  destruct (float_of_decimal original) as [o|]; cbn; try discriminate.
  now intros [= <-].
Qed.

Lemma extract_deal_fetcher_threshold (item : pyval) (d : deal float) :
  extract_deal_fetcher item = Ok (Some d) -> 15 <= discount_percent d.
Proof.
  unfold extract_deal_fetcher.
  destruct (first_listing item) as [[listing|]|e]; cbn; try discriminate.
  destruct (amount_of listing "price") as [amount|]; try discriminate.
  destruct (float_of_pyval amount) as [current|]; cbn; try discriminate.
  destruct (amount_of listing "saving_basis") as [basis|]; try discriminate.
  destruct (float_of_pyval basis) as [original|]; cbn; try discriminate.
  destruct (float_percent current original) as [discount|];
    cbn; try discriminate.
  destruct (Z.leb_spec 15 discount); try discriminate.
  now intros [= <-].
Qed.

Lemma contributions_threshold (extract : pyval -> result (option (deal float)))
      (bound : Z) (items : list pyval) :
  (forall item d, extract item = Ok (Some d) -> bound <= discount_percent d) ->
  Forall (fun d => bound <= discount_percent d)
         (flat_map (contribution extract) items).
Proof.
  intros Hext. induction items as [|item rest IH]; cbn; [constructor|].
  apply Forall_app. split; [|exact IH].
  unfold contribution.
  destruct (extract item) as [[d|]|e] eqn:He; repeat constructor.
  now apply (Hext item).
Qed.

Lemma contributions_length (extract : pyval -> result (option (deal float)))
      (items : list pyval) :
  (List.length (flat_map (contribution extract) items)
   <= List.length items)%nat.
Proof.
  induction items as [|item rest IH]; cbn; [lia|].
  rewrite length_app. unfold contribution at 1.
  destruct (extract item) as [[d|]|e]; cbn; lia.
Qed.

Lemma found_by_threshold (keyword : string) (min_discount : Z)
      (min_price : float) (st : state) (found : list (deal float))
      (st' : state) :
  found_by keyword min_discount min_price st = Some (found, st') ->
  Forall (fun d => min_discount <= discount_percent d) found.
Proof.
  unfold found_by.
  destruct (priced_search keyword min_discount min_price st)
    as [[[[items|]|e] st1]|]; try discriminate; intros [= <- <-];
    try constructor.
  apply contributions_threshold. intros item d. apply extract_deal_threshold.
Qed.

Lemma found_in_sweep_threshold (keywords : list string) (min_discount : Z)
      (min_price : float) :
  forall st found st',
    found_in_sweep keywords min_discount min_price st = Some (found, st') ->
    Forall (fun d => min_discount <= discount_percent d) found.
Proof.
  induction keywords as [|keyword rest IH]; intros st found st'.
  - intros [= <- <-]. constructor.
  - cbn [found_in_sweep].
    destruct (found_by keyword min_discount min_price st)
      as [[f st1]|] eqn:Hf; [|discriminate].
    destruct (found_in_sweep rest min_discount min_price st1)
      as [[more st2]|] eqn:Hm; [|discriminate].
    intros [= <- <-]. apply Forall_app. split.
    + now apply found_by_threshold in Hf.
    + now apply IH in Hm.
Qed.

Lemma found_by_no_client (keyword : string) (min_discount : Z)
      (min_price : float) (st : state) :
  client (self st) = None ->
  found_by keyword min_discount min_price st = Some ([], st).
Proof.
  intros Hc.
  unfold found_by, priced_search, search, search_items, bind, get, raise, lift.
  destruct (cents_of min_price); [|reflexivity]. now rewrite Hc.
Qed.

Lemma find_deals_by_keyword_run (keyword : string) (min_discount : Z)
      (min_price : float) (st : state) :
  find_deals_by_keyword keyword min_discount min_price st =
  match found_by keyword min_discount min_price st with
  | None => None
  | Some (found, st') => Some (Ok (sort_desc discount_percent found), st')
  end.
Proof.
  unfold find_deals_by_keyword, found_by, priced_search, bind, try_catch,
    lift, ret.
  destruct (cents_of min_price) as [cents|e]; [|reflexivity].
  destruct (search keyword cents min_discount st) as [[[[items|]|e] st1]|];
    try reflexivity.
  now rewrite process_items_contribution.
Qed.

Lemma sorted_keeps_threshold (bound : Z) (l : list (deal float)) :
  Forall (fun d => bound <= discount_percent d) l ->
  Forall (fun d => bound <= discount_percent d) (sort_desc discount_percent l).
Proof.
  intros H. eapply Permutation_Forall; [|exact H].
  symmetry. apply sort_desc_perm.
Qed.

Lemma slice_to_prefix {A} (n : Z) (l : list A) :
  exists k, slice_to n l = firstn k l.
Proof. unfold slice_to. destruct (0 <=? n); eauto. Qed.

Lemma firstn_keeps_Forall {A} (P : A -> Prop) (k : nat) (l : list A) :
  Forall P l -> Forall P (firstn k l).
Proof.
  intros H. rewrite <- (firstn_skipn k l) in H.
  now apply Forall_app in H.
Qed.

(** [find_deals_by_keyword] returns, without raising, deals in descending
    order of discount that all reach [min_discount]; it dispatches at most
    [max_retries + 1] requests, never lowers [min_request_interval], and
    on a finder without a client returns [[]] and touches nothing. *)
Theorem find_deals_by_keyword_result (keyword : string) (min_discount : Z)
        (min_price : float) (st : state) :
  exists deals st',
    find_deals_by_keyword keyword min_discount min_price st
      = Some (Ok deals, st') /\
    StronglySorted (desc discount_percent) deals /\
    Forall (fun d => min_discount <= discount_percent d) deals /\
    within 1 st st' /\
    (client (self st) = None -> deals = [] /\ st' = st).
Proof.
  rewrite find_deals_by_keyword_run.
  destruct (found_by_total keyword min_discount min_price st)
    as (found & st' & Hf).
  rewrite Hf. eexists _, _. split; [reflexivity|].
  split; [apply sort_desc_sorted|]. split.
  { apply sorted_keeps_threshold. now apply found_by_threshold in Hf. }
  split; [now apply found_by_within in Hf|].
  intros Hc. rewrite (found_by_no_client _ _ _ _ Hc) in Hf.
  now injection Hf as <- <-.
Qed.

(** [find_best_deals] returns, without raising, deals in descending order
    of discount that all reach [min_discount], at most [num_deals] of them
    when [num_deals >= 0]; its six searches dispatch at most
    [6 * (max_retries + 1)] requests and never lower
    [min_request_interval]; without a client it returns [[]] and touches
    nothing. *)
Theorem find_best_deals_result (num_deals min_discount : Z)
        (min_price : float) (st : state) :
  exists deals st',
    find_best_deals num_deals min_discount min_price st
      = Some (Ok deals, st') /\
    StronglySorted (desc discount_percent) deals /\
    Forall (fun d => min_discount <= discount_percent d) deals /\
    (0 <= num_deals -> (List.length deals <= Z.to_nat num_deals)%nat) /\
    within 6 st st' /\
    (client (self st) = None -> deals = [] /\ st' = st).
Proof.
  unfold find_best_deals, bind, get, ret.
  destruct (client (self st)) as [c|] eqn:Hc.
  - destruct (sweep_found snack_keywords min_discount min_price [] st)
      as (found & st' & Hf & ->).
    cbn [app]. eexists _, _. split; [reflexivity|].
    pose proof (found_in_sweep_threshold _ _ _ _ _ _ Hf) as Hmin.
    apply found_in_sweep_within in Hf.
    unfold rank.
    destruct (slice_to_prefix num_deals (sort_desc discount_percent found))
      as (k & Hk).
    split; [rewrite Hk; apply sorted_firstn, sort_desc_sorted|].
    split; [rewrite Hk; now apply firstn_keeps_Forall, sorted_keeps_threshold|].
    split.
    { intros Hn. rewrite slice_to_firstn by exact Hn.
      rewrite length_firstn. lia. }
    split; [exact Hf|discriminate].
  - eexists _, _. split; [reflexivity|]. split; [constructor|].
    split; [constructor|]. split; [cbn; lia|].
    split; [|auto]. apply (within_weaken 0); [lia|apply within_refl].
Qed.
End SweepResults.

(** ** The daily fetch *)

Section FetchProperties.
Context {R : Runtime}.

Lemma save_all_tally (deals : list (deal float)) :
  forall t,
    deals_found (save_all deals t) = deals_found t /\
    deals_saved t <= deals_saved (save_all deals t)
      <= deals_saved t + Z.of_nat (List.length deals).
Proof.
  unfold save_all.
  induction deals as [|d rest IH]; intros t; [cbn; lia|].
  cbn [fold_left List.length].
  destruct (save_deal d (db t)) as [[|] db'];
    match goal with
    | |- context [fold_left _ rest ?t1] => destruct (IH t1) as (Hf & Hs)
    end; cbn [deals_found deals_saved] in *; lia.
Qed.

Lemma save_found_tally (deals : list (deal float)) (t : tally) :
  deals_found (save_found deals t)
    = deals_found t + Z.of_nat (List.length deals) /\
  deals_saved t <= deals_saved (save_found deals t)
    <= deals_saved t + Z.of_nat (List.length deals).
Proof.
  unfold save_found. destruct deals as [|d rest]; [cbn; lia|].
  match goal with
  | |- context [save_all ?l ?t1] => destruct (save_all_tally l t1) as (Hf & Hs)
  end.
  cbn [deals_found deals_saved] in *. lia.
Qed.

Lemma saved_tally (founds : list (list (deal float))) :
  forall t,
    deals_found t <= deals_found (saved founds t) /\
    deals_saved t <= deals_saved (saved founds t) /\
    deals_saved (saved founds t) - deals_saved t
      <= deals_found (saved founds t) - deals_found t.
Proof.
  unfold saved.
  induction founds as [|found rest IH]; intros t; [cbn; lia|].
  cbn [fold_left]. destruct (IH (save_found found t)) as (H1 & H2 & H3).
  destruct (save_found_tally found t) as (Hf & Hs). lia.
Qed.

(** [fetch_daily_deals] returns [True] exactly when the database and the
    finder could be set up, whatever the searches do afterwards; when the
    set-up fails it returns [False] before any request or sleep. A run
    ends with [0 <= deals_saved <= deals_found] and makes at most 40
    dispatches (ten keywords, four attempts each). *)
Theorem fetch_daily_deals_outcome (new_db : result database)
        (new_client : result Client) (w : world) :
  exists ok t w',
    fetch_daily_deals new_db new_client w = Some (ok, t, w') /\
    (ok = true <-> exists db0 c, new_db = Ok db0 /\ new_client = Ok c) /\
    (ok = false -> t = None /\ w' = w) /\
    (ok = true ->
     exists t', t = Some t' /\
                0 <= deals_saved t' <= deals_found t' /\
                (dispatched w <= dispatched w' <= dispatched w + 40)%nat).
Proof.
  unfold fetch_daily_deals.
  destruct new_db as [db0|e1].
  2:{ exists false, None, w. split; [reflexivity|].
      split; [split; [discriminate|intros (? & ? & ? & ?); discriminate]|].
      split; [auto|discriminate]. }
  destruct new_client as [c|e2].
  2:{ exists false, None, w. split; [reflexivity|].
      split; [split; [discriminate|intros (? & ? & ? & ?); discriminate]|].
      split; [auto|discriminate]. }
  match goal with
  | |- context [fetch_sweep fetcher_keywords ?t0 ?st0] =>
      destruct (fetch_sweep_found fetcher_keywords t0 st0)
        as (founds & st' & Hf & ->);
      pose proof (saved_tally founds t0) as (H1 & H2 & H3)
  end.
  apply fetched_in_sweep_within in Hf.
  destruct Hf as (_ & _ & _ & Hd & Hb). cbn in Hd, Hb, H1, H2, H3.
  eexists true, _, _. split; [reflexivity|].
  split; [split; eauto|]. split; [discriminate|].
  intros _. eexists. split; [reflexivity|]. split; lia.
Qed.

(** One turn of the fetcher's loop ends with the cooldown that fits what
    the search gave, 45 seconds after items, 180 after a failure and none
    after an empty response, and changes nothing else after the search;
    only the deals of a response with items go to the tally. *)
Theorem fetch_keyword_cooldown (keyword : string) (t : tally) (st : state) :
  exists r st1 t' st',
    search keyword 500 15 st = Some (r, st1) /\
    fetch_sweep [keyword] t st = Some (Ok t', st') /\
    self st' = self st1 /\
    dispatched (env st') = dispatched (env st1) /\
    trace (env st') = map Cooldown (cooldown_of r) ++ trace (env st1) /\
    (clock (env st') == clock (env st1) + sumQ (cooldown_of r))%Q /\
    t' = match r with
         | Ok (Some items) =>
             save_found (flat_map (contribution extract_deal_fetcher) items) t
         | _ => t
         end.
Proof.
  destruct (search_total keyword 500 15 st) as (r & st1 & Hs).
  rewrite fetch_sweep_step. unfold fetched_by. rewrite Hs.
  destruct r as [[items|]|e]; cbn [fetch_sweep ret cooldown_of map app sumQ];
    eexists _, st1, _, _; (split; [reflexivity|]); (split; [reflexivity|]);
    cbn; repeat split; ring.
Qed.
End FetchProperties.

(** ** The single deal of the posting test *)

Lemma filter_head_split {A} (p : A -> bool) (l : list A) (x : A)
      (r : list A) :
  filter p l = x :: r ->
  exists l1 l2, l = l1 ++ x :: l2 /\ Forall (fun d => p d = false) l1.
Proof.
  induction l as [|a l IH]; cbn; [discriminate|].
  destruct (p a) eqn:Ha.
  - intros [= -> _]. exists [], l. split; [reflexivity|constructor].
  - intros H. destruct (IH H) as (l1 & l2 & -> & Hl1).
    exists (a :: l1), l2. split; [reflexivity|now constructor].
Qed.

(** The head of a list sorted by [sort_desc] is the first of the elements
    with the greatest key. *)
Lemma sort_desc_head {A} (key : A -> Z) (l : list A) (best : A)
      (tl : list A) :
  sort_desc key l = best :: tl ->
  exists l1 l2,
    l = l1 ++ best :: l2 /\
    (forall d, In d l1 -> key d < key best) /\
    (forall d, In d l2 -> key d <= key best).
Proof.
  intros Hsort.
  assert (Hmax : forall d, In d l -> key d <= key best).
  { intros d Hd.
    apply (Permutation_in _ (Permutation_sym (sort_desc_perm key l))) in Hd.
    pose proof (sort_desc_sorted key l) as Hs. rewrite Hsort in Hs, Hd.
    apply StronglySorted_inv in Hs. destruct Hs as [_ Hall].
    destruct Hd as [<-|Hd]; [lia|].
    rewrite Forall_forall in Hall. now apply Hall. }
  pose proof (sort_desc_stable key (key best) l) as Hst.
  rewrite Hsort in Hst. cbn [filter] in Hst. rewrite Z.eqb_refl in Hst.
  symmetry in Hst. apply filter_head_split in Hst.
  destruct Hst as (l1 & l2 & -> & Hl1).
  exists l1, l2. split; [reflexivity|]. split.
  - intros d Hd. rewrite Forall_forall in Hl1.
    pose proof (Hl1 d Hd) as Hne. apply Z.eqb_neq in Hne.
    assert (key d <= key best) by (apply Hmax, in_or_app; now left). lia.
  - intros d Hd. apply Hmax, in_or_app. right. now right.
Qed.

Section SingleDealProperties.
Context {R : Runtime}.

Lemma searched_by_total (keyword : string) (st : state) :
  exists found st1, searched_by keyword st = Some (found, st1).
Proof.
  unfold searched_by.
  destruct (search_total keyword 500 15 st) as ([[items|]|e] & st' & ->); eauto.
Qed.

Lemma searched_by_within (keyword : string) (st : state)
      (found : list (deal float)) (st1 : state) :
  searched_by keyword st = Some (found, st1) ->
  within 1 st st1 /\ Forall (fun d => 15 <= discount_percent d) found.
Proof.
  unfold searched_by.
  destruct (search keyword 500 15 st) as [[[[items|]|e] st']|] eqn:Hs;
    try discriminate; intros [= <- <-]; apply search_within in Hs;
    (split; [exact Hs|]); try constructor.
  apply contributions_threshold. intros item d.
  apply extract_deal_fetcher_threshold.
Qed.

Lemma single_sweep_step (keyword : string) (rest : list string) (st : state) :
  single_sweep (keyword :: rest) st =
  match searched_by keyword st with
  | None => None
  | Some (found, st1) =>
      match sort_desc discount_percent found with
      | [] => single_sweep rest st1
      | best :: _ => Some (Ok (Some best), st1)
      end
  end.
Proof.
  cbn [single_sweep]. unfold searched_by, bind, try_catch, lift, ret.
  destruct (search keyword 500 15 st) as [[[[items|]|e] st1]|];
    try reflexivity.
  rewrite process_items_contribution. cbn [app].
  destruct (flat_map (contribution extract_deal_fetcher) items)
    as [|d found] eqn:Hf; [reflexivity|].
  destruct (sort_desc discount_percent (d :: found)) as [|best tl] eqn:Hs;
    [|reflexivity].
  pose proof (Permutation_length (sort_desc_perm discount_percent (d :: found)))
    as Hlen.
  rewrite Hs in Hlen. discriminate.
Qed.

(** [find_single_deal] stops at the first keyword whose response yields a
    deal and returns, among that keyword's deals, the first of those with
    the highest discount, in the state the search left (no later keyword
    is searched); a keyword that yields no deal, by an error, an empty
    response or items that give none, passes the turn to the next. *)
Theorem single_sweep_first_best (keyword : string) (rest : list string)
        (st : state) :
  exists found st1,
    searched_by keyword st = Some (found, st1) /\
    match found with
    | [] => single_sweep (keyword :: rest) st = single_sweep rest st1
    | _ :: _ =>
        exists best l1 l2,
          single_sweep (keyword :: rest) st = Some (Ok (Some best), st1) /\
          found = l1 ++ best :: l2 /\
          (forall d, In d l1 -> discount_percent d < discount_percent best) /\
          (forall d, In d l2 -> discount_percent d <= discount_percent best)
    end.
Proof.
  destruct (searched_by_total keyword st) as (found & st1 & Hf).
  exists found, st1. split; [exact Hf|].
  rewrite single_sweep_step, Hf.
  destruct found as [|d found]; [reflexivity|].
  destruct (sort_desc discount_percent (d :: found)) as [|best tl] eqn:Hs.
  { pose proof (Permutation_length
                  (sort_desc_perm discount_percent (d :: found))) as Hlen.
    rewrite Hs in Hlen. discriminate. }
  destruct (sort_desc_head _ _ _ _ Hs) as (l1 & l2 & Hl & H1 & H2).
  exists best, l1, l2. auto.
Qed.

Lemma single_sweep_run (keywords : list string) :
  forall st,
  exists r st',
    single_sweep keywords st = Some (Ok r, st') /\
    within (List.length keywords) st st' /\
    (forall d, r = Some d -> 15 <= discount_percent d).
Proof.
  induction keywords as [|keyword rest IH]; intros st.
  - exists None, st. split; [reflexivity|]. split; [apply within_refl|].
    discriminate.
  - rewrite single_sweep_step.
    destruct (searched_by_total keyword st) as (found & st1 & Hf).
    rewrite Hf. apply searched_by_within in Hf. destruct Hf as (Hw & Hmin).
    destruct (sort_desc discount_percent found) as [|best tl] eqn:Hs.
    + destruct (IH st1) as (r & st' & Hrun & Hw' & Hr).
      exists r, st'. split; [exact Hrun|]. split; [|exact Hr].
      apply (within_trans 1 (List.length rest) st st1 st'); assumption.
    + exists (Some best), st1. split; [reflexivity|]. split.
      * apply (within_weaken 1); [cbn; lia|exact Hw].
      * intros d [= <-].
        assert (Hin : In best found).
        { apply (Permutation_in _ (sort_desc_perm discount_percent found)).
          rewrite Hs. now left. }
        rewrite Forall_forall in Hmin. now apply Hmin.
Qed.

(** [find_single_deal] never raises: it returns [None] without a request
    when the finder cannot be set up, and otherwise [None] or a deal of at
    least 15 percent after at most 16 dispatches (four keywords, four
    attempts each). *)
Theorem find_single_deal_result (new_client : result Client) (w : world) :
  exists r w',
    find_single_deal new_client w = Some (r, w') /\
    (forall e, new_client = Raise e -> r = None /\ w' = w) /\
    (forall d, r = Some d -> 15 <= discount_percent d) /\
    (dispatched w <= dispatched w' <= dispatched w + 16)%nat.
Proof.
  unfold find_single_deal. destruct new_client as [c|e].
  - destruct (single_sweep_run single_keywords {| self := init c; env := w |})
      as (r & st' & -> & Hw & Hr).
    destruct Hw as (_ & _ & _ & Hd & Hb). cbn in Hd, Hb.
    exists r, (env st'). split; [reflexivity|]. split; [discriminate|].
    split; [exact Hr|lia].
  - exists None, w. split; [reflexivity|]. split; [auto|].
    split; [discriminate|lia].
Qed.
End SingleDealProperties.

(** ** More on ranking *)

(** [deals[:num_deals]] after the sort is always a prefix of the sorted
    deals: the first [num_deals] of them, all of them when there are
    fewer, and for a negative [num_deals] all but the last [-num_deals]
    (none when there are not as many): a negative count drops the deals
    with the lowest discounts instead of selecting the best. *)
Theorem rank_any_count {A} (key : A -> Z) (num_deals : Z) (deals : list A) :
  let kept :=
    if 0 <=? num_deals then Nat.min (Z.to_nat num_deals) (List.length deals)
    else (List.length deals - Z.to_nat (- num_deals))%nat in
  rank key num_deals deals = firstn kept (sort_desc key deals) /\
  List.length (rank key num_deals deals) = kept /\
  StronglySorted (desc key) (rank key num_deals deals) /\
  (forall x y, In x (rank key num_deals deals) ->
               In y (skipn kept (sort_desc key deals)) -> key y <= key x).
Proof.
  intros kept.
  pose proof (Permutation_length (sort_desc_perm key deals)) as Hlen.
  assert (Hrank : rank key num_deals deals = firstn kept (sort_desc key deals)).
  { unfold rank, kept. destruct (Z.leb_spec 0 num_deals) as [Hn|Hn].
    - rewrite slice_to_firstn by exact Hn.
      rewrite <- Hlen. destruct (Nat.min_spec (Z.to_nat num_deals)
                                   (List.length (sort_desc key deals)))
        as [[_ ->]|[Hle ->]]; [reflexivity|].
      rewrite firstn_all. now apply firstn_all2.
    - rewrite slice_to_negative by exact Hn. now rewrite Hlen. }
  rewrite Hrank. split; [reflexivity|]. split.
  { rewrite length_firstn, Hlen. unfold kept.
    destruct (0 <=? num_deals); lia. }
  split; [apply sorted_firstn, sort_desc_sorted|].
  apply sorted_app_desc. rewrite firstn_skipn. apply sort_desc_sorted.
Qed.

(** ** Setting up the finder *)

Lemma try_except_reraise {A} (body : result A) :
  try_except body (fun e => Raise e) = body.
Proof. now destruct body. Qed.

Lemma unset_spec (getenv : string -> option string) (var : string) :
  unset getenv var = true <->
  getenv var = None \/ getenv var = Some EmptyString.
Proof.
  unfold unset. destruct (getenv var) as [[|c value]|].
  - split; auto.
  - split; [discriminate|]. intros [H|H]; discriminate.
  - split; auto.
Qed.

Lemma unset_false (getenv : string -> option string) (var : string) :
  unset getenv var = false ->
  exists value, getenv var = Some value /\ value <> EmptyString.
Proof.
  unfold unset. destruct (getenv var) as [[|c value]|]; try discriminate.
  intros _. eexists. split; [reflexivity|discriminate].
Qed.

Lemma before_dash_split (s : string) :
  exists rest,
    s = (before_dash s ++ rest)%string /\
    (rest = EmptyString \/ exists r, rest = String "-" r) /\
    (forall c, In c (list_ascii_of_string (before_dash s)) -> c <> "-"%char).
Proof.
  induction s as [|c s (rest & Hs & Hrest & Hfree)]; cbn [before_dash].
  - exists EmptyString. split; [reflexivity|]. split; [now left|].
    intros c [].
  - destruct (Ascii.eqb_spec c "-") as [->|Hc].
    + exists (String "-" s). split; [reflexivity|]. split; [right; eauto|].
      intros c [].
    + exists rest. split; [cbn; now rewrite <- Hs|]. split; [exact Hrest|].
      intros c' [<-|Hin]; [exact Hc|now apply Hfree].
Qed.

Section SetupProperties.
Context {R : Runtime}.
Variable getenv : string -> option string.
Variable AmazonApi :
  option string -> option string -> option string -> string -> result Client.
Variable upper : string -> string.

(** [_setup_client] raises a [ValueError] that names, in the order of the
    list, exactly the required variables that are unset or empty, and it
    does so whenever there is one; otherwise it builds the client from
    the three credentials, all present and non-empty, and from the upper
    case of what precedes the first dash of [REGION], so the default
    region is never used. *)
Theorem setup_client_requires_environment :
  (forall var, In var (missing_vars getenv) <->
               In var required_vars /\
               (getenv var = None \/ getenv var = Some EmptyString)) /\
  (missing_vars getenv <> [] ->
   _setup_client getenv AmazonApi upper =
   Raise (Exn "ValueError"
              ("Missing required environment variables: "
               ++ join ", " (missing_vars getenv)))) /\
  (missing_vars getenv = [] ->
   exists key secret tag region,
     getenv "AMAZON_ACCESS_KEY"%string = Some key /\ key <> EmptyString /\
     getenv "AMAZON_SECRET_KEY"%string = Some secret /\
     secret <> EmptyString /\
     getenv "ASSOCIATE_TAG"%string = Some tag /\ tag <> EmptyString /\
     getenv "REGION"%string = Some region /\ region <> EmptyString /\
     _setup_client getenv AmazonApi upper =
     AmazonApi (Some key) (Some secret) (Some tag)
               (upper (before_dash region))) /\
  (forall region, exists rest,
      region = (before_dash region ++ rest)%string /\
      (rest = EmptyString \/ exists r, rest = String "-" r) /\
      (forall c, In c (list_ascii_of_string (before_dash region)) ->
                 c <> "-"%char)).
Proof.
  split.
  { intros var. unfold missing_vars. rewrite filter_In, unset_spec.
    reflexivity. }
  split.
  { intros Hm. unfold _setup_client. rewrite try_except_reraise.
    destruct (missing_vars getenv); [contradiction|reflexivity]. }
  split; [|apply before_dash_split].
  intros Hm. unfold _setup_client. rewrite try_except_reraise, Hm.
  unfold missing_vars, required_vars in Hm. cbn [filter] in Hm.
  destruct (unset getenv "AMAZON_ACCESS_KEY") eqn:H1; [discriminate|].
  destruct (unset getenv "AMAZON_SECRET_KEY") eqn:H2; [discriminate|].
  destruct (unset getenv "ASSOCIATE_TAG") eqn:H3; [discriminate|].
  destruct (unset getenv "REGION") eqn:H4; [discriminate|].
  apply unset_false in H1, H2, H3, H4.
  destruct H1 as (key & Hk & Hk'), H2 as (secret & Hs & Hs'),
           H3 as (tag & Ht & Ht'), H4 as (region & Hr & Hr').
  exists key, secret, tag, region. unfold getenv_or.
  rewrite Hk, Hs, Ht, Hr. auto 10.
Qed.

Lemma best_of_sweep (num_deals min_discount : Z) (min_price : float)
      (st : state) :
  exists found st',
    sweep snack_keywords min_discount min_price [] st
      = Some (Ok found, st') /\
    within 6 st st' /\
    StronglySorted (desc discount_percent)
                   (rank discount_percent num_deals found) /\
    Forall (fun d => min_discount <= discount_percent d)
           (rank discount_percent num_deals found) /\
    (0 <= num_deals ->
     (List.length (rank discount_percent num_deals found)
      <= Z.to_nat num_deals)%nat).
Proof.
  destruct (sweep_found snack_keywords min_discount min_price [] st)
    as (found & st' & Hf & Hrun).
  exists found, st'. split; [exact Hrun|].
  pose proof (found_in_sweep_threshold _ _ _ _ _ _ Hf) as Hmin.
  apply found_in_sweep_within in Hf. split; [exact Hf|].
  unfold rank.
  destruct (slice_to_prefix num_deals (sort_desc discount_percent found))
    as (k & Hk).
  split; [rewrite Hk; apply sorted_firstn, sort_desc_sorted|].
  split; [rewrite Hk; now apply firstn_keeps_Forall, sorted_keeps_threshold|].
  intros Hn. rewrite slice_to_firstn by exact Hn.
  rewrite length_firstn. lia.
Qed.

(** The module-level [find_best_deals] sets up a new finder on each call
    and lets the error of a failed set-up escape, before any request;
    with a client it returns the list of the method, sorted, above the
    threshold and capped, after at most 24 dispatches. *)
Theorem module_find_best_deals_result (num_deals min_discount : Z)
        (min_price : float) (w : world) :
  exists r w',
    module_find_best_deals getenv AmazonApi upper num_deals min_discount
                           min_price w = Some (r, w') /\
    (forall e, _setup_client getenv AmazonApi upper = Raise e ->
               r = Raise e /\ w' = w) /\
    (forall c, _setup_client getenv AmazonApi upper = Ok c ->
               exists deals,
                 r = Ok deals /\
                 StronglySorted (desc discount_percent) deals /\
                 Forall (fun d => min_discount <= discount_percent d) deals /\
                 (0 <= num_deals ->
                  (List.length deals <= Z.to_nat num_deals)%nat) /\
                 (dispatched w <= dispatched w' <= dispatched w + 24)%nat).
Proof.
  unfold module_find_best_deals, new_finder.
  destruct (_setup_client getenv AmazonApi upper) as [c|e]; cbn [rbind].
  - unfold find_best_deals, bind, get, ret. cbn [self init client].
    destruct (best_of_sweep num_deals min_discount min_price
                            {| self := init c; env := w |})
      as (found & st' & Hrun & Hw & Hs & Hmin & Hlen).
    unfold bind in Hrun |- *. unfold init in Hrun |- *. rewrite Hrun.
    destruct Hw as (_ & _ & _ & Hd & Hb). cbn in Hd, Hb.
    eexists _, _. split; [reflexivity|]. split; [discriminate|].
    intros c' _. eexists. split; [reflexivity|].
    repeat (split; [assumption|]). lia.
  - eexists _, _. split; [reflexivity|]. split.
    + intros e' [= <-]. auto.
    + discriminate.
Qed.
End SetupProperties.

(** ** The post and its link facet *)

Lemma starts_with_firstn (needle hay : Poster.str) :
  Poster.starts_with needle hay = true <->
  firstn (List.length needle) hay = needle.
Proof.
  revert hay. induction needle as [|a needle IH]; intros hay.
  - cbn. split; reflexivity.
  - destruct hay as [|b hay]; cbn.
    + split; discriminate.
    + rewrite andb_true_iff, N.eqb_eq, IH. split.
      * intros [-> ->]. reflexivity.
      * intros [= -> H]. now split.
Qed.

Lemma index_unfold (needle hay : Poster.str) :
  Poster.index needle hay =
  if Poster.starts_with needle hay then Some O
  else match hay with
       | [] => None
       | _ :: rest => option_map S (Poster.index needle rest)
       end.
Proof. now destruct hay. Qed.

Lemma index_found_at (needle : Poster.str) :
  forall hay i,
    Poster.index needle hay = Some i ->
    (i <= List.length hay)%nat /\
    Poster.starts_with needle (skipn i hay) = true /\
    (forall j, (j < i)%nat -> Poster.starts_with needle (skipn j hay) = false).
Proof.
  induction hay as [|b hay IH]; intros i; rewrite index_unfold;
    destruct (Poster.starts_with needle _) eqn:Hs; try discriminate.
  - intros [= <-]. cbn. split; [lia|]. split; [exact Hs|]. intros j Hj. lia.
  - intros [= <-]. cbn [skipn]. split; [lia|]. split; [exact Hs|].
    intros j Hj. lia.
  - destruct (Poster.index needle hay) as [i'|]; [|discriminate].
    intros [= <-]. destruct (IH i' eq_refl) as (Hlen & Hat & Hbefore).
    split; [cbn; lia|]. split; [exact Hat|].
    intros [|j] Hj; [exact Hs|]. apply Hbefore. lia.
Qed.

Lemma index_not_found (needle : Poster.str) :
  forall hay,
    Poster.index needle hay = None ->
    forall j, Poster.starts_with needle (skipn j hay) = false.
Proof.
  induction hay as [|b hay IH]; rewrite index_unfold;
    destruct (Poster.starts_with needle _) eqn:Hs; try discriminate.
  - intros _ j. now rewrite skipn_nil.
  - destruct (Poster.index needle hay) as [i'|] eqn:Hi; [discriminate|].
    intros _ [|j]; [exact Hs|]. now apply IH.
Qed.

Lemma index_finds (needle : Poster.str) :
  forall hay k,
    Poster.starts_with needle (skipn k hay) = true ->
    exists i, Poster.index needle hay = Some i /\ (i <= k)%nat.
Proof.
  induction hay as [|b hay IH]; intros k Hk; rewrite index_unfold.
  - rewrite skipn_nil in Hk. rewrite Hk. exists O. split; [reflexivity|lia].
  - destruct (Poster.starts_with needle (b :: hay)) eqn:Hs.
    + exists O. split; [reflexivity|lia].
    + destruct k as [|k]; [cbn in Hk; congruence|].
      destruct (IH k Hk) as (i & -> & Hi). exists (S i). split; [reflexivity|lia].
Qed.

Lemma skipn_length_app {A} (l1 l2 : list A) :
  skipn (List.length l1) (l1 ++ l2) = l2.
Proof. induction l1; cbn; auto. Qed.

Lemma starts_with_app (needle rest : Poster.str) :
  Poster.starts_with needle (needle ++ rest) = true.
Proof.
  apply starts_with_firstn. induction needle; cbn; [reflexivity|now f_equal].
Qed.

Lemma index_after_prefix (c : N) (needle pre body : Poster.str) :
  Forall (fun x => x <> c) pre ->
  Poster.index (c :: needle) (pre ++ body) =
  option_map (Nat.add (List.length pre)) (Poster.index (c :: needle) body).
Proof.
  induction 1 as [|x pre Hx Hpre IH].
  - cbn [app List.length]. now destruct (Poster.index (c :: needle) body).
  - cbn [app]. rewrite index_unfold. cbn [Poster.starts_with].
    destruct (N.eqb_spec c x) as [->|_]; [contradiction|].
    cbn [andb]. rewrite IH.
    now destruct (Poster.index (c :: needle) body).
Qed.

Lemma utf8_length_app (s1 s2 : Poster.str) :
  Poster.utf8_length (s1 ++ s2) =
  (Poster.utf8_length s1 + Poster.utf8_length s2)%nat.
Proof.
  unfold Poster.utf8_length. induction s1 as [|c s1 IH]; cbn; [reflexivity|].
  rewrite IH. lia.
Qed.

Lemma utf8_width_pos (c : N) : (1 <= Poster.utf8_width c)%nat.
Proof.
  unfold Poster.utf8_width.
  destruct (c <? 128)%N, (c <? 2048)%N, (c <? 65536)%N; lia.
Qed.

Lemma utf8_length_ge (s : Poster.str) :
  (List.length s <= Poster.utf8_length s)%nat.
Proof.
  unfold Poster.utf8_length.
  induction s as [|c s IH]; cbn [fold_right List.length]; [lia|].
  pose proof (utf8_width_pos c). lia.
Qed.

Lemma shown_title_length (title : Poster.str) :
  (List.length (Poster.shown_title title) <= 50)%nat.
Proof.
  unfold Poster.shown_title.
  destruct (Nat.ltb_spec 50 (List.length title)); [|assumption].
  rewrite length_app, length_firstn.
  change (List.length (Poster.of_ascii "...")) with 3%nat. lia.
Qed.

Lemma index_slice (text url : Poster.str) (i : nat) :
  Poster.index url text = Some i ->
  Poster.slice text i (i + List.length url) = url.
Proof.
  intros Hi. destruct (index_found_at _ _ _ Hi) as (_ & Hat & _).
  unfold Poster.slice. apply starts_with_firstn in Hat.
  now replace (i + List.length url - i)%nat with (List.length url) by lia.
Qed.

(** [create_link_facet] returns one facet, from the first place where the
    URL stands in the text to the end of the URL there, counted in code
    points, so that [text[byteStart:byteEnd] == url]; it returns no facet
    exactly when the URL stands nowhere in the text. *)
Theorem create_link_facet_round_trip (text url : Poster.str) :
  match Poster.create_link_facet text url with
  | [] => forall i, Poster.slice text i (i + List.length url) <> url
  | [f] =>
      Poster.uri f = url /\
      Poster.byteEnd f = (Poster.byteStart f + List.length url)%nat /\
      (Poster.byteEnd f <= List.length text)%nat /\
      Poster.slice text (Poster.byteStart f) (Poster.byteEnd f) = url /\
      (forall i, (i < Poster.byteStart f)%nat ->
                 Poster.slice text i (i + List.length url) <> url)
  | _ :: _ :: _ => False
  end.
Proof.
  assert (Hslice : forall i,
             Poster.slice text i (i + List.length url) = url <->
             Poster.starts_with url (skipn i text) = true).
  { intros i. unfold Poster.slice. rewrite starts_with_firstn.
    now replace (i + List.length url - i)%nat with (List.length url) by lia. }
  unfold Poster.create_link_facet.
  destruct (Poster.index url text) as [start|] eqn:Hi.
  - destruct (index_found_at _ _ _ Hi) as (Hlen & Hat & Hbefore).
    cbn. split; [reflexivity|]. split; [reflexivity|]. split.
    { apply starts_with_firstn in Hat.
      apply (f_equal (@List.length N)) in Hat.
      rewrite length_firstn, length_skipn in Hat. lia. }
    split; [now apply Hslice|].
    intros i Hlt Heq. apply Hslice in Heq.
    rewrite (Hbefore i Hlt) in Heq. discriminate.
  - intros i Heq. apply Hslice in Heq.
    rewrite (index_not_found _ _ Hi i) in Heq. discriminate.
Qed.

Section PostProperties.
Variable number : Type.
Variable two_decimals : number -> Poster.str.
Variable blob : Type.
Variable upload : Poster.str -> option blob.

(** Every post of [format_deal_post_rich] has exactly one link facet: it
    covers an occurrence of the deal's URL that starts no later than the
    place where the text puts the link. An image is attached only when
    the deal has a non-empty image URL whose upload gave a blob, and its
    alt text is the title cut to at most 50 code points. *)
Theorem post_has_link_facet (d : Poster.deal number) :
  let p := Poster.format_deal_post_rich number two_decimals blob upload d in
  Poster.text p =
    Poster.lead number two_decimals d ++ Poster.url d ++ Poster.hashtags /\
  (exists f,
      Poster.facets p = [f] /\
      Poster.uri f = Poster.url d /\
      Poster.slice (Poster.text p) (Poster.byteStart f) (Poster.byteEnd f)
        = Poster.url d /\
      (Poster.byteStart f
       <= List.length (Poster.lead number two_decimals d))%nat) /\
  (forall alt b,
      Poster.embed p = Some (alt, b) ->
      alt = Poster.shown_title (Poster.title d) /\
      (List.length alt <= 50)%nat /\
      exists image_url,
        Poster.image_url d = Some image_url /\ image_url <> [] /\
        upload image_url = Some b).
Proof.
  intros p. split; [reflexivity|]. split.
  - unfold p, Poster.format_deal_post_rich.
    cbn [Poster.facets Poster.text].
    set (text := Poster.lead number two_decimals d ++ _).
    destruct (index_finds (Poster.url d) text
                (List.length (Poster.lead number two_decimals d)))
      as (i & Hi & Hle).
    { unfold text. rewrite skipn_length_app. apply starts_with_app. }
    pose proof (index_slice text (Poster.url d) i Hi) as Hf.
    unfold Poster.create_link_facet. rewrite Hi.
    eexists. split; [reflexivity|]. cbn. split; [reflexivity|].
    split; [exact Hf|exact Hle].
  - intros alt b. unfold p, Poster.format_deal_post_rich. cbn [Poster.embed].
    destruct (Poster.image_url d) as [[|c u]|]; try discriminate.
    destruct (upload (c :: u)) as [b'|] eqn:Hu; [|discriminate].
    intros [= <- <-]. split; [reflexivity|].
    split; [apply shown_title_length|].
    exists (c :: u). split; [reflexivity|]. split; [discriminate|exact Hu].
Qed.
End PostProperties.

Lemma index_end_le (needle hay : Poster.str) (i : nat) :
  Poster.index needle hay = Some i ->
  (i + List.length needle <= List.length hay)%nat.
Proof.
  intros Hi. destruct (index_found_at _ _ _ Hi) as (Hlen & Hat & _).
  apply starts_with_firstn in Hat. apply (f_equal (@List.length N)) in Hat.
  rewrite length_firstn, length_skipn in Hat. lia.
Qed.

Lemma absent_from (c : N) (s : Poster.str) :
  forallb (fun x => negb (N.eqb x c)) s = true -> Forall (fun x => x <> c) s.
Proof.
  rewrite forallb_forall, Forall_forall. intros H x Hx.
  specialize (H x Hx). apply negb_true_iff in H. now apply N.eqb_neq.
Qed.

Lemma offset_after_headline (body : Poster.str) (k : nat) :
  (k <= List.length body)%nat ->
  (List.length Poster.headline + k + 10
   <= Poster.utf8_length
        (firstn (List.length Poster.headline + k) (Poster.headline ++ body)))%nat.
Proof.
  intros Hk. rewrite firstn_app_2, utf8_length_app.
  pose proof (utf8_length_ge (firstn k body)) as Hge.
  rewrite length_firstn in Hge.
  change (Poster.utf8_length Poster.headline) with 42%nat.
  change (List.length Poster.headline) with 32%nat. lia.
Qed.

Section FacetOffsets.
Variable number : Type.
Variable two_decimals : number -> Poster.str.
Variable blob : Type.
Variable upload : Poster.str -> option blob.

(** The [byteStart] and [byteEnd] of the link facet count code points,
    not bytes: for a deal whose URL starts with [https://], the UTF-8
    encoding of the text before either offset is at least 10 bytes
    longer than the offset, because of the eight characters outside
    ASCII in the first line. *)
Theorem facet_offsets_count_code_points (d : Poster.deal number)
        (rest : Poster.str) :
  Poster.url d = Poster.of_ascii "https://" ++ rest ->
  let p := Poster.format_deal_post_rich number two_decimals blob upload d in
  exists f,
    Poster.facets p = [f] /\
    (Poster.byteStart f + 10
     <= Poster.utf8_length (firstn (Poster.byteStart f) (Poster.text p)))%nat /\
    (Poster.byteEnd f + 10
     <= Poster.utf8_length (firstn (Poster.byteEnd f) (Poster.text p)))%nat.
Proof.
  intros Hurl p. unfold p, Poster.format_deal_post_rich.
  cbn [Poster.facets Poster.text]. unfold Poster.lead.
  rewrite <- app_assoc.
  match goal with
  | |- context [Poster.headline ++ ?b] => set (body := b)
  end.
  assert (Hin : exists k, Poster.starts_with (Poster.url d) (skipn k body)
                          = true).
  { unfold body.
    match goal with
    | |- context [?inner ++ Poster.url d ++ Poster.hashtags] =>
        exists (List.length inner)
    end.
    rewrite skipn_length_app. apply starts_with_app. }
  destruct Hin as (k & Hk).
  destruct (index_finds _ _ _ Hk) as (i & Hi & _).
  pose proof (index_end_le _ _ _ Hi) as Hend.
  unfold Poster.create_link_facet.
  assert (Hidx : Poster.index (Poster.url d) (Poster.headline ++ body)
                 = Some (List.length Poster.headline + i)%nat).
  { rewrite Hurl in Hi |- *. cbn [Poster.of_ascii list_ascii_of_string map app]
      in Hi |- *.
    rewrite index_after_prefix by (apply absent_from; reflexivity).
    now rewrite Hi. }
  rewrite Hidx. eexists. split; [reflexivity|]. cbn [Poster.byteStart
    Poster.byteEnd]. split.
  - apply offset_after_headline. lia.
  - replace (List.length Poster.headline + i + List.length (Poster.url d))%nat
      with (List.length Poster.headline + (i + List.length (Poster.url d)))%nat
      by lia.
    apply offset_after_headline. lia.
Qed.
End FacetOffsets.

Lemma facet_offsets_count_code_points_witness :
  let d := Poster.Deal Z (Poster.of_ascii "Snack Box") 8 10 20
             (Poster.of_ascii
                "https://www.amazon.com/dp/B000000002?tag=goinup-20") None in
  let p := Poster.format_deal_post_rich Z (fun _ => Poster.of_ascii "8.00")
             unit (fun _ => None) d in
  exists f,
    Poster.facets p = [f] /\
    (Poster.byteStart f + 10
     <= Poster.utf8_length (firstn (Poster.byteStart f) (Poster.text p)))%nat /\
    (Poster.byteEnd f + 10
     <= Poster.utf8_length (firstn (Poster.byteEnd f) (Poster.text p)))%nat.
Proof.
  intros d.
  apply (facet_offsets_count_code_points Z (fun _ => Poster.of_ascii "8.00")
           unit (fun _ => None) d
           (Poster.of_ascii "www.amazon.com/dp/B000000002?tag=goinup-20")).
  reflexivity.
Defined.

(** ** The alternate poster *)

Lemma slice_within {A} (a x : list A) (i j : nat) :
  (j <= List.length a)%nat ->
  firstn (j - i) (skipn i (a ++ x)) = firstn (j - i) (skipn i a).
Proof.
  intros Hj. destruct (Nat.le_gt_cases i (List.length a)) as [Hi|Hi].
  - rewrite skipn_app, firstn_app, length_skipn.
    replace (j - i - (List.length a - i))%nat with O by lia.
    cbn [firstn]. now rewrite app_nil_r.
  - replace (j - i)%nat with O by lia. reflexivity.
Qed.

Section AlternatePost.
Variable number : Type.
Variable two_decimals : number -> Poster.str.
Variable blob : Type.
Variable upload : Poster.str -> option blob.

(** The alternate [format_deal_post_rich] never gives a text of more
    than 300 code points: a longer one is cut to its first 297 followed
    by three dots. Its single facet covers the first "View Deal" of the
    uncut text (no occurrence starts before it, be it in the title), and
    still covers it in the text of the record when it ends within the
    first 297 code points. *)
Theorem alternate_post_text_bounded (d : Poster.deal number) :
  let full := Post.full_text number two_decimals d in
  let r := Post.format_deal_post_rich number two_decimals blob upload d in
  (List.length (Post.text r) <= 300)%nat /\
  ((List.length full <= 300)%nat -> Post.text r = full) /\
  ((300 < List.length full)%nat ->
   Post.text r = firstn 297 full ++ Poster.of_ascii "...") /\
  exists f,
    Post.facets r = [f] /\
    Poster.uri f = Poster.url d /\
    Poster.slice full (Poster.byteStart f) (Poster.byteEnd f)
      = Post.link_label /\
    Poster.byteEnd f
      = (Poster.byteStart f + List.length Post.link_label)%nat /\
    (forall i, (i < Poster.byteStart f)%nat ->
               Poster.slice full i (i + List.length Post.link_label)
                 <> Post.link_label) /\
    (Poster.byteStart f
     <= List.length (Poster.lead number two_decimals d))%nat /\
    ((Poster.byteEnd f <= 297)%nat ->
     Poster.slice (Post.text r) (Poster.byteStart f) (Poster.byteEnd f)
       = Post.link_label).
Proof.
  intros full r.
  assert (Htext : Post.text r =
                  if (300 <? List.length full)%nat
                  then firstn 297 full ++ Poster.of_ascii "..."
                  else full) by reflexivity.
  split.
  { rewrite Htext. destruct (Nat.ltb_spec 300 (List.length full)); [|lia].
    rewrite length_app, length_firstn.
    change (List.length (Poster.of_ascii "...")) with 3%nat. lia. }
  split.
  { intros H. rewrite Htext.
    destruct (Nat.ltb_spec 300 (List.length full)); [lia|reflexivity]. }
  split.
  { intros H. rewrite Htext.
    destruct (Nat.ltb_spec 300 (List.length full)); [reflexivity|lia]. }
  destruct (index_finds Post.link_label full
              (List.length (Poster.lead number two_decimals d)))
    as (i & Hi & Hle).
  { unfold full, Post.full_text. rewrite skipn_length_app.
    apply starts_with_app. }
  pose proof (index_slice _ _ _ Hi) as Hslice.
  pose proof (index_end_le _ _ _ Hi) as Hend.
  assert (Hf : Post.facets r =
               [{| Poster.byteStart := i;
                   Poster.byteEnd := (i + List.length Post.link_label)%nat;
                   Poster.uri := Poster.url d |}]).
  { unfold r, Post.format_deal_post_rich. cbn [Post.facets].
    unfold Post.create_link_facet. fold full. now rewrite Hi. }
  eexists. split; [exact Hf|]. cbn [Poster.uri Poster.byteStart Poster.byteEnd].
  split; [reflexivity|]. split; [exact Hslice|]. split; [reflexivity|].
  split.
  { intros j Hj Heq. destruct (index_found_at _ _ _ Hi) as (_ & _ & Hbefore).
    unfold Poster.slice in Heq.
    replace (j + List.length Post.link_label - j)%nat
      with (List.length Post.link_label) in Heq by lia.
    apply starts_with_firstn in Heq. rewrite (Hbefore j Hj) in Heq.
    discriminate. }
  split; [exact Hle|].
  intros H297. rewrite Htext.
  destruct (Nat.ltb_spec 300 (List.length full)) as [Hlong|_]; [|exact Hslice].
  unfold Poster.slice in *.
  rewrite slice_within by (rewrite length_firstn; lia).
  rewrite <- (firstn_skipn 297 full) in Hslice at 1.
  rewrite slice_within in Hslice by (rewrite length_firstn; lia).
  exact Hslice.
Qed.
End AlternatePost.
